(** * Rekordbox XML to Traktor NML: a shallow embedding of [rekord_to_nml.py]

    The converter reads a parsed Rekordbox document (an ElementTree), builds
    the NML tree and writes it out.  The embedding follows the class
    [Rekordbox2Traktor] method by method:

    - an [Element] is an ElementTree node: tag, attributes in insertion
      order, children in document order;
    - the converter object is the record [Rekordbox2Traktor], passed
      explicitly; a method that can raise returns [option];
    - Python floats are an interface ([PyFloat]): the program only parses,
      multiplies, subtracts and formats them;
    - the helpers imported from [utils] and [consts] are an interface
      ([Utils]); [uuid.uuid4] is an oracle ([Uuid4]). *)

From Stdlib Require Import ZArith String Ascii.
From stdpp Require Import base option list strings gmap pretty.

Set Warnings "-register-all".

Local Open Scope string_scope.
Local Open Scope list_scope.
Local Open Scope Z_scope.
Local Open Scope nat_scope.

(** ** ElementTree *)

Inductive Element : Type :=
  Elem (tag : string) (attrib : list (string * string)) (children : list Element).

Definition tag (e : Element) : string := let 'Elem t _ _ := e in t.
Definition attrib (e : Element) : list (string * string) := let 'Elem _ a _ := e in a.
Definition children (e : Element) : list Element := let 'Elem _ _ c := e in c.

(** [dict.get] on the attribute dictionary. *)
Fixpoint attrib_get (a : list (string * string)) (name : string) : option string :=
  match a with
  | [] => None
  | (k, v) :: a' => if String.eqb k name then Some v else attrib_get a' name
  end.

(** [Element.set]: an existing key keeps its position, a new key goes last. *)
Fixpoint attrib_set (a : list (string * string)) (name value : string)
  : list (string * string) :=
  match a with
  | [] => [(name, value)]
  | (k, v) :: a' =>
      if String.eqb k name then (k, value) :: a' else (k, v) :: attrib_set a' name value
  end.

Definition set (e : Element) (name value : string) : Element :=
  Elem (tag e) (attrib_set (attrib e) name value) (children e).

(** [ET.SubElement(parent, ...)]: the new node becomes the last child. *)
Definition SubElement (parent child : Element) : Element :=
  Elem (tag parent) (attrib parent) (children parent ++ [child]).

(** [elem.findall(t)]: the direct children with tag [t], in document order. *)
Fixpoint with_tag (t : string) (l : list Element) : list Element :=
  match l with
  | [] => []
  | e :: l' => if String.eqb (tag e) t then e :: with_tag t l' else with_tag t l'
  end.

Definition findall (e : Element) (t : string) : list Element :=
  with_tag t (children e).

(** [elem.find(t)]: the first direct child with tag [t]. *)
Definition find (e : Element) (t : string) : option Element :=
  head (findall e t).

(** All proper descendants, in document order. *)
Fixpoint descendants (e : Element) : list Element :=
  let 'Elem _ _ cs := e in
  (fix go (l : list Element) : list Element :=
     match l with
     | [] => []
     | c :: l' => c :: descendants c ++ go l'
     end) cs.

(** [elem.findall(".//" + t)]: every proper descendant with tag [t]. *)
Definition findall_deep (e : Element) (t : string) : list Element :=
  with_tag t (descendants e).

(** ** Python values *)

(** Truth value of a [str] or [None]. *)
Definition truthy (v : option string) : bool :=
  match v with
  | Some s => negb (String.eqb s "")
  | None => false
  end.

(** [v or d] where [d] is a string. *)
Definition or_str (v : option string) (d : string) : string :=
  match v with
  | Some s => if String.eqb s "" then d else s
  | None => d
  end.

(** [str(n)] for a non-negative [int]. *)
Definition str_nat (n : nat) : string := pretty n.

(** Modelled from the spec: [utils.get_attribute] is imported by the
    converter and is not part of the sources.  Source nodes are flat
    attribute bags, and every caller tests the result for truth before
    using it, so the helper is the attribute lookup: the value when the
    attribute is there, [None] otherwise. *)
Definition get_attribute (e : Element) (name : string) : option string :=
  attrib_get (attrib e) name.

(** ** Interfaces *)

(** What the program needs from Python's [float]: [float(s)] on a string
    ([None] is [ValueError]), the coercion of an [int], [*], [-], truth,
    [int(x)] ([None] is the error on infinities and NaN), [str(x)] and the
    format [.6f].  The three laws are the facts about CPython that the
    defaults of the converter rely on. *)
Class PyFloat := {
  float : Type;
  float_of_str : string -> option float;
  float_of_int : Z -> float;
  float_mul : float -> float -> float;
  float_sub : float -> float -> float;
  float_bool : float -> bool;
  int_of_float : float -> option Z;
  str_of_float : float -> string;
  format_6f : float -> string;
  float_of_str_120 : float_of_str "120.0" = Some (float_of_int 120%Z);
  format_6f_120 : format_6f (float_of_int 120%Z) = "120.000000";
  format_6f_0 : format_6f (float_of_int 0%Z) = "0.000000";
}.

(** [get_location] returns a dictionary with these three keys. *)
Record Location := { DIR : string; FILE : string; VOLUME : string }.

(** The names imported from [utils] and [consts]; their bodies are not
    part of the sources, so every result below holds for any choice.
    [set_cue_color] changes the cue it is given: it attaches a colour
    annotation, so it keeps the tag and every attribute except [COLOR]. *)
Class Utils := {
  get_location : option string -> Location;
  format_date : string -> option string;
  get_tonalikey : string -> string;
  get_track_color : string -> option string;
  get_cue_type : option string -> string;
  set_cue_color : Element -> string -> string -> string -> Element;
  today : string;
  KEY_TO_CODE : gmap string string;
  set_cue_color_tag cue r g b : tag (set_cue_color cue r g b) = tag cue;
  set_cue_color_attrib cue r g b name :
    name ≠ "COLOR" →
    attrib_get (attrib (set_cue_color cue r g b)) name = attrib_get (attrib cue) name;
}.

(** [uuid.uuid4().hex]: the [n]-th draw of the run. *)
Class Uuid4 := uuid4_hex : nat -> string.

(** ** The converter *)

Section Converter.
Context {float_impl : PyFloat} {utils_impl : Utils} {uuid4_impl : Uuid4}.

(** A number that is an [int] or a [float]: [sec_2_ms] returns the [int] 0
    for a false argument and a [float] otherwise. *)
Inductive number : Type :=
  | Int (z : Z)
  | Float (x : float).

(** [f"{n:.6f}"]: an [int] is coerced to a [float] first. *)
Definition format_number_6f (n : number) : string :=
  match n with
  | Int z => format_6f (float_of_int z)
  | Float x => format_6f x
  end.

(** [a - b]: an [int] operand is coerced when the other is a [float]. *)
Definition number_sub (a b : number) : number :=
  match a, b with
  | Int x, Int y => Int (x - y)
  | Int x, Float y => Float (float_sub (float_of_int x) y)
  | Float x, Int y => Float (float_sub x (float_of_int y))
  | Float x, Float y => Float (float_sub x y)
  end.

(** The dictionary [self.track_info], one field per key. *)
Record TrackInfo := {
  info_id : string;
  info_title : string;
  info_artist : string;
  info_album : string;
  info_key : string;
  info_bpm : float;
  info_color : option string;
  info_genre : string;
  info_playtime : string;
  info_playcount : string;
  info_bitrate : float;
  info_import_date : option string;
  info_modif_date : option string;
  info_last_played : option string;
  info_ranking : string;
  info_filesize : string;
  info_location : string;
  info_comments : string;
}.

(** The instance fields set by [__init__].  [track_info] is [None] for the
    empty dictionary; [uuid_calls] counts the draws of [uuid.uuid4] so far.
    A node made by [ET.SubElement] is attached to its parent at once and
    filled through an alias afterwards; here the alias is a value ([track],
    or a local name) that is attached when its last child is in place, which
    gives the same tree because nothing else is attached in between. *)
Record Rekordbox2Traktor := {
  root : option Element;
  track : option Element;
  cues : list Element;
  track_index : nat;
  cue_index : nat;
  track_info : option TrackInfo;
  tracks : list string;
  track_id_map : gmap string string;
  uuid_calls : nat;
}.

Definition init : Rekordbox2Traktor :=
  {| root := None; track := None; cues := []; track_index := 0; cue_index := 0;
     track_info := None; tracks := []; track_id_map := ∅; uuid_calls := 0 |}.

Definition with_track (self : Rekordbox2Traktor) (t : option Element) :=
  {| root := root self; track := t; cues := cues self; track_index := track_index self;
     cue_index := cue_index self; track_info := track_info self;
     tracks := tracks self; track_id_map := track_id_map self;
     uuid_calls := uuid_calls self |}.

Definition with_cue_index (self : Rekordbox2Traktor) (n : nat) :=
  {| root := root self; track := track self; cues := cues self; track_index := track_index self;
     cue_index := n; track_info := track_info self;
     tracks := tracks self; track_id_map := track_id_map self;
     uuid_calls := uuid_calls self |}.

Definition with_uuid_calls (self : Rekordbox2Traktor) (n : nat) :=
  {| root := root self; track := track self; cues := cues self; track_index := track_index self;
     cue_index := cue_index self; track_info := track_info self;
     tracks := tracks self; track_id_map := track_id_map self;
     uuid_calls := n |}.

(** [ET.SubElement(self.track, ...)].  [self.track] is an alias of the
    [ENTRY] that [add_entry] attached to the collection, so a child added
    here is a child of that entry in the output. *)
Definition track_append (self : Rekordbox2Traktor) (child : Element)
  : option Rekordbox2Traktor :=
  t ← track self; Some (with_track self (Some (SubElement t child))).

Definition generate_audio_id : string :=
  "AWAWZmRENDMzMzf//////////////////////f/////////////////////s/////////////////////5b///7//////////+//////af/////////////////////+///////////f/////////1n/////////9Y///////////f/////////+r/7///////9XYzMzM0MyMzJUMzNDNDMzRDn//////////////////////f/////////////////////e/////////////////////3r+/+////////7u7u/v////vf//7////////v/+//////+FZneYYQAAAA==".

Definition safe_float (value : string) (default : float) : float :=
  if String.eqb value "" then default
  else match float_of_str value with
       | Some x => x
       | None => default
       end.

Definition safe_get_attr (e : Element) (attr_name default : string) : string :=
  or_str (get_attribute e attr_name) default.

Definition set_track_info (self : Rekordbox2Traktor) (e : Element)
  : Rekordbox2Traktor :=
  let avg_bpm := safe_get_attr e "AverageBpm" "120.0" in
  let bitrate := safe_get_attr e "BitRate" "320" in
  let track_id := get_attribute e "TrackId" in
  let info :=
    {| info_id := or_str track_id (String.substring 0 8 (uuid4_hex (uuid_calls self)));
       info_title := safe_get_attr e "Name" "";
       info_artist := safe_get_attr e "Artist" "";
       info_album := safe_get_attr e "Album" "";
       info_key := get_tonalikey (safe_get_attr e "Tonality" "");
       info_bpm := safe_float avg_bpm (float_of_int 120%Z);
       info_color := get_track_color (safe_get_attr e "Colour" "");
       info_genre := safe_get_attr e "Genre" "";
       info_playtime := safe_get_attr e "TotalTime" "0";
       info_playcount := safe_get_attr e "PlayCount" "0";
       info_bitrate :=
         float_mul (safe_float bitrate (float_of_int 320%Z)) (float_of_int 1000%Z);
       info_import_date := format_date (safe_get_attr e "DateAdded" "");
       info_modif_date := format_date (safe_get_attr e "DateModified" "");
       info_last_played := format_date (safe_get_attr e "LastPlayed" "");
       info_ranking := safe_get_attr e "Rating" "0";
       info_filesize := safe_get_attr e "Size" "0";
       info_location := safe_get_attr e "Location" "";
       info_comments := safe_get_attr e "Comments" "" |} in
  {| root := root self; track := track self; cues := cues self; track_index := track_index self;
     cue_index := cue_index self; track_info := Some info;
     tracks := tracks self; track_id_map := track_id_map self;
     uuid_calls := if truthy track_id then uuid_calls self else S (uuid_calls self) |}.

(** The argument of [sec_2_ms]: [add_cue] passes an attribute value,
    [process_tempo] a [float]. *)
Inductive seconds : Type :=
  | SecondsStr (v : option string)
  | SecondsFloat (x : float).

Definition sec_2_ms (time_sec : seconds) : option number :=
  match time_sec with
  | SecondsStr v =>
      if truthy v then
        x ← float_of_str (or_str v "");
        Some (Float (float_mul x (float_of_int 1000%Z)))
      else Some (Int 0%Z)
  | SecondsFloat x =>
      if float_bool x then Some (Float (float_mul x (float_of_int 1000%Z)))
      else Some (Int 0%Z)
  end.

Definition add_location (self : Rekordbox2Traktor) : option Rekordbox2Traktor :=
  info ← track_info self;
  let location_data := get_location (Some (info_location info)) in
  track_append self
    (Elem "LOCATION"
       [("DIR", DIR location_data); ("FILE", FILE location_data);
        ("VOLUME", VOLUME location_data); ("VOLUMEID", VOLUME location_data)] []).

Definition add_album (self : Rekordbox2Traktor) : option Rekordbox2Traktor :=
  info ← track_info self;
  if String.eqb (info_album info) "" then Some self
  else track_append self (Elem "ALBUM" [("TITLE", info_album info)] []).

Definition add_modification_info (self : Rekordbox2Traktor)
  : option Rekordbox2Traktor :=
  track_append self (Elem "MODIFICATION_INFO" [("AUTHOR_TYPE", "user")] []).

Definition add_info (self : Rekordbox2Traktor) : option Rekordbox2Traktor :=
  info ← track_info self;
  let playtime := or_str (Some (info_playtime info)) "0" in
  let playtime_float :=
    match float_of_str playtime with
    | Some x => x
    | None => float_of_int 0%Z
    end in
  let key_code := default "10d" (KEY_TO_CODE !! info_key info) in
  bitrate ← int_of_float (info_bitrate info);
  let info_attrs :=
    [("BITRATE", pretty bitrate);
     ("GENRE", or_str (Some (info_genre info)) "");
     ("KEY", key_code);
     ("PLAYCOUNT", or_str (Some (info_playcount info)) "0");
     ("PLAYTIME", playtime);
     ("PLAYTIME_FLOAT", format_6f playtime_float);
     ("RANKING", or_str (Some (info_ranking info)) "0");
     ("IMPORT_DATE", or_str (info_import_date info) "");
     ("LAST_PLAYED", or_str (info_last_played info) "");
     ("FLAGS", "12");
     ("COLOR", or_str (info_color info) "")] in
  let info_attrs :=
    if String.eqb (info_comments info) "" then info_attrs
    else info_attrs ++ [("COMMENT", info_comments info)] in
  track_append self (Elem "INFO" info_attrs []).

Definition add_tempo (self : Rekordbox2Traktor) : option Rekordbox2Traktor :=
  info ← track_info self;
  track_append self
    (Elem "TEMPO"
       [("BPM", format_6f (info_bpm info)); ("BPM_QUALITY", "100.000000")] []).

Definition add_loudness (self : Rekordbox2Traktor) : option Rekordbox2Traktor :=
  track_append self
    (Elem "LOUDNESS"
       [("PEAK_DB", "-1.0"); ("PERCEIVED_DB", "-1.0"); ("ANALYZED_DB", "-1.0")] []).

Definition add_musical_key (self : Rekordbox2Traktor) : option Rekordbox2Traktor :=
  info ← track_info self;
  track_append self (Elem "MUSICAL_KEY" [("VALUE", info_key info)] []).

(** The [CUE_V2] node that [add_beatmarker] makes, with its [GRID] child. *)
Definition beatmarker_cue (start_ms : number) (bpm : float) (is_autogrid : bool)
  : Element :=
  let name := if is_autogrid then "AutoGrid" else "Beat Marker" in
  Elem "CUE_V2"
    [("NAME", name); ("DISPL_ORDER", "0"); ("TYPE", "4");
     ("START", format_number_6f start_ms); ("LEN", "0.000000");
     ("REPEATS", "-1"); ("HOTCUE", "-1")]
    [Elem "GRID" [("BPM", format_6f bpm)] []].

Definition add_beatmarker (self : Rekordbox2Traktor) (start_ms : number)
    (bpm : float) (is_autogrid : bool) : option Rekordbox2Traktor :=
  track_append self (beatmarker_cue start_ms bpm is_autogrid).

(** The [CUE_V2] node that [add_autogrid] makes: the grid anchor. *)
Definition autogrid_cue (start_ms : number) : Element :=
  Elem "CUE_V2"
    [("NAME", "AutoGrid"); ("DISPL_ORDER", "0"); ("TYPE", "0");
     ("START", format_number_6f start_ms); ("LEN", "0.000000");
     ("REPEATS", "-1"); ("HOTCUE", "0"); ("COLOR", "#FFFFFF")] [].

Definition add_autogrid (self : Rekordbox2Traktor) (start_ms : number)
  : option Rekordbox2Traktor :=
  track_append self (autogrid_cue start_ms).

(** [num if num and num != "-1" else str(self.cue_index)]. *)
Definition hotcue_slot (num : option string) (cue_index : nat) : string :=
  match num with
  | Some n => if truthy num && negb (String.eqb n "-1") then n else str_nat cue_index
  | None => str_nat cue_index
  end.

Definition add_cue (self : Rekordbox2Traktor) (position_mark : Element)
  : option (Rekordbox2Traktor * Element) :=
  let cue_type := get_attribute position_mark "Type" in
  let start_sec := get_attribute position_mark "Start" in
  let end_sec := get_attribute position_mark "End" in
  let num := get_attribute position_mark "Num" in
  let name := or_str (get_attribute position_mark "Name") "n.n." in
  start_ms ← sec_2_ms (SecondsStr start_sec);
  loop_length ←
    (if truthy end_sec then
       end_ms ← sec_2_ms (SecondsStr end_sec); Some (number_sub end_ms start_ms)
     else Some (Int 0%Z));
  let hotcue := hotcue_slot num (cue_index self) in
  let cue_attrs :=
    [("NAME", name); ("DISPL_ORDER", "0"); ("TYPE", get_cue_type cue_type);
     ("START", format_number_6f start_ms); ("LEN", format_number_6f loop_length);
     ("REPEATS", "-1"); ("HOTCUE", hotcue)] in
  let cue := Elem "CUE_V2" cue_attrs [] in
  let r := get_attribute position_mark "Red" in
  let g := get_attribute position_mark "Green" in
  let b := get_attribute position_mark "Blue" in
  let cue :=
    if truthy r && truthy g && truthy b
    then set_cue_color cue (or_str r "") (or_str g "") (or_str b "")
    else cue in
  self ← track_append self cue;
  Some (with_cue_index self (S (cue_index self)), cue).

(** The three statements that open both the one-marker branch and the loop
    body of [process_tempo]: start time in milliseconds and tempo of a
    [TEMPO] node.  [str(self.track_info['bpm'])] is only evaluated when the
    node has no [Bpm]. *)
Definition tempo_marker (self : Rekordbox2Traktor) (tempo : Element)
  : option (number * float) :=
  start_sec ← float_of_str (or_str (get_attribute tempo "Inizio") "0");
  bpm_str ←
    (if truthy (get_attribute tempo "Bpm")
     then Some (or_str (get_attribute tempo "Bpm") "")
     else info ← track_info self; Some (str_of_float (info_bpm info)));
  bpm ← float_of_str bpm_str;
  start_ms ← sec_2_ms (SecondsFloat start_sec);
  Some (start_ms, bpm).

(** [for i, tempo in enumerate(tempo_elements)], from index [i] on. *)
Fixpoint process_tempo_loop (self : Rekordbox2Traktor) (i : nat)
    (tempo_elements : list Element) : option Rekordbox2Traktor :=
  match tempo_elements with
  | [] => Some self
  | tempo :: rest =>
      '(start_ms, bpm) ← tempo_marker self tempo;
      let is_autogrid := Nat.eqb i 0 in
      self ← add_beatmarker self start_ms bpm is_autogrid;
      self ← (if is_autogrid then add_autogrid self start_ms else Some self);
      process_tempo_loop self (S i) rest
  end.

Definition process_tempo (self : Rekordbox2Traktor) (e : Element)
  : option Rekordbox2Traktor :=
  let tempo_elements := findall e "TEMPO" in
  match tempo_elements with
  | [] =>
      info ← track_info self;
      self ← add_beatmarker self (Int 0%Z) (info_bpm info) true;
      add_autogrid self (Int 0%Z)
  | [tempo] =>
      '(start_ms, bpm) ← tempo_marker self tempo;
      self ← add_beatmarker self start_ms bpm true;
      add_autogrid self start_ms
  | _ => process_tempo_loop self 0 tempo_elements
  end.

(** [for position_mark in position_marks]. *)
Fixpoint process_cues_loop (self : Rekordbox2Traktor)
    (position_marks : list Element) : option Rekordbox2Traktor :=
  match position_marks with
  | [] => Some self
  | position_mark :: rest =>
      let name := get_attribute position_mark "Name" in
      if bool_decide (name = Some "AutoGrid") then process_cues_loop self rest
      else
        '(self, _) ← add_cue self position_mark;
        process_cues_loop self rest
  end.

Definition process_cues (self : Rekordbox2Traktor) (e : Element)
  : option Rekordbox2Traktor :=
  process_cues_loop self (findall e "POSITION_MARK").

Definition reset_track (self : Rekordbox2Traktor) : Rekordbox2Traktor :=
  {| root := root self; track := None; cues := []; track_index := track_index self;
     cue_index := 1; track_info := None;
     tracks := tracks self; track_id_map := track_id_map self;
     uuid_calls := uuid_calls self |}.

(** The new [ENTRY]; [process_track] stores it in [self.track]. *)
Definition add_entry (self : Rekordbox2Traktor) : option Element :=
  info ← track_info self;
  Some (Elem "ENTRY"
          [("MODIFIED_DATE", or_str (info_modif_date info) today);
           ("MODIFIED_TIME", "0");
           ("AUDIO_ID", generate_audio_id);
           ("TITLE", info_title info);
           ("ARTIST", info_artist info)] []).

(** [process_track(track, collection)].  The source attaches the new
    [ENTRY] to [collection], a node below [self.root], as soon as
    [add_entry] makes it, and fills it through the alias [self.track].
    Here the call returns the finished entry in [self.track], and the
    track loop ([process_entries]) attaches it to the collection then: the
    collection is not an argument, and [self.root] says nothing of what the
    call adds to the output tree. *)
Definition process_track (self : Rekordbox2Traktor) (e : Element)
  : option (Rekordbox2Traktor * bool) :=
  let self := reset_track self in
  let self := set_track_info self e in
  entry ← add_entry self;
  let self := with_track self (Some entry) in
  self ← add_location self;
  self ← add_album self;
  self ← add_modification_info self;
  self ← add_info self;
  self ← add_tempo self;
  self ← add_loudness self;
  self ← add_musical_key self;
  self ← process_tempo self e;
  self ← process_cues self e;
  Some (self, true).

Definition root_append (self : Rekordbox2Traktor) (child : Element)
  : option Rekordbox2Traktor :=
  r ← root self;
  Some {| root := Some (SubElement r child); track := track self; cues := cues self;
          track_index := track_index self; cue_index := cue_index self;
          track_info := track_info self; tracks := tracks self;
          track_id_map := track_id_map self; uuid_calls := uuid_calls self |}.

(** The [$ROOT] folder node; [attach_playlists] puts it under a new
    [PLAYLISTS] child of [self.root]. *)
Definition add_playlists_section : Element :=
  Elem "NODE" [("TYPE", "FOLDER"); ("NAME", "$ROOT")] [].

Definition attach_playlists (self : Rekordbox2Traktor) (root_node : Element)
  : option Rekordbox2Traktor :=
  root_append self (Elem "PLAYLISTS" [] [root_node]).

(** [for track_elem in track_elements] of a playlist node: the [ENTRY]
    children added to [playlist]. *)
Fixpoint playlist_entries (track_id_map : gmap string string)
    (track_elements : list Element) (playlist : Element) : Element :=
  match track_elements with
  | [] => playlist
  | track_elem :: rest =>
      let track_id := get_attribute track_elem "Key" in
      if truthy track_id then
        match track_id_map !! or_str track_id "" with
        | Some file_path =>
            playlist_entries track_id_map rest
              (SubElement playlist
                 (Elem "ENTRY" []
                    [Elem "PRIMARYKEY" [("TYPE", "TRACK"); ("KEY", file_path)] []]))
        | None => playlist_entries track_id_map rest playlist
        end
      else playlist_entries track_id_map rest playlist
  end.

(** The recursion follows the source tree.  The inner loop is
    [for child in rekordbox_node.findall("NODE")], written over all the
    children with the tag test inside so that the recursive call is on a
    child ([folder_loop_findall] below gives the loop over [findall]).
    The result is the converter (the draws of [uuid4] advance) and the
    parent with what was added to it. *)
Fixpoint process_playlist_node (rekordbox_node : Element)
    (self : Rekordbox2Traktor) (parent_subnodes : Element)
  : Rekordbox2Traktor * Element :=
  let node_type := get_attribute rekordbox_node "Type" in
  let node_name := get_attribute rekordbox_node "Name" in
  if negb (truthy node_name) then (self, parent_subnodes)
  else if bool_decide (node_type = Some "0") then
    let '(self, subnodes, child_count) :=
      (fix loop (l : list Element) (acc : Rekordbox2Traktor * Element * nat) :=
         match l with
         | [] => acc
         | child :: l' =>
             if String.eqb (tag child) "NODE" then
               let '(self, subnodes, child_count) := acc in
               let '(self, subnodes) := process_playlist_node child self subnodes in
               loop l' (self, subnodes, S child_count)
             else loop l' acc
         end)
        (let 'Elem _ _ cs := rekordbox_node in cs)
        (self, Elem "SUBNODES" [] [], 0) in
    let subnodes := set subnodes "COUNT" (str_nat child_count) in
    let folder_node :=
      Elem "NODE" [("TYPE", "FOLDER"); ("NAME", or_str node_name "")] [subnodes] in
    (self, SubElement parent_subnodes folder_node)
  else if bool_decide (node_type = Some "1") then
    let track_elements := findall rekordbox_node "TRACK" in
    match track_elements with
    | [] => (self, parent_subnodes)
    | _ =>
        let playlist :=
          Elem "PLAYLIST"
            [("ENTRIES", str_nat (length track_elements)); ("TYPE", "LIST");
             ("UUID", uuid4_hex (uuid_calls self))] [] in
        let playlist := playlist_entries (track_id_map self) track_elements playlist in
        let playlist_node :=
          Elem "NODE" [("TYPE", "PLAYLIST"); ("NAME", or_str node_name "")] [playlist] in
        (with_uuid_calls self (S (uuid_calls self)),
         SubElement parent_subnodes playlist_node)
    end
  else (self, parent_subnodes).

(** [for node in nodes: self.process_playlist_node(node, subnodes);
    child_count += 1], the loop of a folder node and of [process_playlists]. *)
Fixpoint process_nodes (nodes : list Element)
    (acc : Rekordbox2Traktor * Element * nat) : Rekordbox2Traktor * Element * nat :=
  match nodes with
  | [] => acc
  | node :: rest =>
      let '(self, subnodes, child_count) := acc in
      let '(self, subnodes) := process_playlist_node node self subnodes in
      process_nodes rest (self, subnodes, S child_count)
  end.

(** [for track_loc in self.tracks] of the default playlist. *)
Definition default_entries (tracks : list string) : list Element :=
  (λ track_loc,
     Elem "ENTRY" [] [Elem "PRIMARYKEY" [("TYPE", "TRACK"); ("KEY", track_loc)] []])
    <$> tracks.

Definition add_default_playlist (self : Rekordbox2Traktor)
  : option Rekordbox2Traktor :=
  let root_node := add_playlists_section in
  let playlist :=
    Elem "PLAYLIST"
      [("ENTRIES", str_nat (length (tracks self))); ("TYPE", "LIST");
       ("UUID", uuid4_hex (uuid_calls self))]
      (default_entries (tracks self)) in
  let playlist_node :=
    Elem "NODE" [("TYPE", "PLAYLIST"); ("NAME", "collection")] [playlist] in
  let subnodes := Elem "SUBNODES" [("COUNT", "1")] [playlist_node] in
  attach_playlists (with_uuid_calls self (S (uuid_calls self)))
    (SubElement root_node subnodes).

Definition process_playlists (self : Rekordbox2Traktor) (rekordbox_root : Element)
  : option Rekordbox2Traktor :=
  match find rekordbox_root "PLAYLISTS" with
  | None => add_default_playlist self
  | Some playlists_section =>
      let nml_root_node := add_playlists_section in
      let subnodes := Elem "SUBNODES" [] [] in
      match find playlists_section "NODE" with
      | Some root_node =>
          let '(self, subnodes, child_count) :=
            process_nodes (findall root_node "NODE") (self, subnodes, 0) in
          let subnodes := set subnodes "COUNT" (str_nat child_count) in
          attach_playlists self (SubElement nml_root_node subnodes)
      | None =>
          self ← attach_playlists self (SubElement nml_root_node subnodes);
          add_default_playlist self
      end
  end.

Definition add_head (self : Rekordbox2Traktor) : option Rekordbox2Traktor :=
  root_append self
    (Elem "HEAD" [("COMPANY", "www.native-instruments.com"); ("PROGRAM", "Traktor Pro 4")] []).

(** The new [COLLECTION]; [convert_xml_to_nml] attaches it. *)
Definition add_collection (entries : list Element) : Element :=
  Elem "COLLECTION" [("ENTRIES", str_nat (length entries))] [].

Definition add_sets (self : Rekordbox2Traktor) : option Rekordbox2Traktor :=
  root_append self (Elem "SETS" [("ENTRIES", str_nat 0)] []).

Definition add_indexing (self : Rekordbox2Traktor) : option Rekordbox2Traktor :=
  root_append self (Elem "INDEXING" [] []).

(** [f"{loc['VOLUME']}{loc['DIR']}{loc['FILE']}"] for a source track. *)
Definition file_path (e : Element) : string :=
  let loc := get_location (get_attribute e "Location") in
  VOLUME loc +:+ DIR loc +:+ FILE loc.

(** What the body of the track loop does to the converter once
    [process_track] has returned. *)
Definition register_track (self : Rekordbox2Traktor) (e : Element)
    (track_id : option string) : Rekordbox2Traktor :=
  {| root := root self; track := track self; cues := cues self;
     track_index := S (track_index self); cue_index := cue_index self;
     track_info := track_info self;
     tracks := tracks self ++ [file_path e];
     track_id_map :=
       if truthy track_id then <[or_str track_id "" := file_path e]> (track_id_map self)
       else track_id_map self;
     uuid_calls := uuid_calls self |}.

(** [for track in entries], with the collection the entries go to. *)
Fixpoint process_entries (self : Rekordbox2Traktor) (collection : Element)
    (entries : list Element) : option (Rekordbox2Traktor * Element) :=
  match entries with
  | [] => Some (self, collection)
  | e :: rest =>
      let track_id := get_attribute e "TrackID" in
      '(self, ok) ← process_track self e;
      entry ← track self;
      let collection := SubElement collection entry in
      if ok : bool then process_entries (register_track self e track_id) collection rest
      else process_entries self collection rest
  end.

(** The tree that [convert_xml_to_nml] writes to [nml_file], from the
    parsed source document. *)
Definition convert_xml_to_nml (self : Rekordbox2Traktor) (xml_root : Element)
  : option Rekordbox2Traktor :=
  let self :=
    {| root := Some (Elem "NML" [("VERSION", "20")] []); track := track self;
       cues := cues self; track_index := track_index self;
       cue_index := cue_index self; track_info := track_info self;
       tracks := tracks self; track_id_map := track_id_map self;
       uuid_calls := uuid_calls self |} in
  let entries := findall_deep xml_root "TRACK" in
  self ← add_head self;
  let collection := add_collection entries in
  let self :=
    {| root := root self; track := track self; cues := cues self;
       track_index := track_index self; cue_index := cue_index self;
       track_info := track_info self; tracks := []; track_id_map := ∅;
       uuid_calls := uuid_calls self |} in
  '(self, collection) ← process_entries self collection entries;
  self ← root_append self collection;
  self ← add_sets self;
  self ← process_playlists self xml_root;
  add_indexing self.

End Converter.

(** ** A reference implementation of the interfaces

    Decimal fixed point in millionths stands in for binary floating point:
    it reads plain decimals (digits, an optional sign in front, an optional
    fraction), and is exact as long as six decimals are enough.  It is used
    to run the converter on concrete documents. *)

Module Reference.

Definition digit (c : ascii) : option Z :=
  let n := nat_of_ascii c in
  if (48 <=? n) && (n <=? 57) then Some (Z.of_nat (n - 48)) else None.

Fixpoint parse_fraction (s : string) (unit acc : Z) : option Z :=
  match s with
  | EmptyString => Some acc
  | String c r => d ← digit c; parse_fraction r (unit / 10)%Z (acc + d * unit)%Z
  end.

Fixpoint parse_decimal (s : string) (acc : Z) : option Z :=
  match s with
  | EmptyString => Some (acc * 1000000)%Z
  | String c r =>
      if Ascii.eqb c "." then parse_fraction r 100000%Z (acc * 1000000)%Z
      else d ← digit c; parse_decimal r (acc * 10 + d)%Z
  end.

Definition parse_unsigned (s : string) : option Z :=
  match s with
  | EmptyString => None
  | String c _ => _ ← digit c; parse_decimal s 0%Z
  end.

Definition parse (s : string) : option Z :=
  match s with
  | String c r =>
      if Ascii.eqb c "-" then Z.opp <$> parse_unsigned r
      else if Ascii.eqb c "+" then parse_unsigned r
      else parse_unsigned s
  | EmptyString => None
  end.

Fixpoint zeros (n : nat) : string :=
  match n with
  | O => ""
  | S n' => String "0" (zeros n')
  end.

Definition fraction_digits (z : Z) : string :=
  let digits := pretty (Z.abs z mod 1000000)%Z in
  zeros (6 - String.length digits) +:+ digits.

Definition sign_of (z : Z) : string := if (z <? 0)%Z then "-" else "".

Definition format (z : Z) : string :=
  sign_of z +:+ pretty (Z.abs z / 1000000)%Z +:+ "." +:+ fraction_digits z.

Fixpoint trim_zeros (s : string) : string :=
  match s with
  | EmptyString => ""
  | String c r =>
      let r' := trim_zeros r in
      if String.eqb r' "" && Ascii.eqb c "0" then "" else String c r'
  end.

Definition to_str (z : Z) : string :=
  let fraction := trim_zeros (fraction_digits z) in
  sign_of z +:+ pretty (Z.abs z / 1000000)%Z +:+ "."
    +:+ (if String.eqb fraction "" then "0" else fraction).

#[export] Program Instance fixed_point : PyFloat := {|
  float := Z;
  float_of_str := parse;
  float_of_int := λ z, (z * 1000000)%Z;
  float_mul := λ a b, (a * b / 1000000)%Z;
  float_sub := Z.sub;
  float_bool := λ a, negb (a =? 0)%Z;
  int_of_float := λ a, Some (a ÷ 1000000)%Z;
  str_of_float := to_str;
  format_6f := format;
|}.
Solve All Obligations with reflexivity.

(** Stand-ins for [utils] and [consts]: the location is kept whole as the
    file name on the volume ["vol:"], dates, keys, colours and cue types
    pass through. *)
#[export] Program Instance plain_utils : Utils := {|
  get_location := λ v, {| DIR := "/:"; FILE := or_str v ""; VOLUME := "vol:" |};
  format_date := λ s, Some s;
  get_tonalikey := λ s, s;
  get_track_color := λ s, Some s;
  get_cue_type := λ v, or_str v "0";
  set_cue_color := λ cue r g b, set cue "COLOR" (r +:+ "," +:+ g +:+ "," +:+ b);
  today := "2024/1/1";
  KEY_TO_CODE := {[ "C" := "10d" ]};
|}.
Next Obligation. done. Qed.
Next Obligation.
  intros cue r g b name Hne. unfold set. cbn [attrib].
  assert (String.eqb "COLOR" name = false) as Hneq by (apply String.eqb_neq; congruence).
  induction (attrib cue) as [|[k v] a IH]; cbn [attrib_set attrib_get].
  - by rewrite Hneq.
  - destruct (String.eqb k "COLOR") eqn:E; cbn [attrib_get]; [|by rewrite IH].
    apply String.eqb_eq in E as ->. by rewrite Hneq.
Qed.

#[export] Instance counting_uuid : Uuid4 := λ n, "uuid-" +:+ pretty n.

End Reference.
(** ** Elements and attributes *)

Lemma attrib_get_set_eq a name value :
  attrib_get (attrib_set a name value) name = Some value.
Proof.
  induction a as [|[k v] a IH]; simpl.
  - by rewrite String.eqb_refl.
  - destruct (String.eqb k name) eqn:E; simpl; by rewrite E.
Qed.

Lemma attrib_get_set_ne a name value other :
  name ≠ other → attrib_get (attrib_set a name value) other = attrib_get a other.
Proof.
  intros Hne. induction a as [|[k v] a IH]; simpl.
  - by apply String.eqb_neq in Hne as ->.
  - destruct (String.eqb k name) eqn:E; simpl.
    + apply String.eqb_eq in E as ->. by apply String.eqb_neq in Hne as ->.
    + by rewrite IH.
Qed.

Lemma with_tag_app t l1 l2 : with_tag t (l1 ++ l2) = with_tag t l1 ++ with_tag t l2.
Proof.
  induction l1 as [|e l1 IH]; simpl; [done|].
  destruct (String.eqb (tag e) t); simpl; by rewrite IH.
Qed.

Lemma with_tag_all t l : Forall (λ e, tag e = t) l → with_tag t l = l.
Proof.
  induction 1 as [|e l He _ IH]; simpl; [done|].
  by rewrite He, String.eqb_refl, IH.
Qed.

Lemma with_tag_none t l : Forall (λ e, tag e ≠ t) l → with_tag t l = [].
Proof.
  induction 1 as [|e l He _ IH]; simpl; [done|].
  by apply String.eqb_neq in He as ->.
Qed.

Lemma truthy_Some v : truthy v = true → ∃ s, v = Some s ∧ s ≠ "" ∧ or_str v "" = s.
Proof.
  destruct v as [s|]; simpl; [|done].
  destruct (String.eqb s "") eqn:E; [done|].
  intros _. exists s. split; [done|]. split; [|done]. by apply String.eqb_neq.
Qed.

Lemma truthy_or_str v d : truthy v = false → or_str v d = d.
Proof.
  destruct v as [s|]; simpl; [|done]. by destruct (String.eqb s "").
Qed.

(** ** One track *)

Section Track.
Context {float_impl : PyFloat} {utils_impl : Utils} {uuid4_impl : Uuid4}.

(** Every method that builds the entry adds children to [self.track] and
    leaves the rest of the converter alone ([add_cue] also advances
    [cue_index]). *)
Definition append_children (self : Rekordbox2Traktor) (new : list Element)
  : option Rekordbox2Traktor :=
  t ← track self;
  Some (with_track self (Some (Elem (tag t) (attrib t) (children t ++ new)))).

Lemma track_append_children self child :
  track_append self child = append_children self [child].
Proof. done. Qed.

Lemma append_children_nil self t :
  track self = Some t → append_children self [] = Some self.
Proof.
  intros Ht. unfold append_children. rewrite Ht. simpl.
  rewrite app_nil_r. destruct self, t; simpl in *. by subst.
Qed.

Lemma append_children_Some self new self' :
  append_children self new = Some self' →
  ∃ t, track self = Some t
       ∧ track self' = Some (Elem (tag t) (attrib t) (children t ++ new))
       ∧ track_info self' = track_info self
       ∧ cue_index self' = cue_index self
       ∧ uuid_calls self' = uuid_calls self
       ∧ tracks self' = tracks self
       ∧ track_id_map self' = track_id_map self
       ∧ track_index self' = track_index self
       ∧ root self' = root self.
Proof.
  unfold append_children. destruct (track self) as [t|]; simpl; [|done].
  intros [= <-]. by exists t.
Qed.

Lemma append_children_then self new1 self1 new2 :
  append_children self new1 = Some self1 →
  append_children self1 new2 = append_children self (new1 ++ new2).
Proof.
  unfold append_children. destruct (track self) as [t|]; simpl; [|done].
  intros [= <-]. simpl. by rewrite app_assoc.
Qed.

(** Changing [self.track] or [self.cue_index] does not change what a
    [TEMPO] node is read as. *)
Lemma tempo_marker_track_info self1 self2 tempo :
  track_info self1 = track_info self2 →
  tempo_marker self1 tempo = tempo_marker self2 tempo.
Proof. intros E. unfold tempo_marker. by rewrite E. Qed.

(** *** The beat grid *)

(** The nodes the loop of [process_tempo] adds from index [i] on, for
    markers already read as (start in ms, tempo). *)
Fixpoint loop_cues (i : nat) (markers : list (number * float)) : list Element :=
  match markers with
  | [] => []
  | (start_ms, bpm) :: rest =>
      (beatmarker_cue start_ms bpm (Nat.eqb i 0)
         :: (if Nat.eqb i 0 then [autogrid_cue start_ms] else []))
      ++ loop_cues (S i) rest
  end.

Lemma loop_cues_later i markers :
  loop_cues (S i) markers = (λ m, beatmarker_cue m.1 m.2 false) <$> markers.
Proof.
  revert i. induction markers as [|[s b] rest IH]; intros i; simpl; [done|].
  by rewrite IH.
Qed.

Lemma process_tempo_loop_adds tempo_elements : ∀ self i t markers,
  track self = Some t →
  Forall2 (λ tempo m, tempo_marker self tempo = Some m) tempo_elements markers →
  process_tempo_loop self i tempo_elements
  = append_children self (loop_cues i markers).
Proof.
  induction tempo_elements as [|tempo rest IH]; intros self i t markers Ht Hall.
  - apply Forall2_nil_inv_l in Hall as ->. simpl.
    symmetry. by eapply append_children_nil.
  - apply Forall2_cons_inv_l in Hall as ([start_ms bpm] & ms & Hm & Hms & ->).
    simpl. rewrite Hm. simpl.
    unfold add_beatmarker, add_autogrid, track_append. rewrite Ht. simpl.
    destruct (Nat.eqb i 0); simpl.
    + erewrite IH; [|done|].
      * unfold append_children. rewrite Ht. simpl. by rewrite <- !app_assoc.
      * eapply Forall2_impl; [exact Hms|]. by intros tempo' m' <-.
    + erewrite IH; [|done|].
      * unfold append_children. rewrite Ht. simpl. by rewrite <- !app_assoc.
      * eapply Forall2_impl; [exact Hms|]. by intros tempo' m' <-.
Qed.

(** What a track with two or more [TEMPO] nodes gets: a beat marker and the
    grid anchor for the first, a plain beat marker for each of the others. *)
Definition grid_cues (markers : list (number * float)) : list Element :=
  match markers with
  | [] => []
  | m :: rest =>
      beatmarker_cue m.1 m.2 true :: autogrid_cue m.1
        :: ((λ m, beatmarker_cue m.1 m.2 false) <$> rest)
  end.

Lemma loop_cues_grid_cues markers : loop_cues 0 markers = grid_cues markers.
Proof. destruct markers as [|[s b] rest]; simpl; [done|]. by rewrite loop_cues_later. Qed.

(** A beat marker is a cue of type 4 that carries a [GRID] node; a grid
    anchor is the cue of type 0 in hot-cue slot 0 that [add_autogrid] makes. *)
Definition is_beatmarker (c : Element) : bool :=
  bool_decide (attrib_get (attrib c) "TYPE" = Some "4")
  && bool_decide (tag <$> children c = ["GRID"]).

Definition is_grid_anchor (c : Element) : bool :=
  bool_decide (attrib_get (attrib c) "TYPE" = Some "0")
  && bool_decide (attrib_get (attrib c) "HOTCUE" = Some "0").

Definition is_autogrid (c : Element) : bool :=
  bool_decide (attrib_get (attrib c) "NAME" = Some "AutoGrid").

Lemma filter_beatmarker_later (rest : list (number * float)) :
  List.filter is_beatmarker ((λ m, beatmarker_cue m.1 m.2 false) <$> rest)
  = (λ m, beatmarker_cue m.1 m.2 false) <$> rest.
Proof.
  induction rest as [|m rest IH]; [done|].
  rewrite fmap_cons. cbn [List.filter].
  replace (is_beatmarker (beatmarker_cue m.1 m.2 false)) with true by done.
  by rewrite IH.
Qed.

Lemma filter_anchor_later (rest : list (number * float)) :
  List.filter is_grid_anchor ((λ m, beatmarker_cue m.1 m.2 false) <$> rest) = [].
Proof.
  induction rest as [|m rest IH]; [done|].
  rewrite fmap_cons. cbn [List.filter].
  by replace (is_grid_anchor (beatmarker_cue m.1 m.2 false)) with false by done.
Qed.

Lemma filter_autogrid_later (rest : list (number * float)) :
  List.filter is_autogrid ((λ m, beatmarker_cue m.1 m.2 false) <$> rest) = [].
Proof.
  induction rest as [|m rest IH]; [done|].
  rewrite fmap_cons. cbn [List.filter].
  by replace (is_autogrid (beatmarker_cue m.1 m.2 false)) with false by done.
Qed.

Lemma grid_cues_beatmarkers m rest :
  List.filter is_beatmarker (grid_cues (m :: rest))
  = beatmarker_cue m.1 m.2 true :: ((λ m, beatmarker_cue m.1 m.2 false) <$> rest).
Proof.
  cbn [grid_cues List.filter].
  replace (is_beatmarker (beatmarker_cue m.1 m.2 true)) with true by done.
  replace (is_beatmarker (autogrid_cue m.1)) with false by done.
  by rewrite filter_beatmarker_later.
Qed.

Lemma process_tempo_no_marker self e t info :
  track self = Some t → track_info self = Some info → findall e "TEMPO" = [] →
  process_tempo self e
  = append_children self
      [beatmarker_cue (Int 0%Z) (info_bpm info) true; autogrid_cue (Int 0%Z)].
Proof.
  intros Ht Hinfo He. unfold process_tempo. rewrite He, Hinfo. simpl.
  unfold add_beatmarker, add_autogrid, track_append, append_children.
  rewrite Ht. unfold SubElement, with_track. simpl. by rewrite <- app_assoc.
Qed.

Lemma process_tempo_one_marker self e t tempo m :
  track self = Some t → findall e "TEMPO" = [tempo] →
  tempo_marker self tempo = Some m →
  process_tempo self e
  = append_children self [beatmarker_cue m.1 m.2 true; autogrid_cue m.1].
Proof.
  intros Ht He Hm. unfold process_tempo. rewrite He, Hm. destruct m as [s b]. simpl.
  unfold add_beatmarker, add_autogrid, track_append, append_children.
  rewrite Ht. unfold SubElement, with_track. simpl. by rewrite <- app_assoc.
Qed.

Lemma process_tempo_loop_read tempo_elements : ∀ self i self',
  process_tempo_loop self i tempo_elements = Some self' →
  is_Some (track self) →
  ∃ markers,
    Forall2 (λ tempo m, tempo_marker self tempo = Some m) tempo_elements markers.
Proof.
  induction tempo_elements as [|x l IH]; intros self i self' Hp [t Ht]; [by exists []|].
  simpl in Hp. destruct (tempo_marker self x) as [[s b]|] eqn:Hx; [|done].
  simpl in Hp. unfold add_beatmarker, add_autogrid, track_append in Hp.
  rewrite Ht in Hp. simpl in Hp.
  destruct (Nat.eqb i 0); simpl in Hp;
    (eapply IH in Hp as [ms Hms]; [|by simpl; eauto]);
    (exists ((s, b) :: ms); constructor; [done|]);
    (eapply Forall2_impl; [exact Hms|]); by intros ?? <-.
Qed.

Lemma process_tempo_track self e self' :
  process_tempo self e = Some self' → is_Some (track self).
Proof.
  destruct (track self) as [t|] eqn:Ht; [by eauto|].
  unfold process_tempo. intros Hp. exfalso.
  destruct (findall e "TEMPO") as [|tempo [|tempo' rest]]; simpl in Hp.
  - destruct (track_info self); simpl in Hp; [|done].
    unfold add_beatmarker, track_append in Hp. by rewrite Ht in Hp.
  - destruct (tempo_marker self tempo) as [[??]|]; simpl in Hp; [|done].
    unfold add_beatmarker, track_append in Hp. by rewrite Ht in Hp.
  - destruct (tempo_marker self tempo) as [[??]|]; simpl in Hp; [|done].
    unfold add_beatmarker, track_append in Hp. by rewrite Ht in Hp.
Qed.

Lemma process_tempo_adds self e self' :
  process_tempo self e = Some self' →
  ∃ new, append_children self new = Some self' ∧ Forall (λ c, tag c = "CUE_V2") new.
Proof.
  intros Hp. destruct (process_tempo_track _ _ _ Hp) as [t Ht].
  destruct (findall e "TEMPO") as [|tempo [|tempo' rest]] eqn:He.
  - destruct (track_info self) as [info|] eqn:Hinfo.
    + rewrite (process_tempo_no_marker self e t info Ht Hinfo He) in Hp.
      eexists. split; [exact Hp|]. by repeat constructor.
    + unfold process_tempo in Hp. by rewrite He, Hinfo in Hp.
  - destruct (tempo_marker self tempo) as [m|] eqn:Hm.
    + rewrite (process_tempo_one_marker self e t tempo m Ht He Hm) in Hp.
      eexists. split; [exact Hp|]. by repeat constructor.
    + unfold process_tempo in Hp. by rewrite He, Hm in Hp.
  - unfold process_tempo in Hp. rewrite He in Hp.
    destruct (process_tempo_loop_read _ _ _ _ Hp) as [markers Hall]; [by eauto|].
    rewrite (process_tempo_loop_adds _ self 0 t markers Ht Hall) in Hp.
    eexists. split; [exact Hp|].
    rewrite loop_cues_grid_cues. destruct markers as [|m ms]; simpl; [done|].
    repeat constructor. apply Forall_fmap. by apply Forall_true.
Qed.

(** *** Cues *)

(** [add_cue], called when [self.cue_index] is [i], returns [cue]. *)
Definition add_cue_at (i : nat) (position_mark cue : Element) : Prop :=
  ∃ self self', cue_index self = i ∧ add_cue self position_mark = Some (self', cue).

(** The position marks that [process_cues] passes to [add_cue]. *)
Definition not_autogrid (position_mark : Element) : bool :=
  negb (bool_decide (get_attribute position_mark "Name" = Some "AutoGrid")).

Definition translated_marks (e : Element) : list Element :=
  List.filter not_autogrid (findall e "POSITION_MARK").

(** [cs] are the cues of [position_marks], made in this order from
    [cue_index = i] on. *)
Fixpoint cues_from (i : nat) (position_marks cs : list Element) : Prop :=
  match position_marks, cs with
  | [], [] => True
  | position_mark :: rest, cue :: cs' =>
      add_cue_at i position_mark cue ∧ cues_from (S i) rest cs'
  | _, _ => False
  end.

Lemma cues_from_length i position_marks cs :
  cues_from i position_marks cs → length cs = length position_marks.
Proof.
  revert i cs. induction position_marks as [|pm rest IH]; intros i [|c cs]; simpl; try done.
  intros [_ Hrest]. f_equal. by eapply IH.
Qed.

Lemma cues_from_lookup i position_marks cs k position_mark :
  cues_from i position_marks cs → position_marks !! k = Some position_mark →
  ∃ cue, cs !! k = Some cue ∧ add_cue_at (i + k) position_mark cue.
Proof.
  revert i cs k. induction position_marks as [|pm rest IH]; intros i [|c cs] k; simpl; try done.
  intros [Hc Hrest]. destruct k as [|k]; simpl.
  - intros [= <-]. exists c. by rewrite Nat.add_0_r.
  - intros Hk. destruct (IH _ _ _ Hrest Hk) as (cue & Hcue & Hat).
    exists cue. split; [done|]. by rewrite Nat.add_succ_r.
Qed.

Lemma add_cue_adds self position_mark self' cue :
  add_cue self position_mark = Some (self', cue) →
  ∃ self1, append_children self [cue] = Some self1
           ∧ self' = with_cue_index self1 (S (cue_index self))
           ∧ tag cue = "CUE_V2".
Proof.
  unfold add_cue. intros Ha.
  destruct (sec_2_ms (SecondsStr (get_attribute position_mark "Start")))
    as [start_ms|]; [|done]. simpl in Ha.
  match type of Ha with (?len ≫= _) = _ => destruct len as [loop_length|] end; [|done].
  simpl in Ha. rewrite track_append_children in Ha.
  match type of Ha with (append_children _ [?c] ≫= _) = _ => set (c0 := c) in * end.
  destruct (append_children self [c0]) as [self1|] eqn:H1; [|done].
  simpl in Ha. injection Ha as <- <-.
  exists self1. split; [done|]. split.
  - f_equal. by destruct (append_children_Some _ _ _ H1) as (? & ? & ? & ? & -> & _).
  - unfold c0. destruct (_ && _); [|done]. by rewrite set_cue_color_tag.
Qed.

Lemma process_cues_loop_adds position_marks : ∀ self self',
  process_cues_loop self position_marks = Some self' →
  is_Some (track self) →
  ∃ cs self1,
    append_children self cs = Some self1
    ∧ self' = with_cue_index self1 (cue_index self + length cs)
    ∧ Forall (λ c, tag c = "CUE_V2") cs
    ∧ cues_from (cue_index self) (List.filter not_autogrid position_marks) cs.
Proof.
  induction position_marks as [|pm rest IH]; intros self self' Hp [t Ht].
  - injection Hp as <-. exists [], self. rewrite (append_children_nil _ _ Ht).
    repeat split; [|done..]. rewrite Nat.add_0_r. by destruct self.
  - simpl in Hp. unfold not_autogrid at 1. simpl.
    destruct (bool_decide (get_attribute pm "Name" = Some "AutoGrid")); simpl.
    { by apply IH. }
    destruct (add_cue self pm) as [[self1 cue]|] eqn:Hc; [|done]. simpl in Hp.
    destruct (add_cue_adds _ _ _ _ Hc) as (s1 & Hs1 & -> & Htag).
    destruct (append_children_Some _ _ _ Hs1) as (t' & Ht' & Ht1 & _).
    apply IH in Hp as (cs & s2 & Hs2 & -> & Htags & Hfrom); [|by simpl; eauto].
    simpl in Hfrom.
    exists (cue :: cs).
    unfold append_children in Hs1, Hs2 |- *. simpl in Hs2.
    rewrite Ht in Hs1 |- *. simpl in *.
    injection Hs1 as <-. simpl in Hs2. injection Hs2 as <-.
    eexists. split; [done|]. split.
    { unfold with_cue_index, with_track. simpl.
      rewrite <- app_assoc. simpl. f_equal. lia. }
    split; [by constructor|]. split; [|done]. eexists self, _. split; [done|exact Hc].
Qed.

(** *** The entry of a track *)

(** A child of the entry that is neither the tempo block nor a cue. *)
Definition plain_child (c : Element) : Prop := tag c ≠ "TEMPO" ∧ tag c ≠ "CUE_V2".

Lemma append_children_step self new1 self1 new2 self2 :
  append_children self new1 = Some self1 →
  append_children self1 new2 = Some self2 →
  append_children self (new1 ++ new2) = Some self2.
Proof. intros H1 H2. by rewrite <- (append_children_then _ _ _ _ H1). Qed.

Lemma append_children_track self new self' :
  append_children self new = Some self' → is_Some (track self').
Proof.
  intros Ha. destruct (append_children_Some _ _ _ Ha) as (? & ? & -> & _). eauto.
Qed.

Lemma add_location_adds self self' :
  add_location self = Some self' →
  ∃ new, append_children self new = Some self' ∧ Forall plain_child new.
Proof.
  unfold add_location. destruct (track_info self) as [info|]; simpl; [|done].
  rewrite track_append_children. intros Ha.
  eexists. split; [exact Ha|]. by repeat constructor.
Qed.

Lemma add_album_adds self self' :
  add_album self = Some self' → is_Some (track self) →
  ∃ new, append_children self new = Some self' ∧ Forall plain_child new.
Proof.
  unfold add_album. destruct (track_info self) as [info|]; simpl; [|done].
  destruct (String.eqb (info_album info) "").
  - intros [= <-] [t Ht]. exists []. split; [|done]. by eapply append_children_nil.
  - rewrite track_append_children. intros Ha _.
    eexists. split; [exact Ha|]. by repeat constructor.
Qed.

Lemma add_modification_info_adds self self' :
  add_modification_info self = Some self' →
  ∃ new, append_children self new = Some self' ∧ Forall plain_child new.
Proof.
  unfold add_modification_info. rewrite track_append_children. intros Ha.
  eexists. split; [exact Ha|]. by repeat constructor.
Qed.

Lemma add_info_adds self self' :
  add_info self = Some self' →
  ∃ new, append_children self new = Some self' ∧ Forall plain_child new.
Proof.
  unfold add_info. destruct (track_info self) as [info|]; simpl; [|done].
  destruct (int_of_float (info_bitrate info)) as [bitrate|]; simpl; [|done].
  rewrite track_append_children. intros Ha.
  eexists. split; [exact Ha|]. by repeat constructor.
Qed.

Lemma add_tempo_adds self info :
  track_info self = Some info →
  add_tempo self
  = append_children self
      [Elem "TEMPO" [("BPM", format_6f (info_bpm info)); ("BPM_QUALITY", "100.000000")] []].
Proof. intros Hinfo. unfold add_tempo. by rewrite Hinfo. Qed.

Lemma add_loudness_adds self self' :
  add_loudness self = Some self' →
  ∃ new, append_children self new = Some self' ∧ Forall plain_child new.
Proof.
  unfold add_loudness. rewrite track_append_children. intros Ha.
  eexists. split; [exact Ha|]. by repeat constructor.
Qed.

Lemma add_musical_key_adds self self' :
  add_musical_key self = Some self' →
  ∃ new, append_children self new = Some self' ∧ Forall plain_child new.
Proof.
  unfold add_musical_key. destruct (track_info self) as [info|]; simpl; [|done].
  rewrite track_append_children. intros Ha.
  eexists. split; [exact Ha|]. by repeat constructor.
Qed.

(** What [process_track] leaves in [self.track], and what it leaves alone:
    the entry made by [add_entry]; its children are the fixed blocks, the
    tempo block among them, then what [process_tempo] added, then the cues
    of [process_cues], numbered from [cue_index = 1]. *)
Definition track_result (self : Rekordbox2Traktor) (e : Element)
    (self' : Rekordbox2Traktor) : Prop :=
  ∃ info entry before after grid cs,
    track_info (set_track_info (reset_track self) e) = Some info
    ∧ add_entry (set_track_info (reset_track self) e) = Some entry
    ∧ track self'
      = Some (Elem (tag entry) (attrib entry)
                ((before
                    ++ Elem "TEMPO"
                         [("BPM", format_6f (info_bpm info));
                          ("BPM_QUALITY", "100.000000")] []
                    :: after)
                 ++ grid ++ cs))
    ∧ Forall plain_child (before ++ after)
    ∧ (∃ self1 self2,
          track_info self1 = Some info
          ∧ process_tempo self1 e = Some self2
          ∧ append_children self1 grid = Some self2)
    ∧ Forall (λ c, tag c = "CUE_V2") grid
    ∧ cues_from 1 (translated_marks e) cs
    ∧ Forall (λ c, tag c = "CUE_V2") cs
    ∧ tracks self' = tracks self
    ∧ track_id_map self' = track_id_map self
    ∧ root self' = root self
    ∧ track_index self' = track_index self.

Lemma process_track_result self e self' ok :
  process_track self e = Some (self', ok) → ok = true ∧ track_result self e self'.
Proof.
  unfold process_track. intros Hp.
  set (self0 := set_track_info (reset_track self) e) in *.
  destruct (add_entry self0) as [entry|] eqn:Hentry; [|done]. cbn [mbind option_bind] in Hp.
  assert (∃ info, track_info self0 = Some info) as [info Hinfo]
    by (subst self0; simpl; eauto).
  assert (children entry = []) as Hchildren.
  { unfold add_entry in Hentry. rewrite Hinfo in Hentry. by injection Hentry as <-. }
  set (s1 := with_track self0 (Some entry)) in *.
  assert (append_children s1 [] = Some s1) as H1 by (by eapply append_children_nil).
  destruct (add_location s1) as [s2|] eqn:E2; [|done]. cbn [mbind option_bind] in Hp.
  destruct (add_location_adds _ _ E2) as (n2 & A2 & P2).
  destruct (add_album s2) as [s3|] eqn:E3; [|done]. cbn [mbind option_bind] in Hp.
  destruct (add_album_adds _ _ E3) as (n3 & A3 & P3);
    [by eapply append_children_track|].
  destruct (add_modification_info s3) as [s4|] eqn:E4; [|done]. cbn [mbind option_bind] in Hp.
  destruct (add_modification_info_adds _ _ E4) as (n4 & A4 & P4).
  destruct (add_info s4) as [s5|] eqn:E5; [|done]. cbn [mbind option_bind] in Hp.
  destruct (add_info_adds _ _ E5) as (n5 & A5 & P5).
  pose proof (append_children_step _ _ _ _ _ A2 A3) as B3.
  pose proof (append_children_step _ _ _ _ _ B3 A4) as B4.
  pose proof (append_children_step _ _ _ _ _ B4 A5) as B5.
  destruct (append_children_Some _ _ _ B5) as (t1 & Ht1 & _ & I5 & _).
  destruct (add_tempo s5) as [s6|] eqn:E6; [|done]. cbn [mbind option_bind] in Hp.
  rewrite (add_tempo_adds s5 info) in E6 by (by rewrite I5).
  pose proof (append_children_step _ _ _ _ _ B5 E6) as B6.
  destruct (add_loudness s6) as [s7|] eqn:E7; [|done]. cbn [mbind option_bind] in Hp.
  destruct (add_loudness_adds _ _ E7) as (n7 & A7 & P7).
  destruct (add_musical_key s7) as [s8|] eqn:E8; [|done]. cbn [mbind option_bind] in Hp.
  destruct (add_musical_key_adds _ _ E8) as (n8 & A8 & P8).
  pose proof (append_children_step _ _ _ _ _ B6 A7) as B7.
  pose proof (append_children_step _ _ _ _ _ B7 A8) as B8.
  destruct (append_children_Some _ _ _ B8) as (_ & _ & _ & I8 & _).
  destruct (process_tempo s8 e) as [s9|] eqn:E9; [|done]. cbn [mbind option_bind] in Hp.
  destruct (process_tempo_adds _ _ _ E9) as (grid & A9 & P9).
  pose proof (append_children_step _ _ _ _ _ B8 A9) as B9.
  destruct (append_children_Some _ _ _ B9)
    as (_ & _ & _ & I9 & C9 & _).
  destruct (process_cues s9 e) as [s10|] eqn:E10; [|done]. cbn [mbind option_bind] in Hp.
  injection Hp as <- <-. split; [done|].
  destruct (process_cues_loop_adds _ _ _ E10) as (cs & s11 & A11 & -> & P11 & F11);
    [by eapply append_children_track|].
  pose proof (append_children_step _ _ _ _ _ B9 A11) as B11.
  destruct (append_children_Some _ _ _ B11)
    as (t0 & Ht0 & Ht11 & _ & _ & _ & T11 & M11 & X11 & R11).
  simpl in Ht0. injection Ht0 as <-. rewrite Hchildren in Ht11. simpl in Ht11.
  rewrite C9 in F11. simpl in F11.
  exists info, entry, (n2 ++ n3 ++ n4 ++ n5), (n7 ++ n8), grid, cs.
  split; [done|]. split; [done|]. split.
  { simpl. rewrite Ht11. do 2 f_equal. rewrite <- !app_assoc. simpl. by rewrite <- !app_assoc. }
  split; [rewrite !Forall_app in *; tauto|].
  split; [exists s8, s9; by rewrite I8|].
  repeat split; done.
Qed.

(** *** What a cue says *)

(** The loop length of the cue for a position mark: end minus start, both
    in milliseconds, when the mark has an [End], and 0 when it has none. *)
Definition loop_length_of (position_mark cue : Element) : Prop :=
  ∃ start_ms,
    sec_2_ms (SecondsStr (get_attribute position_mark "Start")) = Some start_ms
    ∧ if truthy (get_attribute position_mark "End") then
        ∃ end_sec,
          float_of_str (or_str (get_attribute position_mark "End") "") = Some end_sec
          ∧ attrib_get (attrib cue) "LEN"
            = Some (format_number_6f
                      (number_sub (Float (float_mul end_sec (float_of_int 1000%Z)))
                         start_ms))
      else attrib_get (attrib cue) "LEN" = Some "0.000000".

(** The hot-cue slot of the cue for a position mark, made when
    [cue_index] is [i]: the mark's own [Num], or [i] when the mark has no
    [Num] or the sentinel. *)
Definition hotcue_of (i : nat) (position_mark cue : Element) : Prop :=
  (∀ n, get_attribute position_mark "Num" = Some n → n ≠ "" → n ≠ "-1" →
        attrib_get (attrib cue) "HOTCUE" = Some n)
  ∧ (get_attribute position_mark "Num" = None
     ∨ get_attribute position_mark "Num" = Some ""
     ∨ get_attribute position_mark "Num" = Some "-1" →
     attrib_get (attrib cue) "HOTCUE" = Some (str_nat i)).

Lemma hotcue_slot_explicit n i : n ≠ "" → n ≠ "-1" → hotcue_slot (Some n) i = n.
Proof.
  intros H1 H2. unfold hotcue_slot. simpl.
  apply String.eqb_neq in H1 as ->. by apply String.eqb_neq in H2 as ->.
Qed.

Lemma hotcue_slot_sequential num i :
  num = None ∨ num = Some "" ∨ num = Some "-1" → hotcue_slot num i = str_nat i.
Proof. by intros [->|[->| ->]]. Qed.

Lemma add_cue_attribute self position_mark self' cue :
  add_cue self position_mark = Some (self', cue) →
  ∃ start_ms loop_length,
    sec_2_ms (SecondsStr (get_attribute position_mark "Start")) = Some start_ms
    ∧ (if truthy (get_attribute position_mark "End") then
         end_ms ← sec_2_ms (SecondsStr (get_attribute position_mark "End"));
         Some (number_sub end_ms start_ms)
       else Some (Int 0%Z)) = Some loop_length
    ∧ attrib_get (attrib cue) "LEN" = Some (format_number_6f loop_length)
    ∧ attrib_get (attrib cue) "HOTCUE"
      = Some (hotcue_slot (get_attribute position_mark "Num") (cue_index self)).
Proof.
  unfold add_cue. intros Ha.
  destruct (sec_2_ms (SecondsStr (get_attribute position_mark "Start")))
    as [start_ms|]; [|done]. cbn [mbind option_bind] in Ha.
  match type of Ha with (?len ≫= _) = _ => destruct len as [loop_length|] eqn:Hlen end;
    [|done].
  cbn [mbind option_bind] in Ha.
  match type of Ha with (track_append _ ?c ≫= _) = _ => set (c0 := c) in * end.
  destruct (track_append self c0) as [self1|]; [|done].
  cbn [mbind option_bind] in Ha. injection Ha as <- <-.
  exists start_ms, loop_length. split; [done|]. split; [done|].
  unfold c0. destruct (_ && _).
  - by rewrite !set_cue_color_attrib.
  - done.
Qed.

Lemma add_cue_at_loop_length i position_mark cue :
  add_cue_at i position_mark cue → loop_length_of position_mark cue.
Proof.
  intros (self & self' & _ & Ha).
  destruct (add_cue_attribute _ _ _ _ Ha) as (start_ms & len & Hs & Hlen & HLEN & _).
  exists start_ms. split; [done|].
  destruct (truthy (get_attribute position_mark "End")) eqn:Hend.
  - unfold sec_2_ms in Hlen. rewrite Hend in Hlen.
    destruct (float_of_str (or_str (get_attribute position_mark "End") ""))
      as [end_sec|]; [|done].
    simpl in Hlen. injection Hlen as <-. by exists end_sec.
  - injection Hlen as <-. rewrite HLEN. simpl. by rewrite format_6f_0.
Qed.

Lemma add_cue_at_hotcue i position_mark cue :
  add_cue_at i position_mark cue → hotcue_of i position_mark cue.
Proof.
  intros (self & self' & <- & Ha).
  destruct (add_cue_attribute _ _ _ _ Ha) as (_ & _ & _ & _ & _ & Hslot).
  split.
  - intros n Hn H1 H2. by rewrite Hslot, Hn, hotcue_slot_explicit.
  - intros Hn. by rewrite Hslot, hotcue_slot_sequential.
Qed.

(** A position mark whose [Start] and [End] can be read: [float] accepts
    each of them, or it is left out. *)
Definition readable_mark (position_mark : Element) : Prop :=
  is_Some (sec_2_ms (SecondsStr (get_attribute position_mark "Start")))
  ∧ is_Some (if truthy (get_attribute position_mark "End")
             then sec_2_ms (SecondsStr (get_attribute position_mark "End"))
             else Some (Int 0%Z)).

(** [add_cue] returns on a readable mark, and only on one. *)
Lemma add_cue_returns self position_mark :
  is_Some (track self) →
  readable_mark position_mark ↔ is_Some (add_cue self position_mark).
Proof.
  intros [t Ht]. unfold readable_mark, add_cue, track_append. rewrite Ht.
  destruct (sec_2_ms (SecondsStr (get_attribute position_mark "Start")))
    as [start_ms|]; cbn [mbind option_bind].
  2:{ split; [by intros [[? [=]] _]|by intros [? [=]]]. }
  destruct (truthy (get_attribute position_mark "End")).
  - destruct (sec_2_ms (SecondsStr (get_attribute position_mark "End")))
      as [end_ms|]; cbn [mbind option_bind].
    + split; [by eauto|]. intros _. split; by eauto.
    + split; [by intros [_ [? [=]]]|by intros [? [=]]].
  - cbn [mbind option_bind]. split; [by eauto|]. intros _. split; by eauto.
Qed.

(** [process_cues] returns when every mark it translates is readable. *)
Lemma process_cues_loop_returns position_marks : ∀ self,
  is_Some (track self) →
  Forall readable_mark (List.filter not_autogrid position_marks) →
  is_Some (process_cues_loop self position_marks).
Proof.
  induction position_marks as [|pm rest IH]; intros self Ht Hall; [by simpl; eauto|].
  cbn [process_cues_loop List.filter] in *. unfold not_autogrid at 1 in Hall.
  destruct (bool_decide (get_attribute pm "Name" = Some "AutoGrid")); simpl in Hall.
  { by apply IH. }
  apply Forall_cons in Hall as [Hpm Hrest].
  apply (add_cue_returns self pm Ht) in Hpm as [[self1 cue] Hc].
  rewrite Hc. cbn [mbind option_bind]. apply IH; [|done].
  destruct (add_cue_adds _ _ _ _ Hc) as (s1 & Hs1 & -> & _).
  simpl. by eapply append_children_track.
Qed.

(** *** The tempo block *)

Lemma safe_float_default e :
  truthy (get_attribute e "AverageBpm") = false
  ∨ float_of_str (or_str (get_attribute e "AverageBpm") "") = None →
  safe_float (safe_get_attr e "AverageBpm" "120.0") (float_of_int 120%Z)
  = float_of_int 120%Z.
Proof.
  unfold safe_float, safe_get_attr, truthy, or_str.
  destruct (get_attribute e "AverageBpm") as [s|].
  - destruct (String.eqb s "") eqn:Es; simpl.
    + intros _. by rewrite float_of_str_120.
    + intros [?|Hnone]; [done|]. by rewrite Es, Hnone.
  - intros _. simpl. by rewrite float_of_str_120.
Qed.

Lemma with_tag_tempo_plain l : Forall plain_child l → with_tag "TEMPO" l = [].
Proof. intros Hl. apply with_tag_none. eapply Forall_impl; [done|]. by intros c [? _]. Qed.

Lemma with_tag_tempo_cues l : Forall (λ c, tag c = "CUE_V2") l → with_tag "TEMPO" l = [].
Proof. intros Hl. apply with_tag_none. eapply Forall_impl; [done|]. by intros c ->. Qed.

(** C7. A track whose [AverageBpm] is empty (or missing), or is not read as
    a number by [float], gets the tempo 120.0: [set_track_info] (a total
    function: nothing is raised) stores 120.0, [add_tempo] adds a tempo
    block with BPM "120.000000", and that block is the only tempo block of
    the entry that [process_track] leaves. *)
Theorem default_tempo_is_120 self e :
  truthy (get_attribute e "AverageBpm") = false
  ∨ float_of_str (or_str (get_attribute e "AverageBpm") "") = None →
  info_bpm <$> track_info (set_track_info self e) = Some (float_of_int 120%Z)
  ∧ (∀ entry,
       add_tempo (with_track (set_track_info self e) (Some entry))
       = Some (with_track (set_track_info self e)
                 (Some (SubElement entry
                          (Elem "TEMPO"
                             [("BPM", "120.000000"); ("BPM_QUALITY", "100.000000")] [])))))
  ∧ (∀ self' ok,
       process_track self e = Some (self', ok) →
       ∃ entry,
         track self' = Some entry
         ∧ findall entry "TEMPO"
           = [Elem "TEMPO" [("BPM", "120.000000"); ("BPM_QUALITY", "100.000000")] []]).
Proof.
  intros Hbpm. pose proof (safe_float_default e Hbpm) as Hdefault.
  split; [|split].
  - simpl. by rewrite Hdefault.
  - intros entry. unfold add_tempo. simpl. rewrite Hdefault.
    by rewrite format_6f_120.
  - intros self' ok Hp.
    destruct (process_track_result _ _ _ _ Hp)
      as (_ & info & entry & before & after & grid & cs
          & Hinfo & _ & Htrack & Hplain & _ & Hgrid & _ & Hcs & _).
    simpl in Hinfo. injection Hinfo as <-. simpl in Htrack.
    rewrite Hdefault, format_6f_120 in Htrack.
    eexists. split; [exact Htrack|].
    apply Forall_app in Hplain as [Hbefore Hafter].
    unfold findall. simpl. rewrite !with_tag_app. simpl.
    rewrite (with_tag_tempo_plain _ Hbefore), (with_tag_tempo_plain _ Hafter).
    by rewrite (with_tag_tempo_cues _ Hgrid), (with_tag_tempo_cues _ Hcs).
Qed.

(** *** The beat grid of a track with several markers *)

(** C6 (amended). A track with N ≥ 2 [TEMPO] nodes, each of which
    [tempo_marker] reads as a start time and a tempo ([Inizio] and [Bpm]
    are numbers, or are left out): [process_tempo] returns, and what it
    adds to the entry is, in this order, a beat marker for the first node
    flagged auto-grid, the grid anchor at the same start, and a plain beat
    marker for each later node in source order.  So there are exactly N
    beat markers, only the first is flagged auto-grid, and there is one
    grid anchor, paired with the first. *)
Theorem process_tempo_several_markers self e t markers :
  track self = Some t →
  2 ≤ length (findall e "TEMPO") →
  Forall2 (λ tempo m, tempo_marker self tempo = Some m) (findall e "TEMPO") markers →
  ∃ self' first rest,
    markers = first :: rest
    ∧ process_tempo self e = Some self'
    ∧ track self'
      = Some (Elem (tag t) (attrib t)
                (children t
                   ++ beatmarker_cue first.1 first.2 true
                   :: autogrid_cue first.1
                   :: ((λ m, beatmarker_cue m.1 m.2 false) <$> rest)))
    ∧ length (List.filter is_beatmarker (grid_cues markers))
      = length (findall e "TEMPO")
    ∧ List.filter is_autogrid (List.filter is_beatmarker (grid_cues markers))
      = [beatmarker_cue first.1 first.2 true]
    ∧ List.filter is_grid_anchor (grid_cues markers) = [autogrid_cue first.1].
Proof.
  intros Ht HN Hall.
  pose proof (Forall2_length _ _ _ Hall) as Hlen.
  destruct markers as [|first rest]; [simpl in Hlen; lia|].
  assert (process_tempo self e = process_tempo_loop self 0 (findall e "TEMPO")) as Hloop.
  { unfold process_tempo.
    destruct (findall e "TEMPO") as [|? [|? ?]]; simpl in HN; [lia|lia|done]. }
  rewrite (process_tempo_loop_adds _ self 0 t _ Ht Hall), loop_cues_grid_cues in Hloop.
  unfold append_children in Hloop. rewrite Ht in Hloop. simpl in Hloop.
  eexists _, first, rest. split; [done|]. split; [exact Hloop|]. split; [done|].
  split; [|split].
  - rewrite grid_cues_beatmarkers. simpl. rewrite length_fmap.
    simpl in Hlen. lia.
  - rewrite grid_cues_beatmarkers. cbn [List.filter].
    replace (is_autogrid (beatmarker_cue first.1 first.2 true)) with true by done.
    by rewrite filter_autogrid_later.
  - cbn [grid_cues List.filter].
    replace (is_grid_anchor (beatmarker_cue first.1 first.2 true)) with false by done.
    replace (is_grid_anchor (autogrid_cue first.1)) with true by done.
    by rewrite filter_anchor_later.
Qed.

(** *** Cues of the position marks *)

(** C8. [process_cues] adds one cue for each position mark that is not
    named "AutoGrid", in source order, and none for a mark named
    "AutoGrid".  The [LEN] of each cue is the end time minus the start time
    of its mark, both in milliseconds, when the mark has an [End], and
    "0.000000" when it has none. *)
Theorem process_cues_loop_length self e self' t :
  track self = Some t →
  process_cues self e = Some self' →
  ∃ cs,
    track self' = Some (Elem (tag t) (attrib t) (children t ++ cs))
    ∧ length cs = length (translated_marks e)
    ∧ ∀ k position_mark,
        translated_marks e !! k = Some position_mark →
        get_attribute position_mark "Name" ≠ Some "AutoGrid"
        ∧ ∃ cue, cs !! k = Some cue ∧ loop_length_of position_mark cue.
Proof.
  intros Ht Hp. unfold process_cues in Hp.
  destruct (process_cues_loop_adds _ _ _ Hp) as (cs & self1 & Ha & -> & _ & Hfrom);
    [by eauto|].
  exists cs. split.
  { destruct (append_children_Some _ _ _ Ha) as (t' & Ht' & Htrack & _).
    rewrite Ht in Ht'. injection Ht' as <-. exact Htrack. }
  split; [by eapply cues_from_length|].
  intros k pm Hk. split.
  - apply list_elem_of_lookup_2, list_elem_of_In, filter_In in Hk as [_ Hna].
    unfold not_autogrid in Hna. apply negb_true_iff, bool_decide_eq_false in Hna.
    exact Hna.
  - destruct (cues_from_lookup _ _ _ _ _ Hfrom Hk) as (cue & Hcue & Hat).
    exists cue. split; [done|]. by eapply add_cue_at_loop_length.
Qed.

(** C9. In the entry that [process_track] leaves, the cues of the position
    marks come last, one for each mark not named "AutoGrid".  The cue of
    an [add_cue] call takes the [Num] of its mark as hot-cue slot when the
    mark has one and it is not "-1"; otherwise the slot is the index of the
    call, counted from 1 for each track. *)
Theorem process_track_hotcue_slots self e self' ok :
  process_track self e = Some (self', ok) →
  ∃ entry others cs,
    track self' = Some entry
    ∧ children entry = others ++ cs
    ∧ length cs = length (translated_marks e)
    ∧ ∀ k position_mark,
        translated_marks e !! k = Some position_mark →
        ∃ cue, cs !! k = Some cue ∧ hotcue_of (1 + k) position_mark cue.
Proof.
  intros Hp.
  destruct (process_track_result _ _ _ _ Hp)
    as (_ & info & entry & before & after & grid & cs
        & _ & _ & Htrack & _ & _ & _ & Hfrom & _).
  eexists _, _, cs. split; [exact Htrack|]. split.
  { simpl. by rewrite (app_assoc _ grid cs). }
  split; [by eapply cues_from_length|].
  intros k pm Hk.
  destruct (cues_from_lookup _ _ _ _ _ Hfrom Hk) as (cue & Hcue & Hat).
  exists cue. split; [done|]. by eapply add_cue_at_hotcue.
Qed.

End Track.






(** ** Playlists *)

Section Playlists.
Context {float_impl : PyFloat} {utils_impl : Utils} {uuid4_impl : Uuid4}.

(** The path a track reference resolves to: [self.track_id_map[track_id]]
    when [track_id] is true and in the table. *)
Definition resolve (track_id_map : gmap string string) (track_elem : Element)
  : option string :=
  let track_id := get_attribute track_elem "Key" in
  if truthy track_id then track_id_map !! or_str track_id "" else None.

(** The [ENTRY] of a resolved reference, with its [PRIMARYKEY]. *)
Definition playlist_entry (file_path : string) : Element :=
  Elem "ENTRY" [] [Elem "PRIMARYKEY" [("TYPE", "TRACK"); ("KEY", file_path)] []].

Lemma playlist_entries_adds track_id_map track_elements : ∀ playlist,
  playlist_entries track_id_map track_elements playlist
  = Elem (tag playlist) (attrib playlist)
      (children playlist ++ (playlist_entry <$> omap (resolve track_id_map) track_elements)).
Proof.
  induction track_elements as [|te rest IH]; intros playlist; simpl.
  - rewrite app_nil_r. by destruct playlist.
  - unfold resolve at 1. destruct (truthy (get_attribute te "Key")).
    + destruct (track_id_map !! or_str (get_attribute te "Key") "") as [path|]; [|done].
      rewrite IH. simpl. by rewrite <- app_assoc.
    + apply IH.
Qed.

Lemma length_resolved track_id_map track_elements :
  length (omap (resolve track_id_map) track_elements) ≤ length track_elements.
Proof.
  induction track_elements as [|te rest IH]; csimpl; [done|].
  destruct (resolve track_id_map te); csimpl; lia.
Qed.

Lemma length_resolved_lt track_id_map track_elements track_elem :
  track_elem ∈ track_elements → resolve track_id_map track_elem = None →
  length (omap (resolve track_id_map) track_elements) < length track_elements.
Proof.
  induction track_elements as [|te rest IH]; [by intros ?%elem_of_nil|].
  intros [->|Hin]%elem_of_cons Hnone; csimpl.
  - rewrite Hnone. pose proof (length_resolved track_id_map rest). lia.
  - specialize (IH Hin Hnone). destruct (resolve track_id_map te); csimpl; lia.
Qed.

Lemma resolved_none track_id_map track_elements :
  Forall (λ te, resolve track_id_map te = None) track_elements →
  omap (resolve track_id_map) track_elements = [].
Proof. induction 1 as [|te rest Hte _ IH]; csimpl; [done|]. by rewrite Hte. Qed.

(** The loop of a folder node is [process_nodes] over
    [rekordbox_node.findall("NODE")]. *)
Lemma process_playlist_node_unfold rekordbox_node self parent_subnodes :
  process_playlist_node rekordbox_node self parent_subnodes
  = let node_type := get_attribute rekordbox_node "Type" in
    let node_name := get_attribute rekordbox_node "Name" in
    if negb (truthy node_name) then (self, parent_subnodes)
    else if bool_decide (node_type = Some "0") then
      let '(self, subnodes, child_count) :=
        process_nodes (findall rekordbox_node "NODE") (self, Elem "SUBNODES" [] [], 0) in
      let subnodes := set subnodes "COUNT" (str_nat child_count) in
      let folder_node :=
        Elem "NODE" [("TYPE", "FOLDER"); ("NAME", or_str node_name "")] [subnodes] in
      (self, SubElement parent_subnodes folder_node)
    else if bool_decide (node_type = Some "1") then
      let track_elements := findall rekordbox_node "TRACK" in
      match track_elements with
      | [] => (self, parent_subnodes)
      | _ =>
          let playlist :=
            Elem "PLAYLIST"
              [("ENTRIES", str_nat (length track_elements)); ("TYPE", "LIST");
               ("UUID", uuid4_hex (uuid_calls self))] [] in
          let playlist := playlist_entries (track_id_map self) track_elements playlist in
          let playlist_node :=
            Elem "NODE" [("TYPE", "PLAYLIST"); ("NAME", or_str node_name "")] [playlist] in
          (with_uuid_calls self (S (uuid_calls self)),
           SubElement parent_subnodes playlist_node)
      end
    else (self, parent_subnodes).
Proof.
  destruct rekordbox_node as [t a cs]. cbn zeta.
  unfold process_playlist_node at 1. fold process_playlist_node.
  cbn zeta.
  destruct (negb _); [done|].
  destruct (bool_decide (get_attribute (Elem t a cs) "Type" = Some "0")); [|done].
  unfold findall. cbn [children].
  generalize (self, Elem "SUBNODES" [] [], 0).
  induction cs as [|c cs IH]; intros acc; [done|].
  cbn [with_tag]. destruct (String.eqb (tag c) "NODE").
  - destruct acc as [[s sn] n]. cbn [process_nodes].
    destruct (process_playlist_node c s sn) as [s' sn']. apply IH.
  - apply IH.
Qed.

(** A node either leaves the parent as it is or adds one child to it. *)
Lemma process_playlist_node_parent rekordbox_node self parent_subnodes :
  ∃ new,
    (process_playlist_node rekordbox_node self parent_subnodes).2
    = Elem (tag parent_subnodes) (attrib parent_subnodes)
        (children parent_subnodes ++ new)
    ∧ length new ≤ 1.
Proof.
  rewrite process_playlist_node_unfold. cbn zeta.
  assert (∃ new : list Element,
            parent_subnodes
            = Elem (tag parent_subnodes) (attrib parent_subnodes)
                (children parent_subnodes ++ new) ∧ length new ≤ 1) as Hsame.
  { exists []. rewrite app_nil_r. split; [by destruct parent_subnodes|simpl; lia]. }
  destruct (negb _); [done|].
  destruct (bool_decide (_ = Some "0")).
  { destruct (process_nodes _ _) as [[s sn] n]. simpl. eexists [_]. split; [done|simpl; lia]. }
  destruct (bool_decide (_ = Some "1")); [|done].
  destruct (findall rekordbox_node "TRACK"); [done|].
  simpl. eexists [_]. split; [done|simpl; lia].
Qed.

(** The loop over child nodes counts every node it is given, and only adds
    children to [subnodes]. *)
Lemma process_nodes_count nodes : ∀ self subnodes child_count,
  ∃ self' new,
    process_nodes nodes (self, subnodes, child_count)
    = (self', Elem (tag subnodes) (attrib subnodes) (children subnodes ++ new),
       child_count + length nodes)
    ∧ length new ≤ length nodes.
Proof.
  induction nodes as [|node rest IH]; intros self subnodes child_count.
  - exists self, []. simpl. rewrite app_nil_r, Nat.add_0_r.
    split; [by destruct subnodes|lia].
  - cbn [process_nodes].
    destruct (process_playlist_node_parent node self subnodes) as (new1 & Hnew1 & Hlen1).
    destruct (process_playlist_node node self subnodes) as [self1 subnodes1].
    simpl in Hnew1. subst subnodes1.
    destruct (IH self1 (Elem (tag subnodes) (attrib subnodes) (children subnodes ++ new1))
                (S child_count)) as (self' & new2 & -> & Hlen2).
    exists self', (new1 ++ new2). simpl. rewrite <- app_assoc, length_app.
    split; [f_equal; lia|lia].
Qed.

(** A source playlist node without a track reference. *)
Definition empty_playlist (rekordbox_node : Element) : Prop :=
  get_attribute rekordbox_node "Type" = Some "1" ∧ findall rekordbox_node "TRACK" = [].

Lemma process_playlist_node_empty rekordbox_node self parent_subnodes :
  empty_playlist rekordbox_node →
  process_playlist_node rekordbox_node self parent_subnodes = (self, parent_subnodes).
Proof.
  intros [Htype Htracks]. rewrite process_playlist_node_unfold. cbn zeta.
  rewrite Htype, Htracks. by destruct (negb _).
Qed.

Lemma process_nodes_empty nodes : ∀ self subnodes child_count,
  Forall empty_playlist nodes →
  process_nodes nodes (self, subnodes, child_count)
  = (self, subnodes, child_count + length nodes).
Proof.
  induction nodes as [|node rest IH]; intros self subnodes child_count Hall.
  - simpl. by rewrite Nat.add_0_r.
  - apply Forall_cons in Hall as [Hnode Hrest]. cbn [process_nodes].
    rewrite (process_playlist_node_empty _ _ _ Hnode), (IH _ _ _ Hrest).
    simpl. f_equal. lia.
Qed.

(** C3. What the code does, where the claim wants a dropped child left out
    of the count: a folder node with a name is translated to a folder whose
    [SUBNODES] carries as [COUNT] the number of child nodes of the source
    folder, whether or not a child led to a node of its own.  It has at
    most that many children; a child that is a playlist without a track
    reference adds none, so a folder with only such children is emitted
    with no child and with their number, not 0, as [COUNT]. *)
Theorem folder_count_is_source_children rekordbox_node self parent_subnodes name :
  get_attribute rekordbox_node "Name" = Some name → name ≠ "" →
  get_attribute rekordbox_node "Type" = Some "0" →
  ∃ self' made,
    process_playlist_node rekordbox_node self parent_subnodes
    = (self',
       SubElement parent_subnodes
         (Elem "NODE" [("TYPE", "FOLDER"); ("NAME", name)]
            [Elem "SUBNODES"
               [("COUNT", str_nat (length (findall rekordbox_node "NODE")))] made]))
    ∧ length made ≤ length (findall rekordbox_node "NODE")
    ∧ (Forall empty_playlist (findall rekordbox_node "NODE") → made = []).
Proof.
  intros Hname Hne Htype. rewrite process_playlist_node_unfold. cbn zeta.
  rewrite Hname, Htype. simpl. apply String.eqb_neq in Hne as ->. simpl.
  destruct (process_nodes_count (findall rekordbox_node "NODE") self
              (Elem "SUBNODES" [] []) 0) as (self' & made & Hnodes & Hlen).
  rewrite Hnodes. simpl. exists self', made. split; [done|]. split; [done|].
  intros Hall. rewrite (process_nodes_empty _ _ _ _ Hall) in Hnodes.
  injection Hnodes as _ Hmade. by symmetry.
Qed.

(** The destination node of a source playlist node with a name and at
    least one track reference. *)
Lemma process_playlist_node_playlist rekordbox_node self parent_subnodes name :
  get_attribute rekordbox_node "Name" = Some name → name ≠ "" →
  get_attribute rekordbox_node "Type" = Some "1" →
  findall rekordbox_node "TRACK" ≠ [] →
  process_playlist_node rekordbox_node self parent_subnodes
  = (with_uuid_calls self (S (uuid_calls self)),
     SubElement parent_subnodes
       (Elem "NODE" [("TYPE", "PLAYLIST"); ("NAME", name)]
          [Elem "PLAYLIST"
             [("ENTRIES", str_nat (length (findall rekordbox_node "TRACK")));
              ("TYPE", "LIST"); ("UUID", uuid4_hex (uuid_calls self))]
             (playlist_entry
                <$> omap (resolve (track_id_map self)) (findall rekordbox_node "TRACK"))])).
Proof.
  intros Hname Hne Htype Htracks. rewrite process_playlist_node_unfold. cbn zeta.
  rewrite Hname, Htype. simpl. apply String.eqb_neq in Hne as ->. simpl.
  destruct (findall rekordbox_node "TRACK") as [|te rest] eqn:He; [done|].
  by rewrite playlist_entries_adds.
Qed.

(** C4 (amended). A source playlist node with a name and at least one
    track reference always gets a destination playlist node, and nothing
    is raised ([process_playlist_node] is a total function).  The node
    holds an entry for each reference that resolves, in source order, and
    nothing for a reference that does not; when no reference resolves the
    node is still created, with no entry. *)
Theorem playlist_keeps_resolved_references rekordbox_node self parent_subnodes name :
  get_attribute rekordbox_node "Name" = Some name → name ≠ "" →
  get_attribute rekordbox_node "Type" = Some "1" →
  findall rekordbox_node "TRACK" ≠ [] →
  ∃ self' playlist_attrib entries,
    process_playlist_node rekordbox_node self parent_subnodes
    = (self',
       SubElement parent_subnodes
         (Elem "NODE" [("TYPE", "PLAYLIST"); ("NAME", name)]
            [Elem "PLAYLIST" playlist_attrib entries]))
    ∧ entries
      = playlist_entry
          <$> omap (resolve (track_id_map self)) (findall rekordbox_node "TRACK")
    ∧ (Forall (λ track_elem, resolve (track_id_map self) track_elem = None)
         (findall rekordbox_node "TRACK") → entries = []).
Proof.
  intros Hname Hne Htype Htracks.
  rewrite (process_playlist_node_playlist _ _ _ name) by done.
  eexists _, _, _. split; [done|]. split; [done|].
  intros Hall. by rewrite resolved_none.
Qed.

(** C10. In the destination node of a source playlist node, [ENTRIES] is
    the number of track references of the source playlist.  The number of
    entries in the node is the number of references that resolve: it is at
    most [ENTRIES], and less when some reference does not resolve. *)
Theorem playlist_entries_counts_references rekordbox_node self parent_subnodes name :
  get_attribute rekordbox_node "Name" = Some name → name ≠ "" →
  get_attribute rekordbox_node "Type" = Some "1" →
  findall rekordbox_node "TRACK" ≠ [] →
  ∃ self' playlist,
    process_playlist_node rekordbox_node self parent_subnodes
    = (self',
       SubElement parent_subnodes
         (Elem "NODE" [("TYPE", "PLAYLIST"); ("NAME", name)] [playlist]))
    ∧ tag playlist = "PLAYLIST"
    ∧ attrib_get (attrib playlist) "ENTRIES"
      = Some (str_nat (length (findall rekordbox_node "TRACK")))
    ∧ findall playlist "ENTRY" = children playlist
    ∧ length (children playlist) ≤ length (findall rekordbox_node "TRACK")
    ∧ (∀ track_elem,
         track_elem ∈ findall rekordbox_node "TRACK" →
         resolve (track_id_map self) track_elem = None →
         length (children playlist) < length (findall rekordbox_node "TRACK")).
Proof.
  intros Hname Hne Htype Htracks.
  rewrite (process_playlist_node_playlist _ _ _ name) by done.
  eexists _, _. split; [done|]. split; [done|]. split; [done|]. simpl.
  split; [|split].
  - unfold findall. simpl. apply with_tag_all, Forall_fmap. by apply Forall_true.
  - rewrite length_fmap. apply length_resolved.
  - intros te Hin Hnone. rewrite length_fmap. by eapply length_resolved_lt.
Qed.

End Playlists.


(** ** The collection and the lookup table *)

Section Collection.
Context {float_impl : PyFloat} {utils_impl : Utils} {uuid4_impl : Uuid4}.

(** The source tracks with [TrackID] equal to [track_id], in source order. *)
Definition tracks_with_id (track_id : string) (entries : list Element) : list Element :=
  List.filter (λ e, bool_decide (get_attribute e "TrackID" = Some track_id)) entries.

(** [self.track_id_map[track_id] = file_path] under [if track_id]. *)
Definition remember (track_id_map : gmap string string) (e : Element)
  : gmap string string :=
  let track_id := get_attribute e "TrackID" in
  if truthy track_id then <[or_str track_id "" := file_path e]> track_id_map
  else track_id_map.

Lemma remember_all_lookup entries : ∀ track_id_map track_id,
  track_id ≠ "" →
  foldl remember track_id_map entries !! track_id
  = match last (tracks_with_id track_id entries) with
    | Some e => Some (file_path e)
    | None => track_id_map !! track_id
    end.
Proof.
  induction entries as [|e rest IH]; intros m k Hk; [done|].
  cbn [foldl]. rewrite IH by done. cbn [tracks_with_id List.filter].
  fold (tracks_with_id k rest).
  destruct (bool_decide (get_attribute e "TrackID" = Some k)) eqn:Hid.
  - apply bool_decide_eq_true in Hid. rewrite last_cons.
    destruct (last (tracks_with_id k rest)); [done|].
    unfold remember. rewrite Hid. simpl.
    apply String.eqb_neq in Hk as ->. simpl. by rewrite lookup_insert_eq.
  - apply bool_decide_eq_false in Hid.
    destruct (last (tracks_with_id k rest)); [done|].
    unfold remember. destruct (truthy (get_attribute e "TrackID")) eqn:Ht; [|done].
    destruct (truthy_Some _ Ht) as (s & Hs & _ & Hor).
    rewrite Hor. apply lookup_insert_ne. congruence.
Qed.

Lemma register_track_fields self e :
  track_id_map (register_track self e (get_attribute e "TrackID"))
  = remember (track_id_map self) e
  ∧ tracks (register_track self e (get_attribute e "TrackID"))
    = tracks self ++ [file_path e].
Proof. done. Qed.

(** The track loop: one entry more in the collection for each source
    track, and the table and the track list grow as [remember] says. *)
Lemma process_entries_result entries : ∀ self collection self' collection',
  process_entries self collection entries = Some (self', collection') →
  track_id_map self' = foldl remember (track_id_map self) entries
  ∧ tracks self' = tracks self ++ (file_path <$> entries)
  ∧ root self' = root self
  ∧ ∃ new,
      collection'
      = Elem (tag collection) (attrib collection) (children collection ++ new)
      ∧ length new = length entries
      ∧ Forall (λ entry, tag entry = "ENTRY") new.
Proof.
  induction entries as [|e rest IH]; intros self collection self' collection' Hp.
  - injection Hp as <- <-. simpl. rewrite !app_nil_r.
    repeat split. exists []. rewrite app_nil_r. by destruct collection.
  - cbn [process_entries] in Hp.
    destruct (process_track self e) as [[self1 ok]|] eqn:Ht; [|done].
    cbn [mbind option_bind] in Hp.
    destruct (process_track_result _ _ _ _ Ht)
      as (-> & info & entry & before & after & grid & cs
          & Hinfo & Hentry & Htrack & _ & _ & _ & _ & _ & Htracks & Hmap & Hroot & _).
    rewrite Htrack in Hp. cbn [mbind option_bind] in Hp.
    apply IH in Hp as (Hmap' & Htracks' & Hroot' & new & -> & Hlen & Htags).
    destruct (register_track_fields self1 e) as [Hm Ht'].
    rewrite Hmap', Htracks', Hroot', Hm, Ht', Hmap, Htracks. simpl.
    rewrite <- app_assoc. repeat split; [done|].
    eexists (_ :: new). simpl. rewrite <- app_assoc. split; [done|].
    split; [by rewrite Hlen|]. constructor; [|done].
    simpl. unfold add_entry in Hentry. rewrite Hinfo in Hentry.
    by injection Hentry as <-.
Qed.

(** C2 (amended). After the track loop, started on an empty table, the
    collection has one more entry for each source track, and the table has
    an entry under the [TrackID] of every source track that has one: it
    holds the path of the last source track with that [TrackID].  A track
    without [TrackID] gets its collection entry and no table entry. *)
Theorem identified_tracks_are_in_the_table self collection entries self' collection' :
  track_id_map self = ∅ →
  process_entries self collection entries = Some (self', collection') →
  length (children collection') = length (children collection) + length entries
  ∧ (∀ e track_id,
       e ∈ entries → get_attribute e "TrackID" = Some track_id → track_id ≠ "" →
       ∃ e', last (tracks_with_id track_id entries) = Some e'
             ∧ track_id_map self' !! track_id = Some (file_path e'))
  ∧ (∀ track_id,
       is_Some (track_id_map self' !! track_id) →
       ∃ e, e ∈ entries ∧ get_attribute e "TrackID" = Some track_id).
Proof.
  intros Hempty Hp.
  destruct (process_entries_result _ _ _ _ _ Hp) as (Hmap & _ & _ & new & -> & Hlen & _).
  split; [simpl; rewrite length_app; lia|]. split.
  - intros e k Hin Hid Hk. rewrite Hmap, remember_all_lookup by done.
    assert (e ∈ tracks_with_id k entries) as Hmem.
    { apply list_elem_of_In, filter_In. split; [by apply list_elem_of_In|].
      by apply bool_decide_eq_true. }
    destruct (last (tracks_with_id k entries)) as [e'|] eqn:Hlast; [by eauto|].
    apply last_None in Hlast. rewrite Hlast in Hmem. by apply elem_of_nil in Hmem.
  - intros k [p Hp']. rewrite Hmap in Hp'.
    assert (∀ l m, foldl remember m l !! k = Some p → m !! k = None →
                   ∃ e, e ∈ l ∧ get_attribute e "TrackID" = Some k) as Hfind.
    { induction l as [|x l IH]; intros m Hl Hm; simpl in Hl; [congruence|].
      destruct (remember m x !! k) as [q|] eqn:Hq.
      - exists x. split; [by left|].
        unfold remember in Hq. destruct (truthy (get_attribute x "TrackID")) eqn:Ht;
          [|congruence].
        destruct (truthy_Some _ Ht) as (s & Hs & _ & Hor). rewrite Hor in Hq.
        destruct (decide (s = k)) as [->|Hne]; [done|].
        rewrite lookup_insert_ne in Hq by done. congruence.
      - destruct (IH _ Hl Hq) as (e & He & Hid). exists e. split; [by right|done]. }
    eapply Hfind; [done|]. by rewrite Hempty.
Qed.

(** The collection track that a reference of a playlist stands for: the
    last source track whose [TrackID] is the [Key] of the reference. *)
Definition referenced_track (entries : list Element) (track_elem : Element)
  : option Element :=
  let track_id := get_attribute track_elem "Key" in
  if truthy track_id then last (tracks_with_id (or_str track_id "") entries) else None.

Lemma resolve_referenced_track entries track_elem :
  resolve (foldl remember ∅ entries) track_elem
  = file_path <$> referenced_track entries track_elem.
Proof.
  unfold resolve, referenced_track.
  destruct (truthy (get_attribute track_elem "Key")) eqn:Ht; [|done].
  destruct (truthy_Some _ Ht) as (s & _ & Hs & ->).
  rewrite remember_all_lookup by done.
  by destruct (last (tracks_with_id s entries)).
Qed.

Lemma resolved_referenced_tracks entries (track_elements : list Element) :
  omap (resolve (foldl remember ∅ entries)) track_elements
  = file_path <$> omap (referenced_track entries) track_elements.
Proof.
  induction track_elements as [|te rest IH]; [done|].
  csimpl. rewrite resolve_referenced_track, IH.
  by destruct (referenced_track entries te).
Qed.

(** C5. Playlist translation on the table that the track loop has built:
    the destination node of a playlist holds, for each reference whose
    [Key] is in the table and in source order, an entry whose [PRIMARYKEY]
    has as [KEY] the very string that the track loop made for the source
    track with that [TrackID]: [VOLUME], [DIR] and [FILE] of its location,
    concatenated. *)
Theorem playlist_key_is_the_track_path self collection entries self1 collection1
    self2 rekordbox_node parent_subnodes name :
  track_id_map self = ∅ →
  process_entries self collection entries = Some (self1, collection1) →
  track_id_map self2 = track_id_map self1 →
  get_attribute rekordbox_node "Name" = Some name → name ≠ "" →
  get_attribute rekordbox_node "Type" = Some "1" →
  findall rekordbox_node "TRACK" ≠ [] →
  ∃ self3 playlist_attrib,
    process_playlist_node rekordbox_node self2 parent_subnodes
    = (self3,
       SubElement parent_subnodes
         (Elem "NODE" [("TYPE", "PLAYLIST"); ("NAME", name)]
            [Elem "PLAYLIST" playlist_attrib
               ((λ e,
                   Elem "ENTRY" []
                     [Elem "PRIMARYKEY"
                        [("TYPE", "TRACK");
                         ("KEY",
                          VOLUME (get_location (get_attribute e "Location"))
                            +:+ DIR (get_location (get_attribute e "Location"))
                            +:+ FILE (get_location (get_attribute e "Location")))]
                        []])
                  <$> omap (referenced_track entries) (findall rekordbox_node "TRACK"))]))
    ∧ ∀ track_elem,
        is_Some (resolve (track_id_map self1) track_elem)
        ↔ is_Some (referenced_track entries track_elem).
Proof.
  intros Hempty Hp Hsame Hname Hne Htype Htracks.
  destruct (process_entries_result _ _ _ _ _ Hp) as (Hmap & _).
  rewrite Hempty in Hmap.
  rewrite (process_playlist_node_playlist _ _ _ name) by done.
  eexists _, _. split.
  - do 5 f_equal. rewrite Hsame, Hmap, resolved_referenced_tracks.
    by rewrite <- list_fmap_compose.
  - intros te. rewrite Hmap, resolve_referenced_track.
    by rewrite fmap_is_Some.
Qed.

End Collection.

(** ** The whole conversion *)

(** Induction on a tree, with the property for every child at hand. *)
Lemma Element_nested_ind (P : Element → Prop) :
  (∀ t a cs, Forall P cs → P (Elem t a cs)) → ∀ e, P e.
Proof.
  intros Hnode.
  refine (fix go (e : Element) : P e :=
            match e with
            | Elem t a cs =>
                Hnode t a cs
                  ((fix all (l : list Element) : Forall P l :=
                      match l with
                      | [] => Forall_nil_2 P
                      | c :: l' => Forall_cons_2 P c l' (go c) (all l')
                      end) cs)
            end).
Qed.

Lemma Forall_with_tag (P : Element → Prop) t l : Forall P l → Forall P (with_tag t l).
Proof.
  induction 1 as [|e l He _ IH]; simpl; [done|].
  destruct (String.eqb (tag e) t); [by constructor|done].
Qed.

Section Conversion.
Context {float_impl : PyFloat} {utils_impl : Utils} {uuid4_impl : Uuid4}.

(** Playlist translation only draws identifiers: apart from [uuid_calls]
    the converter stays as it is. *)
Definition only_draws (self self' : Rekordbox2Traktor) : Prop :=
  ∃ n, self' = with_uuid_calls self n.

Lemma only_draws_refl self : only_draws self self.
Proof. exists (uuid_calls self). by destruct self. Qed.

Lemma only_draws_trans self1 self2 self3 :
  only_draws self1 self2 → only_draws self2 self3 → only_draws self1 self3.
Proof. intros [n ->] [m ->]. by exists m. Qed.

Lemma process_nodes_only_draws nodes : ∀ self subnodes child_count,
  Forall (λ node, ∀ self parent,
            only_draws self (process_playlist_node node self parent).1) nodes →
  only_draws self (process_nodes nodes (self, subnodes, child_count)).1.1.
Proof.
  induction nodes as [|node rest IH]; intros self subnodes child_count Hall.
  - apply only_draws_refl.
  - apply Forall_cons in Hall as [Hnode Hrest]. cbn [process_nodes].
    specialize (Hnode self subnodes).
    destruct (process_playlist_node node self subnodes) as [self1 subnodes1].
    eapply only_draws_trans; [exact Hnode|]. by apply IH.
Qed.

Lemma process_playlist_node_only_draws rekordbox_node : ∀ self parent_subnodes,
  only_draws self (process_playlist_node rekordbox_node self parent_subnodes).1.
Proof.
  induction rekordbox_node as [t a cs IH] using Element_nested_ind.
  intros self parent. rewrite process_playlist_node_unfold. cbn zeta.
  destruct (negb _); [apply only_draws_refl|].
  destruct (bool_decide (_ = Some "0")).
  { pose proof (process_nodes_only_draws (findall (Elem t a cs) "NODE") self
                  (Elem "SUBNODES" [] []) 0 (Forall_with_tag _ _ _ IH)) as Hd.
    by destruct (process_nodes _ _) as [[s sn] n]. }
  destruct (bool_decide (_ = Some "1")); [|apply only_draws_refl].
  destruct (findall (Elem t a cs) "TRACK"); [apply only_draws_refl|].
  by eexists.
Qed.

(** What a step adds below [self.root]. *)
Definition root_adds (self self' : Rekordbox2Traktor) (new : list Element) : Prop :=
  ∃ r, root self = Some r
       ∧ root self' = Some (Elem (tag r) (attrib r) (children r ++ new)).

Lemma root_append_adds self child self' :
  root_append self child = Some self' → root_adds self self' [child].
Proof.
  unfold root_append. destruct (root self) as [r|] eqn:Hr; [|done].
  intros [= <-]. by exists r.
Qed.

Lemma root_adds_trans self1 self2 self3 new1 new2 :
  root_adds self1 self2 new1 → root_adds self2 self3 new2 →
  root_adds self1 self3 (new1 ++ new2).
Proof.
  intros (r & Hr & H2) (r' & Hr' & H3). rewrite H2 in Hr'. injection Hr' as <-.
  exists r. split; [done|]. rewrite H3. simpl. by rewrite app_assoc.
Qed.

Lemma add_default_playlist_adds self self' :
  add_default_playlist self = Some self' →
  ∃ new, root_adds self self' new ∧ Forall (λ c, tag c = "PLAYLISTS") new.
Proof.
  unfold add_default_playlist, attach_playlists. cbn zeta. intros Ha.
  apply root_append_adds in Ha. eexists. split; [exact Ha|]. by repeat constructor.
Qed.

Lemma process_playlists_adds self xml_root self' :
  process_playlists self xml_root = Some self' →
  ∃ new, root_adds self self' new ∧ Forall (λ c, tag c = "PLAYLISTS") new.
Proof.
  unfold process_playlists. destruct (find xml_root "PLAYLISTS") as [section|].
  2:{ apply add_default_playlist_adds. }
  cbn zeta. destruct (find section "NODE") as [root_node|].
  - pose proof (process_nodes_only_draws (findall root_node "NODE") self
                  (Elem "SUBNODES" [] []) 0) as Hd.
    destruct (process_nodes _ _) as [[s sn] n]. simpl in Hd.
    destruct Hd as [m ->].
    { apply Forall_forall. intros node _. apply process_playlist_node_only_draws. }
    unfold attach_playlists. intros Ha. apply root_append_adds in Ha.
    eexists. split; [exact Ha|]. by repeat constructor.
  - unfold attach_playlists.
    destruct (root_append self _) as [s|] eqn:Hs; [|done].
    cbn [mbind option_bind]. intros Hd.
    apply root_append_adds in Hs.
    apply add_default_playlist_adds in Hd as (new & Hnew & Htags).
    eexists. split; [by eapply root_adds_trans|]. by repeat constructor.
Qed.

(** The order of [convert_xml_to_nml]: the track loop starts on an empty
    table and an empty track list, over every [TRACK] node below the root
    of the source; playlist translation then runs on the table and the
    list that the loop has left.  The tree that is written has the head,
    the collection that the loop has filled, the sets, what playlist
    translation added, and the index. *)
Lemma convert_xml_to_nml_stages self xml_root final :
  convert_xml_to_nml self xml_root = Some final →
  ∃ self0 self1 collection self2 self3 head playlists,
    track_id_map self0 = ∅
    ∧ tracks self0 = []
    ∧ process_entries self0 (add_collection (findall_deep xml_root "TRACK"))
        (findall_deep xml_root "TRACK") = Some (self1, collection)
    ∧ track_id_map self2 = track_id_map self1
    ∧ tracks self2 = tracks self1
    ∧ process_playlists self2 xml_root = Some self3
    ∧ add_indexing self3 = Some final
    ∧ tag head = "HEAD"
    ∧ Forall (λ c, tag c = "PLAYLISTS") playlists
    ∧ root final
      = Some (Elem "NML" [("VERSION", "20")]
                (head :: collection :: Elem "SETS" [("ENTRIES", str_nat 0)] []
                   :: playlists ++ [Elem "INDEXING" [] []])).
Proof.
  unfold convert_xml_to_nml. cbn zeta. intros Hc.
  match type of Hc with (?head ≫= _) = _ => destruct head as [s0|] eqn:Hhead end; [|done].
  cbn [mbind option_bind] in Hc.
  match type of Hc with (process_entries ?s ?c ?l ≫= _) = _ =>
    destruct (process_entries s c l) as [[s1 coll]|] eqn:Hloop end; [|done].
  cbn [mbind option_bind] in Hc.
  destruct (root_append s1 coll) as [s2|] eqn:Hroot; [|done].
  cbn [mbind option_bind] in Hc.
  destruct (add_sets s2) as [s3|] eqn:Hsets; [|done].
  cbn [mbind option_bind] in Hc.
  destruct (process_playlists s3 xml_root) as [s4|] eqn:Hpl; [|done].
  cbn [mbind option_bind] in Hc.
  destruct (process_entries_result _ _ _ _ _ Hloop) as (_ & _ & Hr1 & _).
  injection Hhead as <-. simpl in Hr1.
  pose proof (root_append_adds _ _ _ Hroot) as (r1 & Hr1' & Hr2).
  rewrite Hr1 in Hr1'. injection Hr1' as <-. simpl in Hr2.
  pose proof (root_append_adds _ _ _ Hsets) as (r2 & Hr2' & Hr3).
  rewrite Hr2 in Hr2'. injection Hr2' as <-. simpl in Hr3.
  pose proof (process_playlists_adds _ _ _ Hpl) as (pl & (r3 & Hr3' & Hr4) & Htags).
  rewrite Hr3 in Hr3'. injection Hr3' as <-. simpl in Hr4.
  pose proof (root_append_adds _ _ _ Hc) as (r4 & Hr4' & Hr5).
  rewrite Hr4 in Hr4'. injection Hr4' as <-. simpl in Hr5.
  eexists _, s1, coll, s3, s4,
    (Elem "HEAD"
       [("COMPANY", "www.native-instruments.com"); ("PROGRAM", "Traktor Pro 4")] []),
    pl.
  split; [|split; [|split; [exact Hloop|]]]; [done..|].
  split.
  { unfold root_append in Hroot. destruct (root s1); [|done]. injection Hroot as <-.
    unfold add_sets, root_append in Hsets. simpl in Hsets. by injection Hsets as <-. }
  split.
  { unfold root_append in Hroot. destruct (root s1); [|done]. injection Hroot as <-.
    unfold add_sets, root_append in Hsets. simpl in Hsets. by injection Hsets as <-. }
  split; [exact Hpl|]. split; [exact Hc|]. split; [done|]. split; [exact Htags|].
  rewrite Hr5. by do 2 f_equal.
Qed.

(** The collection that is written has an entry for every [TRACK] node
    below the root of the source, wherever it is, and says so in
    [ENTRIES]. *)
Lemma collection_has_an_entry_per_track_node self xml_root final :
  convert_xml_to_nml self xml_root = Some final →
  ∃ nml collection,
    root final = Some nml
    ∧ find nml "COLLECTION" = Some collection
    ∧ attrib collection
      = [("ENTRIES", str_nat (length (findall_deep xml_root "TRACK")))]
    ∧ findall collection "ENTRY" = children collection
    ∧ length (children collection) = length (findall_deep xml_root "TRACK").
Proof.
  intros Hc.
  destruct (convert_xml_to_nml_stages _ _ _ Hc)
    as (s0 & s1 & coll & s2 & s3 & head & pl
        & _ & _ & Hloop & _ & _ & _ & _ & Hhead & _ & Hroot).
  destruct (process_entries_result _ _ _ _ _ Hloop)
    as (_ & _ & _ & new & -> & Hlen & Htags).
  eexists _, _. split; [exact Hroot|]. split.
  { unfold find, findall. simpl. rewrite Hhead. done. }
  split; [done|]. simpl. split; [|done].
  unfold findall. simpl. by apply with_tag_all.
Qed.

End Conversion.

(** ** Concrete documents *)

Module Examples.

(** One track without tempo markers, position marks or average tempo, and
    one playlist with one reference to it. *)
Definition scenario_track : Element :=
  Elem "TRACK"
    [("TrackID", "1"); ("Name", "Song"); ("AverageBpm", "");
     ("Location", "file://localhost/music/song.mp3")] [].

Definition scenario_doc : Element :=
  Elem "DJ_PLAYLISTS" [("Version", "1.0.0")]
    [Elem "COLLECTION" [("Entries", "1")] [scenario_track];
     Elem "PLAYLISTS" []
       [Elem "NODE" [("Type", "0"); ("Name", "ROOT"); ("Count", "1")]
          [Elem "NODE" [("Name", "Set"); ("Type", "1"); ("KeyType", "0"); ("Entries", "1")]
             [Elem "TRACK" [("Key", "1")] []]]]].

(** A track with two tempo markers. *)
Definition two_markers : Element :=
  Elem "TRACK" [("TrackID", "7"); ("AverageBpm", "128.00")]
    [Elem "TEMPO" [("Inizio", "0.5"); ("Bpm", "128.00")] [];
     Elem "TEMPO" [("Inizio", "60.5"); ("Bpm", "130.00")] []].

(** The same, with a decimal comma in the first start time. *)
Definition comma_marker : Element :=
  Elem "TRACK" [("TrackID", "7"); ("AverageBpm", "128.00")]
    [Elem "TEMPO" [("Inizio", "0,5"); ("Bpm", "128.00")] [];
     Elem "TEMPO" [("Inizio", "60.5"); ("Bpm", "130.00")] []].

(** A track whose average tempo is not a number. *)
Definition unknown_bpm : Element :=
  Elem "TRACK" [("TrackID", "3"); ("AverageBpm", "unknown")] [].

(** A track with three position marks: a loop in slot 2, the reserved
    auto-grid mark, and a cue without a slot. *)
Definition three_marks : Element :=
  Elem "TRACK" [("TrackID", "5")]
    [Elem "POSITION_MARK"
       [("Name", "Loop"); ("Type", "4"); ("Start", "1.5"); ("End", "3.5"); ("Num", "2")] [];
     Elem "POSITION_MARK" [("Name", "AutoGrid"); ("Type", "0"); ("Start", "0")] [];
     Elem "POSITION_MARK"
       [("Name", "Drop"); ("Type", "0"); ("Start", "30"); ("Num", "-1")] []].

(** A source track without [TrackID]. *)
Definition unidentified : Element :=
  Elem "TRACK" [("Name", "Untitled"); ("Location", "file://localhost/music/a.mp3")] [].

(** A playlist without a track, and a folder that holds only it. *)
Definition no_tracks : Element :=
  Elem "NODE" [("Name", "Empty"); ("Type", "1"); ("Entries", "0")] [].

Definition only_empty : Element :=
  Elem "NODE" [("Name", "Folder"); ("Type", "0"); ("Count", "1")] [no_tracks].

(** A playlist whose only reference is to a track that is not in the
    collection, and one with a second reference that is. *)
Definition dangling : Element :=
  Elem "NODE" [("Name", "Old"); ("Type", "1"); ("Entries", "1")]
    [Elem "TRACK" [("Key", "9")] []].

Definition half_dangling : Element :=
  Elem "NODE" [("Name", "Mixed"); ("Type", "1"); ("Entries", "2")]
    [Elem "TRACK" [("Key", "9")] []; Elem "TRACK" [("Key", "1")] []].

(** *** The one-track scenario *)

Section Scenario.
Context {float_impl : PyFloat} {utils_impl : Utils} {uuid4_impl : Uuid4}.

(** C1. On [scenario_doc], whatever the helpers and the float arithmetic
    are, a conversion that returns has written a collection with two
    entries, not one: [findall(".//TRACK")] also finds the track reference
    inside the playlist, and the track loop makes an entry for it. *)
Theorem scenario_collection_has_two_entries self final :
  convert_xml_to_nml self scenario_doc = Some final →
  findall_deep scenario_doc "TRACK" = [scenario_track; Elem "TRACK" [("Key", "1")] []]
  ∧ ∃ nml collection,
      root final = Some nml
      ∧ find nml "COLLECTION" = Some collection
      ∧ attrib collection = [("ENTRIES", "2")]
      ∧ length (findall collection "ENTRY") = 2.
Proof.
  intros Hc. split; [reflexivity|].
  destruct (collection_has_an_entry_per_track_node _ _ _ Hc)
    as (nml & collection & Hroot & Hfind & Hattrib & Hentries & Hlen).
  exists nml, collection. rewrite Hentries. by repeat split.
Qed.

End Scenario.

Import Reference.

(** A converter that holds an empty entry for the track [e]. *)
Definition on_track (e : Element) : Rekordbox2Traktor :=
  with_track (set_track_info (reset_track init) e) (Some (Elem "ENTRY" [] [])).

(** What is read off the tree the conversion writes. *)
Definition nml_of (xml_root : Element) : option Element :=
  final ← convert_xml_to_nml init xml_root; root final.

Definition collection_of (xml_root : Element) : option Element :=
  nml ← nml_of xml_root; find nml "COLLECTION".

Definition playlists_of (xml_root : Element) : option Element :=
  nml ← nml_of xml_root; find nml "PLAYLISTS".

(** A converter whose table holds [scenario_track] under its [TrackID]. *)
Definition with_table : Rekordbox2Traktor :=
  {| root := None; track := None; cues := []; track_index := 1; cue_index := 1;
     track_info := None; tracks := [file_path scenario_track];
     track_id_map := {[ "1" := file_path scenario_track ]}; uuid_calls := 0 |}.

(** What the reference helpers give: the converter after the conversion of
    [scenario_doc], after the track loop over [scenario_track] (with the
    collection), after [process_cues] and after [process_track] on
    [three_marks]. *)
Definition scenario_final : Rekordbox2Traktor :=
  Eval vm_compute in default init (convert_xml_to_nml init scenario_doc).

Definition scenario_loop : Rekordbox2Traktor * Element :=
  Eval vm_compute in
    default (init, Elem "" [] [])
      (process_entries init (add_collection [scenario_track]) [scenario_track]).

Definition three_marks_cues : Rekordbox2Traktor :=
  Eval vm_compute in default init (process_cues (on_track three_marks) three_marks).

Definition three_marks_entry : Rekordbox2Traktor :=
  Eval vm_compute in default init (fst <$> process_track init three_marks).

(** The converter after the track loop over [unidentified]. *)
Definition after_unidentified : option (Rekordbox2Traktor * Element) :=
  process_entries init (add_collection [unidentified]) [unidentified].

(** The scenario with the reference helpers.  The first of the two entries
    is the entry of the track: its tempo block has BPM "120.000000", and
    its cues are one auto-grid beat marker and one grid anchor.  The second
    is made from the track reference.  The playlist has one entry, whose
    key is the path built for the track. *)
Example scenario_output :
  findall_deep scenario_doc "TRACK" = [scenario_track; Elem "TRACK" [("Key", "1")] []]
  ∧ attrib <$> collection_of scenario_doc = Some [("ENTRIES", "2")]
  ∧ (λ c, length (findall c "ENTRY")) <$> collection_of scenario_doc = Some 2
  ∧ (λ c, (λ entry,
             (attrib_get (attrib entry) "TITLE",
              findall entry "TEMPO",
              List.filter is_beatmarker (findall entry "CUE_V2"),
              List.filter is_grid_anchor (findall entry "CUE_V2")))
            <$> findall c "ENTRY")
      <$> collection_of scenario_doc
    = Some
        [(Some "Song",
          [Elem "TEMPO" [("BPM", "120.000000"); ("BPM_QUALITY", "100.000000")] []],
          [beatmarker_cue (Int 0%Z) (float_of_int 120%Z) true],
          [autogrid_cue (Int 0%Z)]);
         (Some "",
          [Elem "TEMPO" [("BPM", "120.000000"); ("BPM_QUALITY", "100.000000")] []],
          [beatmarker_cue (Int 0%Z) (float_of_int 120%Z) true],
          [autogrid_cue (Int 0%Z)])]
  ∧ children <$> playlists_of scenario_doc
    = Some
        [Elem "NODE" [("TYPE", "FOLDER"); ("NAME", "$ROOT")]
           [Elem "SUBNODES" [("COUNT", "1")]
              [Elem "NODE" [("TYPE", "PLAYLIST"); ("NAME", "Set")]
                 [Elem "PLAYLIST"
                    [("ENTRIES", "1"); ("TYPE", "LIST"); ("UUID", uuid4_hex 2)]
                    [playlist_entry (file_path scenario_track)]]]]].
Proof. repeat split; vm_compute; reflexivity. Qed.

(** [scenario_collection_has_two_entries] with the reference helpers. *)
Lemma scenario_witness :
  convert_xml_to_nml init scenario_doc = Some scenario_final
  ∧ findall_deep scenario_doc "TRACK"
    = [scenario_track; Elem "TRACK" [("Key", "1")] []]
  ∧ ∃ nml collection,
      root scenario_final = Some nml
      ∧ find nml "COLLECTION" = Some collection
      ∧ attrib collection = [("ENTRIES", "2")]
      ∧ length (findall collection "ENTRY") = 2.
Proof.
  assert (convert_xml_to_nml init scenario_doc = Some scenario_final) as Hc
    by reflexivity.
  exact (conj Hc (scenario_collection_has_two_entries init scenario_final Hc)).
Defined.

(** *** Counterexamples *)

(** C2, as stated, fails on a source track without [TrackID]: the track
    loop adds its entry to the collection and leaves the table empty. *)
Lemma unidentified_track_is_not_in_the_table :
  (λ '(self, collection),
     (length (findall collection "ENTRY"), map_to_list (track_id_map self)))
    <$> after_unidentified
  = Some (1, []).
Proof. vm_compute. reflexivity. Qed.

(** C3 fails on a folder that holds one playlist without tracks: the
    playlist is dropped and counted all the same, so the folder is emitted
    with [COUNT] 1 and no child. *)
Lemma folder_of_an_empty_playlist_counts_it :
  (process_playlist_node only_empty init (Elem "SUBNODES" [] [])).2
  = Elem "SUBNODES" []
      [Elem "NODE" [("TYPE", "FOLDER"); ("NAME", "Folder")]
         [Elem "SUBNODES" [("COUNT", "1")] []]].
Proof. vm_compute. reflexivity. Qed.

(** C4, as stated, fails on a playlist whose only reference does not
    resolve: its destination node is created, without an entry. *)
Lemma dangling_playlist_is_created :
  (process_playlist_node dangling init (Elem "SUBNODES" [] [])).2
  = Elem "SUBNODES" []
      [Elem "NODE" [("TYPE", "PLAYLIST"); ("NAME", "Old")]
         [Elem "PLAYLIST"
            [("ENTRIES", "1"); ("TYPE", "LIST"); ("UUID", uuid4_hex 0)] []]].
Proof. vm_compute. reflexivity. Qed.

(** C6, as stated, fails on a track with two markers of which the first
    has a start time that [float] does not read: [process_tempo] raises,
    and no beat marker is left. *)
Lemma unread_marker_stops_process_tempo :
  length (findall comma_marker "TEMPO") = 2
  ∧ float_of_str "0,5" = None
  ∧ process_tempo (on_track comma_marker) comma_marker = None.
Proof. repeat split; vm_compute; reflexivity. Qed.

(** *** Witnesses *)

(** [default_tempo_is_120] on a track whose average tempo is "unknown". *)
Lemma default_tempo_witness :
  (truthy (get_attribute unknown_bpm "AverageBpm") = false
   ∨ float_of_str (or_str (get_attribute unknown_bpm "AverageBpm") "") = None)
  ∧ (info_bpm <$> track_info (set_track_info init unknown_bpm)
     = Some (float_of_int 120%Z)
     ∧ (∀ entry,
          add_tempo (with_track (set_track_info init unknown_bpm) (Some entry))
          = Some (with_track (set_track_info init unknown_bpm)
                    (Some (SubElement entry
                             (Elem "TEMPO"
                                [("BPM", "120.000000"); ("BPM_QUALITY", "100.000000")]
                                [])))))
     ∧ (∀ self' ok,
          process_track init unknown_bpm = Some (self', ok) →
          ∃ entry,
            track self' = Some entry
            ∧ findall entry "TEMPO"
              = [Elem "TEMPO" [("BPM", "120.000000"); ("BPM_QUALITY", "100.000000")] []])).
Proof.
  assert (truthy (get_attribute unknown_bpm "AverageBpm") = false
          ∨ float_of_str (or_str (get_attribute unknown_bpm "AverageBpm") "") = None)
    as Hbpm by (right; reflexivity).
  exact (conj Hbpm (default_tempo_is_120 init unknown_bpm Hbpm)).
Defined.

(** [process_tempo_several_markers] on a track with two markers, at 0.5 s
    and 60.5 s. *)
Lemma several_markers_witness :
  track (on_track two_markers) = Some (Elem "ENTRY" [] [])
  ∧ 2 ≤ length (findall two_markers "TEMPO")
  ∧ Forall2 (λ tempo m, tempo_marker (on_track two_markers) tempo = Some m)
      (findall two_markers "TEMPO")
      [(Float 500000000%Z, 128000000%Z); (Float 60500000000%Z, 130000000%Z)]
  ∧ ∃ self' first rest,
      [(Float 500000000%Z, 128000000%Z); (Float 60500000000%Z, 130000000%Z)]
      = first :: rest
      ∧ process_tempo (on_track two_markers) two_markers = Some self'
      ∧ track self'
        = Some (Elem "ENTRY" []
                  ([] ++ beatmarker_cue first.1 first.2 true
                      :: autogrid_cue first.1
                      :: ((λ m, beatmarker_cue m.1 m.2 false) <$> rest)))
      ∧ length (List.filter is_beatmarker
                  (grid_cues
                     [(Float 500000000%Z, 128000000%Z);
                      (Float 60500000000%Z, 130000000%Z)]))
        = length (findall two_markers "TEMPO")
      ∧ List.filter is_autogrid
          (List.filter is_beatmarker
             (grid_cues
                [(Float 500000000%Z, 128000000%Z);
                 (Float 60500000000%Z, 130000000%Z)]))
        = [beatmarker_cue first.1 first.2 true]
      ∧ List.filter is_grid_anchor
          (grid_cues
             [(Float 500000000%Z, 128000000%Z); (Float 60500000000%Z, 130000000%Z)])
        = [autogrid_cue first.1].
Proof.
  assert (track (on_track two_markers) = Some (Elem "ENTRY" [] [])) as Ht
    by reflexivity.
  assert (2 ≤ length (findall two_markers "TEMPO")) as HN by (vm_compute; lia).
  assert (Forall2 (λ tempo m, tempo_marker (on_track two_markers) tempo = Some m)
            (findall two_markers "TEMPO")
            [(Float 500000000%Z, 128000000%Z); (Float 60500000000%Z, 130000000%Z)])
    as Hall by (repeat constructor).
  exact (conj Ht (conj HN (conj Hall
           (process_tempo_several_markers _ _ _ _ Ht HN Hall)))).
Defined.

(** [process_cues_loop_length] on a track with a loop, the reserved
    auto-grid mark and a cue. *)
Lemma loop_length_witness :
  track (on_track three_marks) = Some (Elem "ENTRY" [] [])
  ∧ process_cues (on_track three_marks) three_marks = Some three_marks_cues
  ∧ ∃ cs,
      track three_marks_cues = Some (Elem "ENTRY" [] ([] ++ cs))
      ∧ length cs = length (translated_marks three_marks)
      ∧ ∀ k position_mark,
          translated_marks three_marks !! k = Some position_mark →
          get_attribute position_mark "Name" ≠ Some "AutoGrid"
          ∧ ∃ cue, cs !! k = Some cue ∧ loop_length_of position_mark cue.
Proof.
  assert (track (on_track three_marks) = Some (Elem "ENTRY" [] [])) as Ht
    by reflexivity.
  assert (process_cues (on_track three_marks) three_marks = Some three_marks_cues)
    as Hp by reflexivity.
  exact (conj Ht (conj Hp (process_cues_loop_length _ _ _ _ Ht Hp))).
Defined.

(** [process_track_hotcue_slots] on the same track. *)
Lemma hotcue_slots_witness :
  process_track init three_marks = Some (three_marks_entry, true)
  ∧ ∃ entry others cs,
      track three_marks_entry = Some entry
      ∧ children entry = others ++ cs
      ∧ length cs = length (translated_marks three_marks)
      ∧ ∀ k position_mark,
          translated_marks three_marks !! k = Some position_mark →
          ∃ cue, cs !! k = Some cue ∧ hotcue_of (1 + k) position_mark cue.
Proof.
  assert (process_track init three_marks = Some (three_marks_entry, true))
    as Hp by reflexivity.
  exact (conj Hp (process_track_hotcue_slots _ _ _ _ Hp)).
Defined.

(** [folder_count_is_source_children] on a folder with one playlist
    without tracks. *)
Lemma folder_count_witness :
  get_attribute only_empty "Name" = Some "Folder"
  ∧ "Folder" ≠ ""
  ∧ get_attribute only_empty "Type" = Some "0"
  ∧ ∃ self' made,
      process_playlist_node only_empty init (Elem "SUBNODES" [] [])
      = (self',
         SubElement (Elem "SUBNODES" [] [])
           (Elem "NODE" [("TYPE", "FOLDER"); ("NAME", "Folder")]
              [Elem "SUBNODES"
                 [("COUNT", str_nat (length (findall only_empty "NODE")))] made]))
      ∧ length made ≤ length (findall only_empty "NODE")
      ∧ (Forall empty_playlist (findall only_empty "NODE") → made = []).
Proof.
  assert (get_attribute only_empty "Name" = Some "Folder") as Hname by reflexivity.
  assert ("Folder" ≠ "") as Hne by discriminate.
  assert (get_attribute only_empty "Type" = Some "0") as Htype by reflexivity.
  exact (conj Hname (conj Hne (conj Htype
           (folder_count_is_source_children only_empty init (Elem "SUBNODES" [] [])
              "Folder" Hname Hne Htype)))).
Defined.

(** [playlist_keeps_resolved_references] on a playlist with a reference
    that resolves and one that does not. *)
Lemma resolved_references_witness :
  get_attribute half_dangling "Name" = Some "Mixed"
  ∧ "Mixed" ≠ ""
  ∧ get_attribute half_dangling "Type" = Some "1"
  ∧ findall half_dangling "TRACK" ≠ []
  ∧ ∃ self' playlist_attrib entries,
      process_playlist_node half_dangling with_table (Elem "SUBNODES" [] [])
      = (self',
         SubElement (Elem "SUBNODES" [] [])
           (Elem "NODE" [("TYPE", "PLAYLIST"); ("NAME", "Mixed")]
              [Elem "PLAYLIST" playlist_attrib entries]))
      ∧ entries
        = playlist_entry
            <$> omap (resolve (track_id_map with_table)) (findall half_dangling "TRACK")
      ∧ (Forall (λ track_elem, resolve (track_id_map with_table) track_elem = None)
           (findall half_dangling "TRACK") → entries = []).
Proof.
  assert (get_attribute half_dangling "Name" = Some "Mixed") as Hname by reflexivity.
  assert ("Mixed" ≠ "") as Hne by discriminate.
  assert (get_attribute half_dangling "Type" = Some "1") as Htype by reflexivity.
  assert (findall half_dangling "TRACK" ≠ []) as Htracks by discriminate.
  exact (conj Hname (conj Hne (conj Htype (conj Htracks
           (playlist_keeps_resolved_references half_dangling with_table
              (Elem "SUBNODES" [] []) "Mixed" Hname Hne Htype Htracks))))).
Defined.

(** [playlist_entries_counts_references] on the same playlist. *)
Lemma entries_count_witness :
  get_attribute half_dangling "Name" = Some "Mixed"
  ∧ "Mixed" ≠ ""
  ∧ get_attribute half_dangling "Type" = Some "1"
  ∧ findall half_dangling "TRACK" ≠ []
  ∧ ∃ self' playlist,
      process_playlist_node half_dangling with_table (Elem "SUBNODES" [] [])
      = (self',
         SubElement (Elem "SUBNODES" [] [])
           (Elem "NODE" [("TYPE", "PLAYLIST"); ("NAME", "Mixed")] [playlist]))
      ∧ tag playlist = "PLAYLIST"
      ∧ attrib_get (attrib playlist) "ENTRIES"
        = Some (str_nat (length (findall half_dangling "TRACK")))
      ∧ findall playlist "ENTRY" = children playlist
      ∧ length (children playlist) ≤ length (findall half_dangling "TRACK")
      ∧ (∀ track_elem,
           track_elem ∈ findall half_dangling "TRACK" →
           resolve (track_id_map with_table) track_elem = None →
           length (children playlist) < length (findall half_dangling "TRACK")).
Proof.
  assert (get_attribute half_dangling "Name" = Some "Mixed") as Hname by reflexivity.
  assert ("Mixed" ≠ "") as Hne by discriminate.
  assert (get_attribute half_dangling "Type" = Some "1") as Htype by reflexivity.
  assert (findall half_dangling "TRACK" ≠ []) as Htracks by discriminate.
  exact (conj Hname (conj Hne (conj Htype (conj Htracks
           (playlist_entries_counts_references half_dangling with_table
              (Elem "SUBNODES" [] []) "Mixed" Hname Hne Htype Htracks))))).
Defined.

(** [identified_tracks_are_in_the_table] on the track loop over
    [scenario_track]. *)
Lemma table_witness :
  track_id_map init = ∅
  ∧ process_entries init (add_collection [scenario_track]) [scenario_track]
    = Some scenario_loop
  ∧ length (children scenario_loop.2)
    = length (children (add_collection [scenario_track])) + length [scenario_track]
  ∧ (∀ e track_id,
       e ∈ [scenario_track] → get_attribute e "TrackID" = Some track_id →
       track_id ≠ "" →
       ∃ e', last (tracks_with_id track_id [scenario_track]) = Some e'
             ∧ track_id_map scenario_loop.1 !! track_id = Some (file_path e'))
  ∧ (∀ track_id,
       is_Some (track_id_map scenario_loop.1 !! track_id) →
       ∃ e, e ∈ [scenario_track] ∧ get_attribute e "TrackID" = Some track_id).
Proof.
  assert (track_id_map init = ∅) as Hempty by reflexivity.
  assert (process_entries init (add_collection [scenario_track]) [scenario_track]
          = Some (scenario_loop.1, scenario_loop.2)) as Hp by reflexivity.
  exact (conj Hempty (conj Hp
           (identified_tracks_are_in_the_table _ _ _ _ _ Hempty Hp))).
Defined.

(** [playlist_key_is_the_track_path]: the track loop over
    [scenario_track], then the playlist [half_dangling]. *)
Lemma track_path_witness :
  track_id_map init = ∅
  ∧ process_entries init (add_collection [scenario_track]) [scenario_track]
    = Some scenario_loop
  ∧ get_attribute half_dangling "Name" = Some "Mixed"
  ∧ "Mixed" ≠ ""
  ∧ get_attribute half_dangling "Type" = Some "1"
  ∧ findall half_dangling "TRACK" ≠ []
  ∧ ∃ self3 playlist_attrib,
      process_playlist_node half_dangling scenario_loop.1 (Elem "SUBNODES" [] [])
      = (self3,
         SubElement (Elem "SUBNODES" [] [])
           (Elem "NODE" [("TYPE", "PLAYLIST"); ("NAME", "Mixed")]
              [Elem "PLAYLIST" playlist_attrib
                 ((λ e,
                     Elem "ENTRY" []
                       [Elem "PRIMARYKEY"
                          [("TYPE", "TRACK");
                           ("KEY",
                            VOLUME (get_location (get_attribute e "Location"))
                              +:+ DIR (get_location (get_attribute e "Location"))
                              +:+ FILE (get_location (get_attribute e "Location")))]
                          []])
                    <$> omap (referenced_track [scenario_track])
                          (findall half_dangling "TRACK"))]))
      ∧ ∀ track_elem,
          is_Some (resolve (track_id_map scenario_loop.1) track_elem)
          ↔ is_Some (referenced_track [scenario_track] track_elem).
Proof.
  assert (track_id_map init = ∅) as Hempty by reflexivity.
  assert (process_entries init (add_collection [scenario_track]) [scenario_track]
          = Some (scenario_loop.1, scenario_loop.2)) as Hp by reflexivity.
  assert (get_attribute half_dangling "Name" = Some "Mixed") as Hname by reflexivity.
  assert ("Mixed" ≠ "") as Hne by discriminate.
  assert (get_attribute half_dangling "Type" = Some "1") as Htype by reflexivity.
  assert (findall half_dangling "TRACK" ≠ []) as Htracks by discriminate.
  exact (conj Hempty (conj Hp (conj Hname (conj Hne (conj Htype (conj Htracks
           (playlist_key_is_the_track_path init _ _ scenario_loop.1 scenario_loop.2
              scenario_loop.1 half_dangling (Elem "SUBNODES" [] []) "Mixed"
              Hempty Hp eq_refl Hname Hne Htype Htracks))))))).
Defined.

End Examples.

(** * Further properties of the converter *)

(** ** Which source nodes lead to a destination node *)

Section Emission.
Context {float_impl : PyFloat} {utils_impl : Utils} {uuid4_impl : Uuid4}.

(** The tests of [process_playlist_node] that are passed by a node that
    gets a destination node: a name, and either the folder type or the
    playlist type with at least one [TRACK] child. *)
Definition emits (rekordbox_node : Element) : bool :=
  truthy (get_attribute rekordbox_node "Name")
  && (bool_decide (get_attribute rekordbox_node "Type" = Some "0")
      || (bool_decide (get_attribute rekordbox_node "Type" = Some "1")
          && negb (bool_decide (findall rekordbox_node "TRACK" = [])))).

(** The [TYPE] written for a source node type. *)
Definition destination_type (rekordbox_node : Element) : string :=
  if bool_decide (get_attribute rekordbox_node "Type" = Some "0")
  then "FOLDER" else "PLAYLIST".

Lemma process_playlist_node_made rekordbox_node self parent_subnodes :
  (emits rekordbox_node = false →
   process_playlist_node rekordbox_node self parent_subnodes = (self, parent_subnodes))
  ∧ (emits rekordbox_node = true →
     ∃ made,
       (process_playlist_node rekordbox_node self parent_subnodes).2
       = SubElement parent_subnodes
           (Elem "NODE"
              [("TYPE", destination_type rekordbox_node);
               ("NAME", or_str (get_attribute rekordbox_node "Name") "")] made)).
Proof.
  rewrite process_playlist_node_unfold. cbn zeta. unfold emits, destination_type.
  destruct (truthy (get_attribute rekordbox_node "Name")); simpl; [|done].
  destruct (bool_decide (get_attribute rekordbox_node "Type" = Some "0")) eqn:H0; simpl.
  { split; [done|]. intros _.
    destruct (process_nodes _ _) as [[s sn] n]. simpl. by eexists. }
  destruct (bool_decide (get_attribute rekordbox_node "Type" = Some "1")); simpl; [|done].
  destruct (findall rekordbox_node "TRACK") as [|te rest]; simpl; [done|].
  split; [done|]. intros _. by eexists.
Qed.

(** X1. A source node without a name, or of a type other than "0" and
    "1", or a playlist without a [TRACK] child, is dropped with everything
    below it: converter and parent stay as they are.  Every other node adds
    exactly one [NODE] to the parent, last, with the type of the source
    node and its name, and changes nothing of the converter but the count of
    identifiers drawn. *)
Theorem node_is_dropped_or_adds_one rekordbox_node self parent_subnodes :
  (emits rekordbox_node = false →
   process_playlist_node rekordbox_node self parent_subnodes = (self, parent_subnodes))
  ∧ (emits rekordbox_node = true →
     ∃ drawn made,
       process_playlist_node rekordbox_node self parent_subnodes
       = (with_uuid_calls self drawn,
          SubElement parent_subnodes
            (Elem "NODE"
               [("TYPE", destination_type rekordbox_node);
                ("NAME", or_str (get_attribute rekordbox_node "Name") "")] made))).
Proof.
  destruct (process_playlist_node_made rekordbox_node self parent_subnodes)
    as [Hdrop Hadd].
  split; [exact Hdrop|]. intros Hemits.
  destruct (Hadd Hemits) as [made Hmade].
  destruct (process_playlist_node_only_draws rekordbox_node self parent_subnodes)
    as [drawn Hdrawn].
  exists drawn, made.
  destruct (process_playlist_node rekordbox_node self parent_subnodes) as [s p].
  simpl in *. by subst.
Qed.

(** The children that a loop over source nodes adds: one for each source
    node that [emits], in source order, under the name of its node. *)
Lemma process_nodes_made nodes : ∀ self subnodes child_count,
  ∃ self' made,
    process_nodes nodes (self, subnodes, child_count)
    = (self', Elem (tag subnodes) (attrib subnodes) (children subnodes ++ made),
       child_count + length nodes)
    ∧ Forall2 (λ node c,
                 tag c = "NODE"
                 ∧ attrib c = [("TYPE", destination_type node);
                               ("NAME", or_str (get_attribute node "Name") "")])
        (List.filter emits nodes) made.
Proof.
  induction nodes as [|node rest IH]; intros self subnodes child_count.
  - exists self, []. simpl. rewrite app_nil_r, Nat.add_0_r.
    split; [by destruct subnodes|constructor].
  - cbn [process_nodes List.filter].
    destruct (process_playlist_node_made node self subnodes) as [Hdrop Hadd].
    destruct (emits node).
    + destruct Hadd as [made Hmade]; [done|].
      destruct (process_playlist_node node self subnodes) as [self1 subnodes1].
      simpl in Hmade. subst subnodes1.
      destruct (IH self1 (SubElement subnodes
                            (Elem "NODE"
                               [("TYPE", destination_type node);
                                ("NAME", or_str (get_attribute node "Name") "")] made))
                  (S child_count)) as (self' & more & -> & Hall).
      eexists self', (_ :: more). simpl. rewrite <- app_assoc. simpl.
      rewrite Nat.add_succ_r. split; [done|]. by constructor.
    + rewrite Hdrop by done.
      destruct (IH self subnodes (S child_count)) as (self' & more & -> & Hall).
      exists self', more. simpl. rewrite Nat.add_succ_r. by split.
Qed.

(** X2. The destination folder of a named source folder holds one node
    for each child node of the source that [emits], in source order and
    under the name and type of that child, while [COUNT] is the number of
    all child nodes of the source: [COUNT] exceeds the number of nodes in
    the folder by the number of children that were dropped. *)
Theorem folder_holds_the_emitting_children rekordbox_node self parent_subnodes name :
  get_attribute rekordbox_node "Name" = Some name → name ≠ "" →
  get_attribute rekordbox_node "Type" = Some "0" →
  ∃ self' made,
    process_playlist_node rekordbox_node self parent_subnodes
    = (self',
       SubElement parent_subnodes
         (Elem "NODE" [("TYPE", "FOLDER"); ("NAME", name)]
            [Elem "SUBNODES"
               [("COUNT", str_nat (length (findall rekordbox_node "NODE")))] made]))
    ∧ Forall2 (λ node c,
                 tag c = "NODE"
                 ∧ attrib c = [("TYPE", destination_type node);
                               ("NAME", or_str (get_attribute node "Name") "")])
        (List.filter emits (findall rekordbox_node "NODE")) made
    ∧ length (findall rekordbox_node "NODE")
      = length made
        + length (List.filter (λ node, negb (emits node)) (findall rekordbox_node "NODE")).
Proof.
  intros Hname Hne Htype. rewrite process_playlist_node_unfold. cbn zeta.
  rewrite Hname, Htype. simpl. apply String.eqb_neq in Hne as ->. simpl.
  destruct (process_nodes_made (findall rekordbox_node "NODE") self
              (Elem "SUBNODES" [] []) 0) as (self' & made & -> & Hall).
  exists self', made. split; [done|]. split; [done|].
  rewrite <- (Forall2_length _ _ _ Hall).
  generalize (findall rekordbox_node "NODE"). intros l.
  induction l as [|n l IH]; simpl; [done|]. destruct (emits n); simpl; lia.
Qed.

End Emission.

(** ** The tree that is written *)

Section Written.
Context {float_impl : PyFloat} {utils_impl : Utils} {uuid4_impl : Uuid4}.

(** The state of [convert_xml_to_nml] when [process_playlists] is called:
    the track list holds the path of every [TRACK] node of the source in
    document order, the table is what [remember] built from them, and the
    root holds the head, the filled collection and the sets.  The tree that
    is written is the root after [process_playlists], with the index. *)
Lemma convert_xml_to_nml_parts self xml_root final :
  convert_xml_to_nml self xml_root = Some final →
  ∃ self0 self1 collection self2 self3 written,
    process_entries self0 (add_collection (findall_deep xml_root "TRACK"))
      (findall_deep xml_root "TRACK") = Some (self1, collection)
    ∧ tracks self2 = file_path <$> findall_deep xml_root "TRACK"
    ∧ track_id_map self2 = foldl remember ∅ (findall_deep xml_root "TRACK")
    ∧ root self2
      = Some (Elem "NML" [("VERSION", "20")]
                [Elem "HEAD"
                   [("COMPANY", "www.native-instruments.com");
                    ("PROGRAM", "Traktor Pro 4")] [];
                 collection;
                 Elem "SETS" [("ENTRIES", "0")] []])
    ∧ process_playlists self2 xml_root = Some self3
    ∧ root self3 = Some written
    ∧ root final = Some (SubElement written (Elem "INDEXING" [] [])).
Proof.
  unfold convert_xml_to_nml. cbn zeta. intros Hc.
  match type of Hc with (?head ≫= _) = _ => destruct head as [s0|] eqn:Hhead end; [|done].
  cbn [mbind option_bind] in Hc.
  match type of Hc with (process_entries ?s ?c ?l ≫= _) = _ =>
    destruct (process_entries s c l) as [[s1 coll]|] eqn:Hloop end; [|done].
  cbn [mbind option_bind] in Hc.
  destruct (root_append s1 coll) as [s2|] eqn:Hroot; [|done].
  cbn [mbind option_bind] in Hc.
  destruct (add_sets s2) as [s3|] eqn:Hsets; [|done].
  cbn [mbind option_bind] in Hc.
  destruct (process_playlists s3 xml_root) as [s4|] eqn:Hpl; [|done].
  cbn [mbind option_bind] in Hc.
  destruct (process_entries_result _ _ _ _ _ Hloop) as (Hmap & Htracks & Hr1 & _).
  injection Hhead as <-. simpl in Hr1, Hmap, Htracks.
  unfold root_append in Hroot. rewrite Hr1 in Hroot. injection Hroot as <-.
  unfold add_sets, root_append in Hsets. simpl in Hsets. injection Hsets as <-.
  unfold add_indexing, root_append in Hc.
  destruct (root s4) as [written|] eqn:Hw; [|done]. injection Hc as <-.
  match type of Hpl with
  | process_playlists ?s _ = _ => eexists _, s1, coll, s, s4, written
  end.
  split; [exact Hloop|]. split; [exact Htracks|]. split; [exact Hmap|].
  split; [done|]. split; [exact Hpl|]. by split.
Qed.

(** The [PLAYLISTS] section that [add_default_playlist] attaches: the
    root folder with one playlist, "collection", that lists [tracks]. *)
Definition default_section (tracks : list string) (uuid : string) : Element :=
  Elem "PLAYLISTS" []
    [Elem "NODE" [("TYPE", "FOLDER"); ("NAME", "$ROOT")]
       [Elem "SUBNODES" [("COUNT", "1")]
          [Elem "NODE" [("TYPE", "PLAYLIST"); ("NAME", "collection")]
             [Elem "PLAYLIST"
                [("ENTRIES", str_nat (length tracks)); ("TYPE", "LIST"); ("UUID", uuid)]
                (playlist_entry <$> tracks)]]]].

Lemma add_default_playlist_section self r self' :
  root self = Some r → add_default_playlist self = Some self' →
  root self'
  = Some (SubElement r (default_section (tracks self) (uuid4_hex (uuid_calls self)))).
Proof.
  intros Hr. unfold add_default_playlist, attach_playlists, root_append. simpl.
  rewrite Hr. simpl. by intros [= <-].
Qed.

(** What [process_playlists] attaches below the root, by the shape of the
    source: no [PLAYLISTS] child; a [PLAYLISTS] child without a [NODE]; a
    [PLAYLISTS] child whose first [NODE] is [root_node]. *)
Lemma process_playlists_sections self xml_root self' r :
  root self = Some r → process_playlists self xml_root = Some self' →
  ∃ sections,
    root self' = Some (Elem (tag r) (attrib r) (children r ++ sections))
    ∧ match find xml_root "PLAYLISTS" with
      | None =>
          sections = [default_section (tracks self) (uuid4_hex (uuid_calls self))]
      | Some playlists_section =>
          match find playlists_section "NODE" with
          | None =>
              sections
              = [Elem "PLAYLISTS" []
                   [Elem "NODE" [("TYPE", "FOLDER"); ("NAME", "$ROOT")]
                      [Elem "SUBNODES" [] []]];
                 default_section (tracks self) (uuid4_hex (uuid_calls self))]
          | Some root_node =>
              ∃ made,
                sections
                = [Elem "PLAYLISTS" []
                     [Elem "NODE" [("TYPE", "FOLDER"); ("NAME", "$ROOT")]
                        [Elem "SUBNODES"
                           [("COUNT", str_nat (length (findall root_node "NODE")))]
                           made]]]
                ∧ Forall2 (λ node c,
                             tag c = "NODE"
                             ∧ attrib c = [("TYPE", destination_type node);
                                           ("NAME", or_str (get_attribute node "Name") "")])
                    (List.filter emits (findall root_node "NODE")) made
          end
      end.
Proof.
  intros Hr. unfold process_playlists.
  destruct (find xml_root "PLAYLISTS") as [section|].
  2:{ intros Hd. rewrite (add_default_playlist_section _ _ _ Hr Hd). by eexists. }
  cbn zeta. destruct (find section "NODE") as [root_node|].
  - destruct (process_nodes_made (findall root_node "NODE") self
                (Elem "SUBNODES" [] []) 0) as (s & made & Hnodes & Hall).
    pose proof (process_nodes_only_draws (findall root_node "NODE") self
                  (Elem "SUBNODES" [] []) 0) as Hd.
    rewrite Hnodes in Hd |- *. simpl in Hd. destruct Hd as [m ->].
    { apply Forall_forall. intros node _. apply process_playlist_node_only_draws. }
    unfold attach_playlists, root_append. simpl. rewrite Hr. simpl.
    intros [= <-]. simpl. eexists. split; [done|]. by exists made.
  - unfold attach_playlists, root_append at 1. rewrite Hr. cbn [mbind option_bind].
    intros Hd.
    match type of Hd with
    | add_default_playlist ?s = _ =>
        pose proof (add_default_playlist_section s _ _ eq_refl Hd) as Hs
    end.
    rewrite Hs. unfold SubElement. simpl. rewrite <- app_assoc. simpl.
    eexists. by split.
Qed.

(** The sections of [process_playlists_sections] for a whole conversion:
    the default section lists the path of every [TRACK] node of the
    source. *)
Definition written_sections (xml_root : Element) (uuid : string)
    (sections : list Element) : Prop :=
  match find xml_root "PLAYLISTS" with
  | None =>
      sections = [default_section (file_path <$> findall_deep xml_root "TRACK") uuid]
  | Some playlists_section =>
      match find playlists_section "NODE" with
      | None =>
          sections
          = [Elem "PLAYLISTS" []
               [Elem "NODE" [("TYPE", "FOLDER"); ("NAME", "$ROOT")]
                  [Elem "SUBNODES" [] []]];
             default_section (file_path <$> findall_deep xml_root "TRACK") uuid]
      | Some root_node =>
          ∃ made,
            sections
            = [Elem "PLAYLISTS" []
                 [Elem "NODE" [("TYPE", "FOLDER"); ("NAME", "$ROOT")]
                    [Elem "SUBNODES"
                       [("COUNT", str_nat (length (findall root_node "NODE")))]
                       made]]]
            ∧ Forall2 (λ node c,
                         tag c = "NODE"
                         ∧ attrib c = [("TYPE", destination_type node);
                                       ("NAME", or_str (get_attribute node "Name") "")])
                (List.filter emits (findall root_node "NODE")) made
      end
  end.

Lemma written_tree self xml_root final :
  convert_xml_to_nml self xml_root = Some final →
  ∃ head collection sets uuid sections,
    root final
    = Some (Elem "NML" [("VERSION", "20")]
              ([head; collection; sets] ++ sections ++ [Elem "INDEXING" [] []]))
    ∧ tag head = "HEAD" ∧ tag collection = "COLLECTION" ∧ tag sets = "SETS"
    ∧ written_sections xml_root uuid sections.
Proof.
  intros Hc.
  destruct (convert_xml_to_nml_parts _ _ _ Hc)
    as (s0 & s1 & coll & s2 & s3 & written
        & Hloop & Htracks & _ & Hroot & Hpl & Hw & Hfinal).
  destruct (process_entries_result _ _ _ _ _ Hloop) as (_ & _ & _ & new & -> & _).
  destruct (process_playlists_sections _ _ _ _ Hroot Hpl) as (sections & Hs3 & Hcase).
  rewrite Hw in Hs3. injection Hs3 as ->. rewrite Htracks in Hcase.
  eexists _, _, _, (uuid4_hex (uuid_calls s2)), sections.
  split; [rewrite Hfinal; unfold SubElement; simpl; by rewrite <- ?app_assoc|].
  by repeat split.
Qed.

Lemma sections_are_playlists xml_root uuid sections :
  written_sections xml_root uuid sections →
  Forall (λ c, tag c = "PLAYLISTS") sections
  ∧ length sections
    = match find xml_root "PLAYLISTS" with
      | Some playlists_section =>
          match find playlists_section "NODE" with Some _ => 1 | None => 2 end
      | None => 1
      end.
Proof.
  unfold written_sections. destruct (find xml_root "PLAYLISTS") as [section|].
  - destruct (find section "NODE").
    + intros (made & -> & _). split; [by repeat constructor|done].
    + intros ->. split; [by repeat constructor|done].
  - intros ->. split; [by repeat constructor|done].
Qed.

Lemma tags_replicate t (l : list Element) :
  Forall (λ c, tag c = t) l → tag <$> l = replicate (length l) t.
Proof.
  induction 1 as [|c l Hc _ IH]; [done|]. by rewrite fmap_cons, Hc, IH.
Qed.

Lemma findall_written head collection sets sections :
  tag head = "HEAD" → tag collection = "COLLECTION" → tag sets = "SETS" →
  Forall (λ c, tag c = "PLAYLISTS") sections →
  findall
    (Elem "NML" [("VERSION", "20")]
       ([head; collection; sets] ++ sections ++ [Elem "INDEXING" [] []])) "PLAYLISTS"
  = sections.
Proof.
  intros Hh Hc Hs Hall. unfold findall. simpl. rewrite Hh, Hc, Hs. simpl.
  rewrite with_tag_app, (with_tag_all _ _ Hall). simpl. by rewrite app_nil_r.
Qed.

(** X3. A source without a [PLAYLISTS] child: the tree that is written
    has one [PLAYLISTS] section, the default one, whose playlist
    "collection" has an entry for every [TRACK] node of the source, in
    document order, keyed by the path built for it, and whose [ENTRIES] is
    their number. *)
Theorem no_section_gives_the_default_playlist self xml_root final :
  convert_xml_to_nml self xml_root = Some final →
  find xml_root "PLAYLISTS" = None →
  ∃ nml uuid,
    root final = Some nml
    ∧ findall nml "PLAYLISTS"
      = [default_section (file_path <$> findall_deep xml_root "TRACK") uuid].
Proof.
  intros Hc Hnone.
  destruct (written_tree _ _ _ Hc)
    as (head & coll & sets & uuid & sections & Hroot & Hh & Hco & Hs & Hcase).
  destruct (sections_are_playlists _ _ _ Hcase) as [Hall _].
  unfold written_sections in Hcase. rewrite Hnone in Hcase.
  eexists _, uuid. split; [exact Hroot|].
  by rewrite findall_written.
Qed.

(** X4. A source with a [PLAYLISTS] child that has no [NODE] child: the
    tree that is written has two [PLAYLISTS] sections, first the root
    folder with an empty [SUBNODES] that has no [COUNT], then the default
    section. *)
Theorem section_without_root_is_written_twice self xml_root final playlists_section :
  convert_xml_to_nml self xml_root = Some final →
  find xml_root "PLAYLISTS" = Some playlists_section →
  find playlists_section "NODE" = None →
  ∃ nml uuid,
    root final = Some nml
    ∧ findall nml "PLAYLISTS"
      = [Elem "PLAYLISTS" []
           [Elem "NODE" [("TYPE", "FOLDER"); ("NAME", "$ROOT")]
              [Elem "SUBNODES" [] []]];
         default_section (file_path <$> findall_deep xml_root "TRACK") uuid].
Proof.
  intros Hc Hsome Hnone.
  destruct (written_tree _ _ _ Hc)
    as (head & coll & sets & uuid & sections & Hroot & Hh & Hco & Hs & Hcase).
  destruct (sections_are_playlists _ _ _ Hcase) as [Hall _].
  unfold written_sections in Hcase. rewrite Hsome, Hnone in Hcase.
  eexists _, uuid. split; [exact Hroot|].
  by rewrite findall_written.
Qed.

(** X5. A source with a [PLAYLISTS] child that has a [NODE] child: only
    the first such child is read, and neither its name nor its type is
    looked at.  The tree that is written has one [PLAYLISTS] section, the
    root folder; it holds a node for each child node of that first [NODE]
    that [emits], in source order, and its [COUNT] is the number of all
    those child nodes. *)
Theorem root_folder_holds_the_emitting_nodes self xml_root final playlists_section
    root_node :
  convert_xml_to_nml self xml_root = Some final →
  find xml_root "PLAYLISTS" = Some playlists_section →
  find playlists_section "NODE" = Some root_node →
  ∃ nml made,
    root final = Some nml
    ∧ findall nml "PLAYLISTS"
      = [Elem "PLAYLISTS" []
           [Elem "NODE" [("TYPE", "FOLDER"); ("NAME", "$ROOT")]
              [Elem "SUBNODES"
                 [("COUNT", str_nat (length (findall root_node "NODE")))] made]]]
    ∧ Forall2 (λ node c,
                 tag c = "NODE"
                 ∧ attrib c = [("TYPE", destination_type node);
                               ("NAME", or_str (get_attribute node "Name") "")])
        (List.filter emits (findall root_node "NODE")) made.
Proof.
  intros Hc Hsome Hnode.
  destruct (written_tree _ _ _ Hc)
    as (head & coll & sets & uuid & sections & Hroot & Hh & Hco & Hs & Hcase).
  destruct (sections_are_playlists _ _ _ Hcase) as [Hall _].
  unfold written_sections in Hcase. rewrite Hsome, Hnode in Hcase.
  destruct Hcase as (made & -> & Hmade).
  eexists _, made. split; [exact Hroot|]. split; [|exact Hmade].
  by rewrite findall_written.
Qed.

(** X6. Whatever the source, the tree that is written is an [NML] node of
    version 20 with, in this order, the head, the collection, the sets,
    one playlists section (two when the source has a [PLAYLISTS] child
    without a [NODE]) and the index. *)
Theorem written_tree_has_a_fixed_shape self xml_root final :
  convert_xml_to_nml self xml_root = Some final →
  ∃ nml,
    root final = Some nml
    ∧ tag nml = "NML"
    ∧ attrib nml = [("VERSION", "20")]
    ∧ tag <$> children nml
      = ["HEAD"; "COLLECTION"; "SETS"]
        ++ replicate
             match find xml_root "PLAYLISTS" with
             | Some playlists_section =>
                 match find playlists_section "NODE" with Some _ => 1 | None => 2 end
             | None => 1
             end "PLAYLISTS"
        ++ ["INDEXING"].
Proof.
  intros Hc.
  destruct (written_tree _ _ _ Hc)
    as (head & coll & sets & uuid & sections & Hroot & Hh & Hco & Hs & Hcase).
  destruct (sections_are_playlists _ _ _ Hcase) as [Hall Hlen].
  eexists. split; [exact Hroot|]. split; [done|]. split; [done|].
  simpl. rewrite Hh, Hco, Hs, fmap_app, (tags_replicate _ _ Hall), Hlen. done.
Qed.

End Written.

(** ** The entry of a track, block by block *)

Section Blocks.
Context {float_impl : PyFloat} {utils_impl : Utils} {uuid4_impl : Uuid4}.

(** The nodes that [add_location], [add_album], [add_modification_info],
    [add_info], [add_tempo], [add_loudness] and [add_musical_key] make from
    the track information. *)
Definition location_block (info : TrackInfo) : Element :=
  let location_data := get_location (Some (info_location info)) in
  Elem "LOCATION"
    [("DIR", DIR location_data); ("FILE", FILE location_data);
     ("VOLUME", VOLUME location_data); ("VOLUMEID", VOLUME location_data)] [].

Definition album_blocks (info : TrackInfo) : list Element :=
  if String.eqb (info_album info) "" then []
  else [Elem "ALBUM" [("TITLE", info_album info)] []].

Definition modification_block : Element :=
  Elem "MODIFICATION_INFO" [("AUTHOR_TYPE", "user")] [].

Definition info_block (info : TrackInfo) (bitrate : Z) : Element :=
  let playtime := or_str (Some (info_playtime info)) "0" in
  let playtime_float :=
    match float_of_str playtime with
    | Some x => x
    | None => float_of_int 0%Z
    end in
  Elem "INFO"
    ([("BITRATE", pretty bitrate);
      ("GENRE", or_str (Some (info_genre info)) "");
      ("KEY", default "10d" (KEY_TO_CODE !! info_key info));
      ("PLAYCOUNT", or_str (Some (info_playcount info)) "0");
      ("PLAYTIME", playtime);
      ("PLAYTIME_FLOAT", format_6f playtime_float);
      ("RANKING", or_str (Some (info_ranking info)) "0");
      ("IMPORT_DATE", or_str (info_import_date info) "");
      ("LAST_PLAYED", or_str (info_last_played info) "");
      ("FLAGS", "12");
      ("COLOR", or_str (info_color info) "")]
       ++ (if String.eqb (info_comments info) "" then []
           else [("COMMENT", info_comments info)])) [].

Definition tempo_block (info : TrackInfo) : Element :=
  Elem "TEMPO" [("BPM", format_6f (info_bpm info)); ("BPM_QUALITY", "100.000000")] [].

Definition loudness_block : Element :=
  Elem "LOUDNESS"
    [("PEAK_DB", "-1.0"); ("PERCEIVED_DB", "-1.0"); ("ANALYZED_DB", "-1.0")] [].

Definition key_block (info : TrackInfo) : Element :=
  Elem "MUSICAL_KEY" [("VALUE", info_key info)] [].

(** The blocks before the cues, in the order of [process_track]. *)
Definition fixed_blocks (info : TrackInfo) (bitrate : Z) : list Element :=
  location_block info :: album_blocks info
    ++ [modification_block; info_block info bitrate; tempo_block info;
        loudness_block; key_block info].

Lemma append_children_eq self t new :
  track self = Some t →
  append_children self new
  = Some (with_track self (Some (Elem (tag t) (attrib t) (children t ++ new)))).
Proof. intros Ht. unfold append_children. by rewrite Ht. Qed.

Lemma append_children_with_track self t a c new :
  append_children (with_track self (Some (Elem t a c))) new
  = Some (with_track self (Some (Elem t a (c ++ new)))).
Proof. reflexivity. Qed.

Lemma add_location_block self info :
  track_info self = Some info →
  add_location self = append_children self [location_block info].
Proof. intros Hinfo. unfold add_location. by rewrite Hinfo. Qed.

Lemma add_album_block self info :
  is_Some (track self) → track_info self = Some info →
  add_album self = append_children self (album_blocks info).
Proof.
  intros [t Ht] Hinfo. unfold add_album, album_blocks. rewrite Hinfo.
  cbn [mbind option_bind]. destruct (String.eqb (info_album info) ""); [|done].
  symmetry. by eapply append_children_nil.
Qed.

Lemma add_info_block self info :
  track_info self = Some info →
  add_info self
  = bitrate ← int_of_float (info_bitrate info);
    append_children self [info_block info bitrate].
Proof.
  intros Hinfo. unfold add_info. rewrite Hinfo. cbn [mbind option_bind].
  destruct (int_of_float (info_bitrate info)) as [bitrate|]; [|done].
  cbn [mbind option_bind]. rewrite track_append_children. unfold info_block.
  destruct (String.eqb (info_comments info) ""); [|done].
  by rewrite app_nil_r.
Qed.

Lemma add_musical_key_block self info :
  track_info self = Some info →
  add_musical_key self = append_children self [key_block info].
Proof. intros Hinfo. unfold add_musical_key. by rewrite Hinfo. Qed.

(** The calls of [process_track] from [add_location] to [add_musical_key]
    return exactly when [int] accepts the bit rate, and then add the fixed
    blocks. *)
Lemma fixed_blocks_added {A} self info t (k : Rekordbox2Traktor → option A) :
  track_info self = Some info →
  (self ← add_location (with_track self (Some t)); self ← add_album self;
   self ← add_modification_info self; self ← add_info self;
   self ← add_tempo self; self ← add_loudness self;
   self ← add_musical_key self; k self)
  = bitrate ← int_of_float (info_bitrate info);
    self ← append_children (with_track self (Some t)) (fixed_blocks info bitrate);
    k self.
Proof.
  intros Hinfo. destruct t as [t a c].
  erewrite add_location_block; [|exact Hinfo]. rewrite append_children_with_track.
  cbn [mbind option_bind].
  erewrite add_album_block; [|by eexists|exact Hinfo].
  rewrite append_children_with_track.
  cbn [mbind option_bind].
  unfold add_modification_info.
  rewrite track_append_children, append_children_with_track.
  cbn [mbind option_bind].
  erewrite add_info_block; [|exact Hinfo].
  destruct (int_of_float (info_bitrate info)) as [bitrate|]; [|done].
  cbn [mbind option_bind]. rewrite append_children_with_track.
  cbn [mbind option_bind].
  erewrite add_tempo_adds; [|exact Hinfo]. rewrite append_children_with_track.
  cbn [mbind option_bind].
  unfold add_loudness. rewrite track_append_children, append_children_with_track.
  cbn [mbind option_bind].
  erewrite add_musical_key_block; [|exact Hinfo]. rewrite !append_children_with_track.
  cbn [mbind option_bind].
  do 4 f_equal. unfold fixed_blocks. rewrite <- !app_assoc. reflexivity.
Qed.

(** [process_track], with the seven calls that add the fixed blocks put
    together. *)
Lemma process_track_blocks self e :
  process_track self e
  = let self := set_track_info (reset_track self) e in
    entry ← add_entry self;
    info ← track_info self;
    bitrate ← int_of_float (info_bitrate info);
    self ← append_children (with_track self (Some entry)) (fixed_blocks info bitrate);
    self ← process_tempo self e;
    self ← process_cues self e;
    Some (self, true).
Proof.
  unfold process_track. cbn zeta.
  set (self0 := set_track_info (reset_track self) e).
  destruct (add_entry self0) as [entry|]; [|done]. cbn [mbind option_bind].
  destruct (track_info self0) as [info|] eqn:Hinfo; [|done].
  cbn [mbind option_bind].
  by apply (fixed_blocks_added self0 info entry).
Qed.

(** *** When [process_track] returns *)

(** What can stop [process_track] on a source track: the bit rate that
    [int] must accept, the [TEMPO] nodes that [tempo_marker] must read, the
    position marks that [add_cue] must read.  None of it depends on the
    converter. *)
Definition bitrate_readable (e : Element) : Prop :=
  is_Some (info ← track_info (set_track_info init e); int_of_float (info_bitrate info)).

Definition tempo_readable (e tempo : Element) : Prop :=
  is_Some (tempo_marker (set_track_info init e) tempo).

Definition readable_track (e : Element) : Prop :=
  bitrate_readable e
  ∧ Forall (tempo_readable e) (findall e "TEMPO")
  ∧ Forall readable_mark (translated_marks e).

Lemma tempo_marker_bpm self1 self2 info1 info2 tempo :
  track_info self1 = Some info1 → track_info self2 = Some info2 →
  info_bpm info1 = info_bpm info2 →
  tempo_marker self1 tempo = tempo_marker self2 tempo.
Proof.
  intros H1 H2 Hbpm. unfold tempo_marker. rewrite H1, H2.
  destruct (truthy (get_attribute tempo "Bpm")); [done|].
  cbn [mbind option_bind]. by rewrite Hbpm.
Qed.

Lemma process_tempo_returns self e :
  is_Some (track self) → is_Some (track_info self) →
  Forall (λ tempo, is_Some (tempo_marker self tempo)) (findall e "TEMPO")
  ↔ is_Some (process_tempo self e).
Proof.
  intros [t Ht] [info Hinfo]. split.
  - intros Hall.
    assert (∃ markers, Forall2 (λ tempo m, tempo_marker self tempo = Some m)
                         (findall e "TEMPO") markers) as [markers Hmarkers].
    { induction Hall as [|tempo l [m Hm] _ [ms IH]]; [by exists []|].
      exists (m :: ms). by constructor. }
    destruct (findall e "TEMPO") as [|tempo [|tempo' rest]] eqn:He.
    + rewrite (process_tempo_no_marker self e t info Ht Hinfo He).
      rewrite (append_children_eq _ _ _ Ht). by eexists.
    + apply Forall2_cons_inv_l in Hmarkers as (m & ms & Hm & _ & _).
      rewrite (process_tempo_one_marker self e t tempo m Ht He Hm).
      rewrite (append_children_eq _ _ _ Ht). by eexists.
    + unfold process_tempo. rewrite He.
      rewrite (process_tempo_loop_adds _ self 0 t markers Ht Hmarkers).
      rewrite (append_children_eq _ _ _ Ht). by eexists.
  - intros [self' Hp]. unfold process_tempo in Hp.
    destruct (findall e "TEMPO") as [|tempo [|tempo' rest]] eqn:He.
    + constructor.
    + destruct (tempo_marker self tempo) as [m|] eqn:Hm; [|done].
      repeat constructor. by rewrite Hm.
    + destruct (process_tempo_loop_read _ _ _ _ Hp) as [markers Hall]; [by eauto|].
      eapply Forall2_Forall_l; [exact Hall|]. apply Forall_true. intros m tempo0 ->.
      by eexists.
Qed.

Lemma add_cue_readable self position_mark result :
  add_cue self position_mark = Some result → readable_mark position_mark.
Proof.
  intros Ha. destruct result as [self' cue].
  destruct (add_cue_adds _ _ _ _ Ha) as (s1 & Hs1 & _).
  destruct (append_children_Some _ _ _ Hs1) as (t & Ht & _).
  apply (add_cue_returns self position_mark); by eauto.
Qed.

Lemma cues_from_readable position_marks : ∀ i cs,
  cues_from i position_marks cs → Forall readable_mark position_marks.
Proof.
  induction position_marks as [|pm rest IH]; intros i [|c cs]; simpl; try done.
  intros [(s & s' & _ & Ha) Hrest]. constructor; [|by eapply IH].
  by eapply add_cue_readable.
Qed.

Lemma process_cues_returns self e :
  is_Some (track self) →
  Forall readable_mark (translated_marks e) ↔ is_Some (process_cues self e).
Proof.
  intros Ht. unfold process_cues, translated_marks. split.
  - by apply process_cues_loop_returns.
  - intros [self' Hp].
    destruct (process_cues_loop_adds _ _ _ Hp Ht) as (cs & s1 & _ & _ & _ & Hfrom).
    by eapply cues_from_readable.
Qed.

(** *** The entry that [process_track] builds *)

(** The beat grid of a track, which [process_tempo] adds: the default grid
    at 0 with the tempo of the track when the source has no [TEMPO] node,
    the grid of the markers otherwise (one marker makes a beat marker and
    the anchor, as the first of several does). *)
Definition track_grid (self : Rekordbox2Traktor) (e : Element)
  : option (list Element) :=
  match findall e "TEMPO" with
  | [] =>
      info ← track_info self;
      Some [beatmarker_cue (Int 0%Z) (info_bpm info) true; autogrid_cue (Int 0%Z)]
  | tempo_elements => grid_cues <$> mapM (tempo_marker self) tempo_elements
  end.

Lemma process_tempo_grid self e self' :
  process_tempo self e = Some self' →
  ∃ grid, track_grid self e = Some grid ∧ append_children self grid = Some self'.
Proof.
  intros Hp. destruct (process_tempo_track _ _ _ Hp) as [t Ht]. unfold track_grid.
  destruct (findall e "TEMPO") as [|tempo [|tempo' rest]] eqn:He.
  - destruct (track_info self) as [info|] eqn:Hinfo.
    + rewrite (process_tempo_no_marker self e t info Ht Hinfo He) in Hp. by eexists.
    + unfold process_tempo in Hp. by rewrite He, Hinfo in Hp.
  - destruct (tempo_marker self tempo) as [m|] eqn:Hm.
    + rewrite (process_tempo_one_marker self e t tempo m Ht He Hm) in Hp.
      exists [beatmarker_cue m.1 m.2 true; autogrid_cue m.1]. split; [|done].
      cbn [mapM]. rewrite Hm. done.
    + unfold process_tempo in Hp. by rewrite He, Hm in Hp.
  - unfold process_tempo in Hp. rewrite He in Hp.
    destruct (process_tempo_loop_read _ _ _ _ Hp) as [markers Hall]; [by eauto|].
    rewrite (process_tempo_loop_adds _ self 0 t markers Ht Hall) in Hp.
    exists (grid_cues markers). split; [|by rewrite <- loop_cues_grid_cues].
    apply mapM_Some in Hall. by rewrite Hall.
Qed.

Lemma track_grid_cues self e grid :
  track_grid self e = Some grid →
  Forall (λ c, tag c = "CUE_V2") grid
  ∧ length grid = S (Nat.max 1 (length (findall e "TEMPO"))).
Proof.
  unfold track_grid. destruct (findall e "TEMPO") as [|tempo rest] eqn:He.
  - destruct (track_info self) as [info|]; [|done]. intros [= <-].
    split; [by repeat constructor|done].
  - intros Hg. apply fmap_Some in Hg as (markers & Hm & ->).
    apply mapM_Some, Forall2_length in Hm. destruct markers as [|m ms]; [done|].
    simpl in Hm. injection Hm as Hm. split.
    + repeat constructor. apply Forall_fmap. by apply Forall_true.
    + simpl. rewrite length_fmap, <- Hm. done.
Qed.

(** The [ENTRY] that [add_entry] makes, with its children. *)
Definition entry_of (info : TrackInfo) (new : list Element) : Element :=
  Elem "ENTRY"
    [("MODIFIED_DATE", or_str (info_modif_date info) today);
     ("MODIFIED_TIME", "0");
     ("AUDIO_ID", generate_audio_id);
     ("TITLE", info_title info);
     ("ARTIST", info_artist info)] new.

(** What [process_track] returns: the converter after [reset_track] and
    [set_track_info], with the finished entry in [self.track] and
    [cue_index] advanced once for each cue of a position mark. *)
Lemma process_track_entry self e self' ok :
  process_track self e = Some (self', ok) →
  ∃ info bitrate grid cs,
    track_info (set_track_info (reset_track self) e) = Some info
    ∧ int_of_float (info_bitrate info) = Some bitrate
    ∧ track_grid (set_track_info (reset_track self) e) e = Some grid
    ∧ cues_from 1 (translated_marks e) cs
    ∧ Forall (λ c, tag c = "CUE_V2") cs
    ∧ self'
      = with_cue_index
          (with_track (set_track_info (reset_track self) e)
             (Some (entry_of info (fixed_blocks info bitrate ++ grid ++ cs))))
          (1 + length cs)
    ∧ ok = true.
Proof.
  rewrite process_track_blocks. cbn zeta.
  set (self0 := set_track_info (reset_track self) e).
  assert (∃ info, track_info self0 = Some info) as [info Hinfo] by (by eexists).
  unfold add_entry. rewrite Hinfo. cbn [mbind option_bind].
  destruct (int_of_float (info_bitrate info)) as [bitrate|] eqn:Hrate; [|done].
  cbn [mbind option_bind]. rewrite append_children_with_track.
  cbn [mbind option_bind app].
  match goal with |- (process_tempo ?s e ≫= _) = _ → _ => set (s1 := s) end.
  destruct (process_tempo s1 e) as [s2|] eqn:Htempo; [|done].
  cbn [mbind option_bind].
  destruct (process_cues s2 e) as [s3|] eqn:Hcues; [|done].
  cbn [mbind option_bind]. intros [= <- <-].
  destruct (process_tempo_grid _ _ _ Htempo) as (grid & Hgrid & Hs2).
  unfold process_cues in Hcues.
  destruct (process_cues_loop_adds _ _ _ Hcues) as (cs & s4 & Hs4 & -> & Htags & Hfrom);
    [by eapply append_children_track|].
  exists info, bitrate, grid, cs.
  split; [done|]. split; [done|]. split; [exact Hgrid|].
  unfold s1 in Hs2. rewrite append_children_with_track in Hs2. injection Hs2 as <-.
  rewrite append_children_with_track in Hs4. injection Hs4 as <-.
  split; [exact Hfrom|]. split; [done|]. split; [|done].
  unfold entry_of, fixed_blocks. cbn [app]. rewrite <- !app_assoc. reflexivity.
Qed.

Lemma eqb_or_str v : String.eqb (or_str v "") "" = negb (truthy v).
Proof.
  destruct v as [x|]; [|done]. simpl. by destruct (String.eqb x "") eqn:Ex.
Qed.

Lemma or_str_again v d : or_str (Some (or_str v d)) d = or_str v d.
Proof.
  destruct v as [x|]; simpl.
  - destruct (String.eqb x "") eqn:Ex; [|by rewrite Ex].
    by destruct (String.eqb d "").
  - by destruct (String.eqb d "").
Qed.

Lemma fixed_blocks_tags info bitrate :
  tag <$> fixed_blocks info bitrate
  = "LOCATION" :: (if String.eqb (info_album info) "" then [] else ["ALBUM"])
      ++ ["MODIFICATION_INFO"; "INFO"; "TEMPO"; "LOUDNESS"; "MUSICAL_KEY"].
Proof.
  unfold fixed_blocks, album_blocks. by destruct (String.eqb (info_album info) "").
Qed.

Lemma fixed_blocks_no_cue info bitrate : with_tag "CUE_V2" (fixed_blocks info bitrate) = [].
Proof.
  unfold fixed_blocks, album_blocks. by destruct (String.eqb (info_album info) "").
Qed.

Lemma with_tag_cues t (l : list Element) :
  t ≠ "CUE_V2" → Forall (λ c, tag c = "CUE_V2") l → with_tag t l = [].
Proof.
  intros Ht Hl. apply with_tag_none. eapply Forall_impl; [exact Hl|].
  intros c Hc. by rewrite Hc.
Qed.

(** The cues of an entry are what follows the fixed blocks; the fixed
    blocks are found among themselves. *)
Lemma findall_entry_cues info bitrate (rest : list Element) :
  Forall (λ c, tag c = "CUE_V2") rest →
  findall (entry_of info (fixed_blocks info bitrate ++ rest)) "CUE_V2" = rest.
Proof.
  intros Hrest. unfold findall, entry_of. cbn [children].
  by rewrite with_tag_app, fixed_blocks_no_cue, with_tag_all.
Qed.

Lemma findall_entry_block info bitrate (rest : list Element) t :
  t ≠ "CUE_V2" → Forall (λ c, tag c = "CUE_V2") rest →
  findall (entry_of info (fixed_blocks info bitrate ++ rest)) t
  = with_tag t (fixed_blocks info bitrate).
Proof.
  intros Ht Hrest. unfold findall, entry_of. cbn [children].
  by rewrite with_tag_app, (with_tag_cues t rest Ht Hrest), app_nil_r.
Qed.

(** What [add_cue] makes of a position mark: the seven attributes, and
    the colour annotation when the mark has [Red], [Green] and [Blue]. *)
Lemma add_cue_node self position_mark self' cue :
  add_cue self position_mark = Some (self', cue) →
  ∃ start_ms loop_length,
    sec_2_ms (SecondsStr (get_attribute position_mark "Start")) = Some start_ms
    ∧ let plain :=
        Elem "CUE_V2"
          [("NAME", or_str (get_attribute position_mark "Name") "n.n.");
           ("DISPL_ORDER", "0");
           ("TYPE", get_cue_type (get_attribute position_mark "Type"));
           ("START", format_number_6f start_ms);
           ("LEN", format_number_6f loop_length);
           ("REPEATS", "-1");
           ("HOTCUE", hotcue_slot (get_attribute position_mark "Num") (cue_index self))]
          [] in
      cue = if truthy (get_attribute position_mark "Red")
               && truthy (get_attribute position_mark "Green")
               && truthy (get_attribute position_mark "Blue")
            then set_cue_color plain
                   (or_str (get_attribute position_mark "Red") "")
                   (or_str (get_attribute position_mark "Green") "")
                   (or_str (get_attribute position_mark "Blue") "")
            else plain.
Proof.
  unfold add_cue. intros Ha.
  destruct (sec_2_ms (SecondsStr (get_attribute position_mark "Start")))
    as [start_ms|]; [|done]. cbn [mbind option_bind] in Ha.
  match type of Ha with (?len ≫= _) = _ => destruct len as [loop_length|] end; [|done].
  cbn [mbind option_bind] in Ha.
  match type of Ha with (track_append _ ?c ≫= _) = _ => set (c0 := c) in * end.
  destruct (track_append self c0) as [self1|]; [|done].
  cbn [mbind option_bind] in Ha. injection Ha as <- <-.
  by exists start_ms, loop_length.
Qed.

(** X7. What [process_track] leaves of the converter's own fields.  When
    it returns, the flag is [True]; the list of paths, the table of
    identifiers and the number of tracks done are as before the call, for
    it is the track loop that changes them; [cue_index] is 1 plus the
    number of position marks that were translated; and one identifier was
    drawn exactly when the track has no [TrackId]. *)
Theorem process_track_keeps_paths_and_table self e self' ok :
  process_track self e = Some (self', ok) →
  ok = true
  ∧ tracks self' = tracks self
  ∧ track_id_map self' = track_id_map self
  ∧ track_index self' = track_index self
  ∧ cue_index self' = 1 + length (translated_marks e)
  ∧ uuid_calls self'
    = if truthy (get_attribute e "TrackId") then uuid_calls self
      else S (uuid_calls self).
Proof.
  intros Hp.
  destruct (process_track_entry _ _ _ _ Hp)
    as (info & bitrate & grid & cs & _ & _ & _ & Hfrom & _ & -> & ->).
  repeat split. cbn [cue_index with_cue_index].
  by rewrite (cues_from_length _ _ _ Hfrom).
Qed.

(** X8. The children of a finished entry come in a fixed order: [LOCATION],
    [ALBUM] exactly when the track has a non-empty [Album] (and then with
    that album as [TITLE]), [MODIFICATION_INFO], [INFO], [TEMPO],
    [LOUDNESS], [MUSICAL_KEY], and then only cues: the beat grid (one marker
    for each [TEMPO] node of the source, at least one, and the grid anchor)
    followed by one cue for each position mark that is not named
    "AutoGrid". *)
Theorem entry_children_come_in_a_fixed_order self e self' ok :
  process_track self e = Some (self', ok) →
  ∃ entry,
    track self' = Some entry
    ∧ tag entry = "ENTRY"
    ∧ tag <$> children entry
      = ["LOCATION"]
          ++ (if truthy (get_attribute e "Album") then ["ALBUM"] else [])
          ++ ["MODIFICATION_INFO"; "INFO"; "TEMPO"; "LOUDNESS"; "MUSICAL_KEY"]
          ++ replicate (S (Nat.max 1 (length (findall e "TEMPO")))
                        + length (translated_marks e)) "CUE_V2"
    ∧ findall entry "ALBUM"
      = if truthy (get_attribute e "Album")
        then [Elem "ALBUM" [("TITLE", or_str (get_attribute e "Album") "")] []]
        else [].
Proof.
  intros Hp.
  destruct (process_track_entry _ _ _ _ Hp)
    as (info & bitrate & grid & cs & Hinfo & _ & Hgrid & Hfrom & Htags & -> & _).
  destruct (track_grid_cues _ _ _ Hgrid) as [Hgtags Hglen].
  assert (info_album info = or_str (get_attribute e "Album") "") as Halbum
    by (by injection Hinfo as <-).
  eexists. split; [reflexivity|]. split; [done|]. split.
  - unfold entry_of. cbn [children].
    rewrite !fmap_app, fixed_blocks_tags.
    rewrite (tags_replicate _ _ Hgtags), (tags_replicate _ _ Htags).
    rewrite Hglen, (cues_from_length _ _ _ Hfrom), replicate_add.
    rewrite Halbum, eqb_or_str.
    destruct (truthy (get_attribute e "Album")); reflexivity.
  - rewrite findall_entry_block; [|done|by apply Forall_app].
    unfold fixed_blocks, album_blocks. rewrite Halbum, eqb_or_str.
    destruct (truthy (get_attribute e "Album")); reflexivity.
Qed.

(** X9. A track without [TEMPO] node gets the default beat grid: a beat
    marker named "AutoGrid" at "0.000000" whose tempo is the tempo of the
    entry's [TEMPO] block, and the grid anchor at "0.000000".  They are the
    first cues of the entry. *)
Theorem track_without_tempo_node_gets_a_grid_at_zero self e self' ok :
  process_track self e = Some (self', ok) →
  findall e "TEMPO" = [] →
  ∃ entry bpm cs,
    track self' = Some entry
    ∧ findall entry "TEMPO" = [Elem "TEMPO" [("BPM", bpm); ("BPM_QUALITY", "100.000000")] []]
    ∧ findall entry "CUE_V2"
      = Elem "CUE_V2"
          [("NAME", "AutoGrid"); ("DISPL_ORDER", "0"); ("TYPE", "4");
           ("START", "0.000000"); ("LEN", "0.000000");
           ("REPEATS", "-1"); ("HOTCUE", "-1")]
          [Elem "GRID" [("BPM", bpm)] []]
        :: Elem "CUE_V2"
             [("NAME", "AutoGrid"); ("DISPL_ORDER", "0"); ("TYPE", "0");
              ("START", "0.000000"); ("LEN", "0.000000");
              ("REPEATS", "-1"); ("HOTCUE", "0"); ("COLOR", "#FFFFFF")] []
        :: cs
    ∧ length cs = length (translated_marks e).
Proof.
  intros Hp He.
  destruct (process_track_entry _ _ _ _ Hp)
    as (info & bitrate & grid & cs & Hinfo & _ & Hgrid & Hfrom & Htags & -> & _).
  unfold track_grid in Hgrid. rewrite He, Hinfo in Hgrid.
  cbn [mbind option_bind] in Hgrid. injection Hgrid as <-.
  exists (entry_of info
            (fixed_blocks info bitrate
               ++ [beatmarker_cue (Int 0%Z) (info_bpm info) true; autogrid_cue (Int 0%Z)]
               ++ cs)), (format_6f (info_bpm info)), cs.
  split; [reflexivity|]. split.
  { rewrite findall_entry_block; [|done|by repeat constructor].
    unfold fixed_blocks, album_blocks. by destruct (String.eqb (info_album info) ""). }
  split; [|by eapply cues_from_length].
  rewrite findall_entry_cues; [|by repeat constructor].
  unfold beatmarker_cue, autogrid_cue, format_number_6f. by rewrite format_6f_0.
Qed.

(** X10. A track with one [TEMPO] node gets a beat marker named "AutoGrid"
    and the grid anchor, both at the start of that node, as the first cues
    of its entry.  The tempo of the marker is the node's [Bpm], or the tempo
    of the track when the node has none. *)
Theorem single_tempo_node_anchors_the_grid self e self' ok tempo :
  process_track self e = Some (self', ok) →
  findall e "TEMPO" = [tempo] →
  ∃ entry start_ms bpm cs,
    track self' = Some entry
    ∧ tempo_marker (set_track_info init e) tempo = Some (start_ms, bpm)
    ∧ findall entry "CUE_V2"
      = beatmarker_cue start_ms bpm true :: autogrid_cue start_ms :: cs
    ∧ length cs = length (translated_marks e).
Proof.
  intros Hp He.
  destruct (process_track_entry _ _ _ _ Hp)
    as (info & bitrate & grid & cs & Hinfo & _ & Hgrid & Hfrom & Htags & -> & _).
  unfold track_grid in Hgrid. rewrite He in Hgrid. cbn [mapM] in Hgrid.
  destruct (tempo_marker (set_track_info (reset_track self) e) tempo)
    as [[start_ms bpm]|] eqn:Hm; [|done].
  cbn [mbind option_bind mret option_ret fmap option_fmap option_map] in Hgrid.
  injection Hgrid as <-.
  eexists _, start_ms, bpm, cs. split; [reflexivity|]. split.
  { rewrite <- Hm. eapply tempo_marker_bpm; reflexivity. }
  split; [|by eapply cues_from_length].
  rewrite findall_entry_cues; [done|by repeat constructor].
Qed.

(** X11. For a track with a non-empty [Location], the path under which the
    track is listed and referenced by playlists is the one its [LOCATION]
    block spells out: [VOLUME], [DIR] and [FILE] of the block, joined in
    this order.  [VOLUMEID] repeats [VOLUME]. *)
Theorem location_block_spells_the_playlist_key self e self' ok :
  process_track self e = Some (self', ok) →
  truthy (get_attribute e "Location") = true →
  ∃ entry dir file volume,
    track self' = Some entry
    ∧ findall entry "LOCATION"
      = [Elem "LOCATION"
           [("DIR", dir); ("FILE", file); ("VOLUME", volume); ("VOLUMEID", volume)] []]
    ∧ file_path e = volume +:+ dir +:+ file.
Proof.
  intros Hp Hloc.
  destruct (process_track_entry _ _ _ _ Hp)
    as (info & bitrate & grid & cs & Hinfo & _ & Hgrid & Hfrom & Htags & -> & _).
  destruct (track_grid_cues _ _ _ Hgrid) as [Hgtags _].
  eexists _, _, _, _. split; [reflexivity|]. split.
  { rewrite findall_entry_block; [|done|by apply Forall_app].
    unfold fixed_blocks, album_blocks, location_block.
    by destruct (String.eqb (info_album info) ""). }
  injection Hinfo as <-. cbn [info_location]. unfold file_path, safe_get_attr.
  destruct (truthy_Some _ Hloc) as (x & Hx & _ & Hor). by rewrite Hor, Hx.
Qed.

(** X12. The [INFO] block of an entry: [BITRATE] is the bit rate of the
    source (320 when it is missing or cannot be read) times 1000, cut to an
    integer; [KEY] is the code of the musical key, "10d" for a key without
    code; [PLAYTIME] repeats [TotalTime] ("0" when it is missing) even when
    it is no number, in which case [PLAYTIME_FLOAT] is "0.000000";
    [COMMENT] is there exactly when the track has a non-empty
    [Comments]. *)
Theorem info_block_of_a_track self e self' ok :
  process_track self e = Some (self', ok) →
  ∃ entry node bitrate,
    track self' = Some entry
    ∧ findall entry "INFO" = [node]
    ∧ int_of_float
        (float_mul (safe_float (safe_get_attr e "BitRate" "320") (float_of_int 320%Z))
           (float_of_int 1000%Z)) = Some bitrate
    ∧ attrib_get (attrib node) "BITRATE" = Some (pretty bitrate)
    ∧ attrib_get (attrib node) "KEY"
      = Some (default "10d"
                (KEY_TO_CODE !! get_tonalikey (safe_get_attr e "Tonality" "")))
    ∧ attrib_get (attrib node) "PLAYTIME" = Some (safe_get_attr e "TotalTime" "0")
    ∧ (float_of_str (safe_get_attr e "TotalTime" "0") = None →
       attrib_get (attrib node) "PLAYTIME_FLOAT" = Some "0.000000")
    ∧ attrib_get (attrib node) "COMMENT"
      = if truthy (get_attribute e "Comments") then get_attribute e "Comments"
        else None.
Proof.
  intros Hp.
  destruct (process_track_entry _ _ _ _ Hp)
    as (info & bitrate & grid & cs & Hinfo & Hrate & Hgrid & Hfrom & Htags & -> & _).
  destruct (track_grid_cues _ _ _ Hgrid) as [Hgtags _].
  exists (entry_of info (fixed_blocks info bitrate ++ grid ++ cs)),
    (info_block info bitrate), bitrate.
  split; [reflexivity|]. split.
  { rewrite findall_entry_block; [|done|by apply Forall_app].
    unfold fixed_blocks, album_blocks. by destruct (String.eqb (info_album info) ""). }
  injection Hinfo as <-. cbn [info_bitrate] in Hrate.
  split; [exact Hrate|]. split; [done|]. split; [done|].
  unfold info_block. cbn [attrib info_playtime info_comments]. unfold safe_get_attr.
  rewrite or_str_again, eqb_or_str. split; [done|]. split.
  - intros Hnone. rewrite Hnone.
    destruct (truthy (get_attribute e "Comments")); cbn [negb app attrib_get String.eqb];
      by rewrite format_6f_0.
  - destruct (truthy (get_attribute e "Comments")) eqn:Hc.
    + destruct (truthy_Some _ Hc) as (x & Hx & _ & Hor). by rewrite Hor, Hx.
    + done.
Qed.

(** What the cue of a position mark says about the mark: its name
    ("n.n." for a mark without name), the cue type of its [Type], its
    start in milliseconds ("0.000000" for a mark without [Start]); and
    without all of [Red], [Green] and [Blue] the cue has the seven
    attributes of [add_cue] only, and no child. *)
Definition labelled_as (position_mark cue : Element) : Prop :=
  tag cue = "CUE_V2"
  ∧ attrib_get (attrib cue) "NAME"
    = Some (or_str (get_attribute position_mark "Name") "n.n.")
  ∧ attrib_get (attrib cue) "TYPE"
    = Some (get_cue_type (get_attribute position_mark "Type"))
  ∧ (∃ start_ms,
        sec_2_ms (SecondsStr (get_attribute position_mark "Start")) = Some start_ms
        ∧ attrib_get (attrib cue) "START" = Some (format_number_6f start_ms))
  ∧ (truthy (get_attribute position_mark "Start") = false →
     attrib_get (attrib cue) "START" = Some "0.000000")
  ∧ (truthy (get_attribute position_mark "Red")
     && truthy (get_attribute position_mark "Green")
     && truthy (get_attribute position_mark "Blue") = false →
     fst <$> attrib cue
     = ["NAME"; "DISPL_ORDER"; "TYPE"; "START"; "LEN"; "REPEATS"; "HOTCUE"]
     ∧ children cue = []).

Lemma add_cue_at_labelled i position_mark cue :
  add_cue_at i position_mark cue → labelled_as position_mark cue.
Proof.
  intros (self & self' & _ & Ha).
  destruct (add_cue_node _ _ _ _ Ha) as (start_ms & loop_length & Hstart & Hcue).
  cbn zeta in Hcue.
  match type of Hcue with
  | cue = if _ then set_cue_color ?p _ _ _ else _ => set (plain := p) in *
  end.
  assert (∀ name, name ≠ "COLOR" →
            attrib_get (attrib cue) name = attrib_get (attrib plain) name) as Hsame.
  { intros name Hname. rewrite Hcue. destruct (_ && _); [|done].
    by apply set_cue_color_attrib. }
  split. { rewrite Hcue. destruct (_ && _); [|done]. by rewrite set_cue_color_tag. }
  split; [by rewrite Hsame|]. split; [by rewrite Hsame|].
  split; [exists start_ms; by rewrite Hsame|]. split.
  - intros Hnone. rewrite Hsame; [|done]. unfold sec_2_ms in Hstart.
    rewrite Hnone in Hstart. injection Hstart as <-.
    cbn. by rewrite format_6f_0.
  - intros Hrgb. rewrite Hrgb in Hcue. by rewrite Hcue.
Qed.

(** X13. In the entry that [process_track] leaves, the cue of each
    translated position mark carries the name of the mark ("n.n." when it
    has none), the cue type of its [Type] and its start in milliseconds
    ("0.000000" when it has no [Start]).  A mark that lacks one of [Red],
    [Green] and [Blue] gets a cue without colour annotation. *)
Theorem cues_are_labelled_as_their_marks self e self' ok :
  process_track self e = Some (self', ok) →
  ∃ entry others cs,
    track self' = Some entry
    ∧ children entry = others ++ cs
    ∧ Forall2 labelled_as (translated_marks e) cs.
Proof.
  intros Hp.
  destruct (process_track_entry _ _ _ _ Hp)
    as (info & bitrate & grid & cs & _ & _ & _ & Hfrom & _ & -> & _).
  eexists _, (fixed_blocks info bitrate ++ grid), cs.
  split; [reflexivity|]. split.
  { unfold entry_of. cbn [children]. by rewrite app_assoc. }
  clear Hp. revert Hfrom. generalize 1, (translated_marks e). intros i marks.
  revert i cs.
  induction marks as [|pm rest IH]; intros i [|c cs]; simpl; try done.
  intros [Hc Hrest]. constructor; [by eapply add_cue_at_labelled|by eapply IH].
Qed.

(** [process_track] returns on a readable track, and only on one. *)
Lemma process_track_returns self e :
  readable_track e ↔ is_Some (process_track self e).
Proof.
  rewrite process_track_blocks. cbn zeta.
  set (self0 := set_track_info (reset_track self) e).
  assert (∃ info, track_info self0 = Some info
            ∧ (bitrate_readable e ↔ is_Some (int_of_float (info_bitrate info)))
            ∧ ∀ s tempo, track_info s = Some info →
                tempo_readable e tempo ↔ is_Some (tempo_marker s tempo))
    as (info & Hinfo & Hrate & Hmarker).
  { eexists. split; [reflexivity|]. split; [reflexivity|].
    intros s tempo Hs. unfold tempo_readable.
    erewrite (tempo_marker_bpm s); [reflexivity|exact Hs|reflexivity|reflexivity]. }
  unfold add_entry. rewrite Hinfo. cbn [mbind option_bind].
  unfold readable_track. rewrite Hrate.
  destruct (int_of_float (info_bitrate info)) as [bitrate|]; cbn [mbind option_bind].
  2:{ split; [by intros [[? [=]] _]|by intros [? [=]]]. }
  rewrite append_children_with_track. cbn [mbind option_bind].
  match goal with |- _ ↔ is_Some (process_tempo ?s e ≫= _) => set (s1 := s) end.
  assert (Forall (tempo_readable e) (findall e "TEMPO") ↔ is_Some (process_tempo s1 e))
    as Htempo.
  { rewrite <- (process_tempo_returns s1 e); [|by eexists|by eexists].
    apply Forall_iff. intros tempo. by apply Hmarker. }
  rewrite Htempo.
  destruct (process_tempo s1 e) as [s2|] eqn:Hs2; cbn [mbind option_bind].
  2:{ split; [by intros (_ & [? [=]] & _)|by intros [? [=]]]. }
  assert (is_Some (track s2)) as Ht2.
  { destruct (process_tempo_adds _ _ _ Hs2) as (new & Hnew & _).
    by eapply append_children_track. }
  rewrite (process_cues_returns s2 e Ht2).
  destruct (process_cues s2 e) as [s3|]; cbn [mbind option_bind].
  - split; [by eauto|]. intros _. repeat split; by eauto.
  - split; [by intros (_ & _ & [? [=]])|by intros [? [=]]].
Qed.

End Blocks.

(** ** The whole run *)

Section Run.
Context {float_impl : PyFloat} {utils_impl : Utils} {uuid4_impl : Uuid4}.

(** [entry] is the entry that [process_track] builds for the source track
    [e]. *)
Definition entry_for (e entry : Element) : Prop :=
  ∃ self self' ok, process_track self e = Some (self', ok) ∧ track self' = Some entry.

(** The track loop adds the entries of the source tracks, in their
    order. *)
Lemma process_entries_entries entries : ∀ self collection self' collection',
  process_entries self collection entries = Some (self', collection') →
  ∃ new,
    collection' = Elem (tag collection) (attrib collection) (children collection ++ new)
    ∧ Forall2 entry_for entries new.
Proof.
  induction entries as [|e rest IH]; intros self collection self' collection' Hp.
  - injection Hp as <- <-. exists []. rewrite app_nil_r. by destruct collection.
  - cbn [process_entries] in Hp.
    destruct (process_track self e) as [[self1 ok]|] eqn:Ht; [|done].
    cbn [mbind option_bind] in Hp.
    destruct (track self1) as [entry|] eqn:Hentry; [|done].
    cbn [mbind option_bind] in Hp.
    assert (∃ s, process_entries s (SubElement collection entry) rest
                 = Some (self', collection')) as [s Hs]
      by (destruct ok; by eexists).
    apply IH in Hs as (new & -> & Hall).
    exists (entry :: new). split.
    + unfold SubElement. cbn [tag attrib children]. by rewrite <- app_assoc.
    + constructor; [|done]. by exists self, self1, ok.
Qed.

(** The track loop returns exactly when every track is readable. *)
Lemma process_entries_returns entries : ∀ self collection,
  Forall readable_track entries ↔ is_Some (process_entries self collection entries).
Proof.
  induction entries as [|e rest IH]; intros self collection.
  - split; [by eexists|by constructor].
  - rewrite Forall_cons, (process_track_returns self e). cbn [process_entries].
    destruct (process_track self e) as [[self1 ok]|] eqn:Ht; cbn [mbind option_bind].
    2:{ split; [by intros [[? [=]] _]|by intros [? [=]]]. }
    destruct (process_track_entry _ _ _ _ Ht)
      as (info & bitrate & grid & cs & _ & _ & _ & _ & _ & -> & ->).
    cbn [track with_cue_index with_track mbind option_bind].
    rewrite <- IH. split; [by intros [_ ?]|]. intros Hrest. split; [by eexists|done].
Qed.

(** Playlist translation never stops the run. *)
Lemma process_playlists_returns self xml_root :
  is_Some (root self) → is_Some (process_playlists self xml_root).
Proof.
  intros [r Hr]. unfold process_playlists.
  assert (∀ s, is_Some (root s) → is_Some (add_default_playlist s)) as Hdefault.
  { intros s [r' Hs]. unfold add_default_playlist, attach_playlists, root_append.
    cbn zeta. cbn [root with_uuid_calls]. rewrite Hs. by eexists. }
  destruct (find xml_root "PLAYLISTS") as [section|]; [|by apply Hdefault; eexists].
  cbn zeta. destruct (find section "NODE") as [root_node|].
  - pose proof (process_nodes_only_draws (findall root_node "NODE") self
                  (Elem "SUBNODES" [] []) 0) as Hd.
    destruct (process_nodes _ _) as [[s subnodes] n]. simpl in Hd.
    destruct Hd as [m ->].
    { apply Forall_forall. intros node _. apply process_playlist_node_only_draws. }
    unfold attach_playlists, root_append. cbn [root with_uuid_calls]. rewrite Hr.
    by eexists.
  - unfold attach_playlists, root_append at 1. rewrite Hr. cbn [mbind option_bind].
    apply Hdefault. by eexists.
Qed.

(** X14. What stops a conversion.  [convert_xml_to_nml] builds the tree
    it writes exactly when every [TRACK] node below the root of the source
    is readable: [int]
    accepts its bit rate, [float] accepts [Inizio] and [Bpm] of its [TEMPO]
    nodes, and [Start] and [End] of its position marks that are not named
    "AutoGrid".  Nothing in the playlists stops it. *)
Theorem conversion_returns_on_readable_tracks self xml_root :
  Forall readable_track (findall_deep xml_root "TRACK")
  ↔ is_Some (convert_xml_to_nml self xml_root).
Proof.
  unfold convert_xml_to_nml. cbn zeta.
  match goal with
  | |- _ ↔ is_Some (add_head ?s ≫= _) => destruct (add_head s) as [s0|] eqn:Hhead
  end; [|done].
  injection Hhead as <-. cbn [mbind option_bind].
  match goal with
  | |- _ ↔ is_Some (process_entries ?s ?c ?l ≫= _) =>
      rewrite (process_entries_returns l s c);
      destruct (process_entries s c l) as [[s1 coll]|] eqn:Hloop
  end; cbn [mbind option_bind].
  2:{ split; by intros [? [=]]. }
  split; [intros _|by eexists].
  destruct (process_entries_result _ _ _ _ _ Hloop) as (_ & _ & Hroot & _).
  cbn [root] in Hroot.
  assert (is_Some (root_append s1 coll)) as [s2 Hs2].
  { unfold root_append. rewrite Hroot. by eexists. }
  rewrite Hs2. cbn [mbind option_bind].
  destruct (root_append_adds _ _ _ Hs2) as (r2 & _ & Hr2).
  assert (is_Some (add_sets s2)) as [s3 Hs3].
  { unfold add_sets, root_append. rewrite Hr2. by eexists. }
  rewrite Hs3. cbn [mbind option_bind].
  destruct (root_append_adds _ _ _ Hs3) as (r3 & _ & Hr3).
  destruct (process_playlists_returns s3 xml_root) as [s4 Hs4]; [by eexists|].
  rewrite Hs4. cbn [mbind option_bind].
  destruct (process_playlists_adds _ _ _ Hs4) as (new & (r & _ & Hr) & _).
  unfold add_indexing, root_append. rewrite Hr. by eexists.
Qed.

(** X15. The collection that is written lists the tracks in the order of
    the source: its children are the entries that [process_track] builds
    for the [TRACK] nodes below the root of the source, one each, in
    document order; each carries the date of the last change of its track
    (today's date when [format_date] gives none), its name and its artist
    (empty when missing) and the fixed audio fingerprint. *)
Theorem collection_follows_the_source_order self xml_root final :
  convert_xml_to_nml self xml_root = Some final →
  ∃ nml collection,
    root final = Some nml
    ∧ find nml "COLLECTION" = Some collection
    ∧ Forall2
        (λ e entry,
           entry_for e entry
           ∧ tag entry = "ENTRY"
           ∧ attrib_get (attrib entry) "MODIFIED_DATE"
             = Some (or_str (format_date (safe_get_attr e "DateModified" "")) today)
           ∧ attrib_get (attrib entry) "TITLE" = Some (safe_get_attr e "Name" "")
           ∧ attrib_get (attrib entry) "ARTIST" = Some (safe_get_attr e "Artist" "")
           ∧ attrib_get (attrib entry) "AUDIO_ID" = Some generate_audio_id)
        (findall_deep xml_root "TRACK") (children collection).
Proof.
  intros Hc.
  destruct (convert_xml_to_nml_parts _ _ _ Hc)
    as (s0 & s1 & coll & s2 & s3 & written & Hloop & _ & _ & Hroot & Hpl & Hw & Hfinal).
  destruct (process_entries_entries _ _ _ _ _ Hloop) as (new & -> & Hall).
  destruct (process_playlists_adds _ _ _ Hpl) as (sections & (r & Hr & Hs3) & _).
  rewrite Hroot in Hr. injection Hr as <-. rewrite Hw in Hs3. injection Hs3 as ->.
  eexists _, _. split; [exact Hfinal|]. split; [reflexivity|].
  cbn [children add_collection app].
  eapply Forall2_impl; [exact Hall|].
  intros e entry Hentry. split; [exact Hentry|].
  destruct Hentry as (s & s' & ok & Hp & Htrack).
  destruct (process_track_entry _ _ _ _ Hp)
    as (info & bitrate & grid & cs & Hinfo & _ & _ & _ & _ & -> & _).
  injection Htrack as <-. injection Hinfo as <-. by repeat split.
Qed.

End Run.

(** ** The command line *)

(** [s.replace(old, "")] for a non-empty [old]: the occurrences of [old] are
    found from left to right, without overlap, and left out.  [skip] counts
    the characters of the occurrence just found that are still to pass. *)
Fixpoint remove_from (old : string) (skip : nat) (s : string) : string :=
  match s with
  | EmptyString => EmptyString
  | String c rest =>
      match skip with
      | S k => remove_from old k rest
      | 0 =>
          if String.prefix old s then remove_from old (String.length old - 1) rest
          else String c (remove_from old 0 rest)
      end
  end.

Definition replace_with_nothing (s old : string) : string := remove_from old 0 s.

(** The name of the output file when the command line gives none: the
    input name without ".xml" and ".rekordbox", with ".nml" added. *)
Definition default_nml_file (xml_file : string) : string :=
  let filepath :=
    replace_with_nothing (replace_with_nothing xml_file ".xml") ".rekordbox" in
  filepath +:+ ".nml".

(** A piece of a path without dot. *)
Fixpoint dot_free (s : string) : bool :=
  match s with
  | EmptyString => true
  | String c rest => negb (Ascii.eqb c ".") && dot_free rest
  end.

Lemma string_app_empty (s : string) : s +:+ "" = s.
Proof.
  induction s as [|c s IH]; [done|].
  change (String c (s +:+ "") = String c s). by rewrite IH.
Qed.

Lemma string_app_assoc (s1 s2 s3 : string) : (s1 +:+ s2) +:+ s3 = s1 +:+ s2 +:+ s3.
Proof.
  induction s1 as [|c s1 IH]; [done|].
  change (String c ((s1 +:+ s2) +:+ s3) = String c (s1 +:+ s2 +:+ s3)).
  by rewrite IH.
Qed.

Lemma prefix_itself old rest : String.prefix old (old +:+ rest) = true.
Proof.
  induction old as [|c old IH]; [by destruct rest|].
  change (String c old +:+ rest) with (String c (old +:+ rest)).
  cbn [String.prefix]. by destruct (ascii_dec c c).
Qed.

Lemma remove_from_skip old (found : string) : ∀ rest,
  remove_from old (String.length found) (found +:+ rest) = remove_from old 0 rest.
Proof.
  induction found as [|c found IH]; intros rest; [done|].
  change (String c found +:+ rest) with (String c (found +:+ rest)).
  cbn [remove_from String.length]. apply IH.
Qed.

Lemma remove_from_occurrence c old rest :
  remove_from (String c old) 0 (String c old +:+ rest)
  = remove_from (String c old) 0 rest.
Proof.
  change (String c old +:+ rest) with (String c (old +:+ rest)).
  cbn [remove_from].
  change (String c (old +:+ rest)) with (String c old +:+ rest).
  rewrite prefix_itself.
  replace (String.length (String c old) - 1) with (String.length old)
    by (cbn [String.length]; lia).
  apply remove_from_skip.
Qed.

Lemma remove_from_dot_free old (a : string) : ∀ rest,
  dot_free a = true →
  remove_from (String "." old) 0 (a +:+ rest)
  = a +:+ remove_from (String "." old) 0 rest.
Proof.
  induction a as [|c a IH]; intros rest Ha; [done|].
  simpl in Ha. apply andb_true_iff in Ha as [Hc Ha].
  change (String c a +:+ rest) with (String c (a +:+ rest)).
  cbn [remove_from String.prefix].
  destruct (ascii_dec "." c) as [<-|_]; [done|].
  change (String c a +:+ ?x) with (String c (a +:+ x)). f_equal. by apply IH.
Qed.

Lemma remove_from_nothing old (a : string) :
  dot_free a = true → remove_from (String "." old) 0 a = a.
Proof.
  intros Ha. rewrite <- (string_app_empty a) at 1.
  rewrite (remove_from_dot_free old a "" Ha). cbn [remove_from].
  apply string_app_empty.
Qed.

Lemma remove_from_char old c rest :
  String.prefix old (String c rest) = false →
  remove_from old 0 (String c rest) = String c (remove_from old 0 rest).
Proof. intros Hp. cbn [remove_from]. by rewrite Hp. Qed.

Lemma dot_free_app (a b : string) :
  dot_free a = true → dot_free b = true → dot_free (a +:+ b) = true.
Proof.
  intros Ha Hb. induction a as [|c a IH]; [done|].
  change (String c a +:+ b) with (String c (a +:+ b)).
  cbn [dot_free] in Ha |- *. apply andb_true_iff in Ha as [-> Ha]. by apply IH.
Qed.

(** X16. The output file when none is named on the command line.  For an
    input whose name has no dot outside the extension, ".xml" (or
    ".rekordbox.xml") is replaced by ".nml"; a name without extension gets
    ".nml" added.  The extension is taken out wherever it stands: what
    follows it in the name is kept, and ".nml" goes after that. *)
Theorem default_output_name a b :
  dot_free a = true → dot_free b = true →
  default_nml_file (a +:+ ".xml" +:+ b) = a +:+ b +:+ ".nml"
  ∧ default_nml_file (a +:+ ".rekordbox.xml" +:+ b) = a +:+ b +:+ ".nml"
  ∧ default_nml_file a = a +:+ ".nml".
Proof.
  intros Ha Hb. unfold default_nml_file, replace_with_nothing. cbn zeta.
  pose proof (dot_free_app a b Ha Hb) as Hab.
  assert (∀ rest, remove_from ".xml" 0 (".rekordbox" +:+ rest)
                  = ".rekordbox" +:+ remove_from ".xml" 0 rest) as Hstep.
  { intros rest.
    change (".rekordbox" +:+ rest) with (String "." ("rekordbox" +:+ rest)) at 1.
    rewrite remove_from_char; [|reflexivity].
    by rewrite (remove_from_dot_free _ "rekordbox" _ eq_refl). }
  split; [|split].
  - rewrite (remove_from_dot_free _ a _ Ha), remove_from_occurrence.
    rewrite (remove_from_nothing _ b Hb), (remove_from_nothing _ _ Hab).
    by rewrite string_app_assoc.
  - change (".rekordbox.xml" +:+ b) with (".rekordbox" +:+ ".xml" +:+ b).
    rewrite (remove_from_dot_free _ a _ Ha), Hstep, remove_from_occurrence.
    rewrite (remove_from_nothing _ b Hb).
    rewrite (remove_from_dot_free _ a _ Ha), remove_from_occurrence.
    rewrite (remove_from_nothing _ b Hb).
    by rewrite string_app_assoc.
  - by rewrite !(remove_from_nothing _ a Ha).
Qed.

(** *** A run of the script *)

Section Script.
Context {float_impl : PyFloat} {utils_impl : Utils} {uuid4_impl : Uuid4}.

(** What a path of the file system holds: an XML document, given by its
    root, nothing (the file [open(path, "w").close()] leaves), or anything
    else.  [ET.parse] reads the first and raises on the other two. *)
Inductive file : Type :=
  | Xml (root : Element)
  | Blank
  | Other.

(** How the script ends: past its last line, with [sys.exit(1)] after the
    usage message, or with an exception. *)
Inductive ending : Type :=
  | Done
  | Exit1
  | Raised.

Definition parse (files : gmap string file) (xml_file : string) : option Element :=
  match files !! xml_file with
  | Some (Xml root) => Some root
  | _ => None
  end.

(** The script on the arguments [argv] and the files [files], every path
    of which can be written; the messages it prints are left out. *)
Definition main (argv : list string) (files : gmap string file)
  : gmap string file * ending :=
  match argv with
  | _ :: xml_file :: rest =>
      if bool_decide (is_Some (files !! xml_file)) then
        let nml_file :=
          match rest with
          | given :: _ => given
          | [] => default_nml_file xml_file
          end in
        let files := <[nml_file := Blank]> files in
        match
          xml_root ← parse files xml_file;
          converter ← convert_xml_to_nml init xml_root;
          root converter
        with
        | Some nml => (<[nml_file := Xml nml]> files, Done)
        | None => (files, Raised)
        end
      else (files, Exit1)
  | _ => (files, Exit1)
  end.


(** The script again, with what the file system adds to the contents:
    two paths can name one file, and [open(path, "w")] can raise.  [files]
    is keyed by the files themselves, [file_at] gives the file that a path
    names, and [writable] tells whether [open(path, "w")] succeeds; a file
    that was opened so is one that [tree.write] can write. *)
Record Paths := {
  file_at : string → string;
  writable : string → bool;
}.

(** The output file: [sys.argv[2]] when it is given, the name made from
    the input otherwise. *)
Definition output_file (xml_file : string) (rest : list string) : string :=
  match rest with
  | given :: _ => given
  | [] => default_nml_file xml_file
  end.

Definition run (paths : Paths) (argv : list string) (files : gmap string file)
  : gmap string file * ending :=
  match argv with
  | _ :: xml_file :: rest =>
      if bool_decide (is_Some (files !! file_at paths xml_file)) then
        let nml_file := output_file xml_file rest in
        if writable paths nml_file then
          let files := <[file_at paths nml_file := Blank]> files in
          match
            xml_root ← parse files (file_at paths xml_file);
            converter ← convert_xml_to_nml init xml_root;
            root converter
          with
          | Some nml => (<[file_at paths nml_file := Xml nml]> files, Done)
          | None => (files, Raised)
          end
        else (files, Raised)
      else (files, Exit1)
  | _ => (files, Exit1)
  end.

(** Every path its own file, and every file writable. *)
Definition plain_paths : Paths := {| file_at := id; writable := λ _, true |}.

(** [main] is the script where every path is a file of its own that can
    be written. *)
Lemma main_run argv files : main argv files = run plain_paths argv files.
Proof. by destruct argv as [|prog [|xml_file [|given rest]]]. Qed.

(** X18. A run changes the output file at most, whatever the paths name.
    After the usage exit every file is as it was.  After an exception the
    output file is empty, whatever it held before, unless it could not be
    opened for writing, and every other file is as it was; when the output
    path names the input file, that is the input.  After a normal end the
    output file holds the tree that [convert_xml_to_nml] built from the
    input, which was an XML document in another file than the output and
    is as it was, as is every other file.  The output file is the one that
    the second argument names, or else the name made from the input. *)
Theorem run_changes_the_output_file_only paths argv files files' how :
  run paths argv files = (files', how) →
  match how with
  | Exit1 => files' = files
  | Raised =>
      ∃ xml_file,
        argv !! 1 = Some xml_file
        ∧ files'
          = if writable paths (output_file xml_file (drop 2 argv))
            then <[file_at paths (output_file xml_file (drop 2 argv)) := Blank]> files
            else files
  | Done =>
      ∃ xml_file xml_root converter nml,
        argv !! 1 = Some xml_file
        ∧ files !! file_at paths xml_file = Some (Xml xml_root)
        ∧ file_at paths (output_file xml_file (drop 2 argv)) ≠ file_at paths xml_file
        ∧ writable paths (output_file xml_file (drop 2 argv)) = true
        ∧ convert_xml_to_nml init xml_root = Some converter
        ∧ root converter = Some nml
        ∧ files'
          = <[file_at paths (output_file xml_file (drop 2 argv)) := Xml nml]> files
        ∧ files' !! file_at paths xml_file = Some (Xml xml_root)
  end.
Proof.
  unfold run. destruct argv as [|prog [|xml_file rest]]; try by intros [= <- <-].
  destruct (bool_decide (is_Some (files !! file_at paths xml_file)));
    [|by intros [= <- <-]].
  cbn zeta. change (drop 2 (prog :: xml_file :: rest)) with rest.
  change ((prog :: xml_file :: rest) !! 1) with (Some xml_file).
  set (nml_file := output_file xml_file rest).
  assert (∀ emptied : gmap string file,
            emptied = (if writable paths nml_file
                       then <[file_at paths nml_file := Blank]> files else files) →
            ∃ xml_file0,
              Some xml_file = Some xml_file0
              ∧ emptied
                = if writable paths (output_file xml_file0 rest)
                  then <[file_at paths (output_file xml_file0 rest) := Blank]> files
                  else files) as Hraised.
  { intros emptied ->. by exists xml_file. }
  destruct (writable paths nml_file) eqn:Hopen;
    [|intros [= <- <-]; by apply Hraised].
  unfold parse.
  destruct (decide (file_at paths nml_file = file_at paths xml_file)) as [Heq|Hne].
  { rewrite Heq, lookup_insert_eq. intros [= <- <-]. apply Hraised. by rewrite Heq. }
  rewrite lookup_insert_ne by done.
  destruct (files !! file_at paths xml_file) as [[xml_root| |]|] eqn:Hfile;
    try (intros [= <- <-]; by apply Hraised).
  cbn [mbind option_bind].
  destruct (convert_xml_to_nml init xml_root) as [converter|] eqn:Hc;
    [|intros [= <- <-]; by apply Hraised].
  cbn [mbind option_bind].
  destruct (root converter) as [nml|] eqn:Hroot;
    [|intros [= <- <-]; by apply Hraised].
  intros [= <- <-]. exists xml_file, xml_root, converter, nml. fold nml_file.
  rewrite insert_insert_eq. repeat split; try done.
  by rewrite lookup_insert_ne.
Qed.

End Script.

(** ** The further properties on concrete sources *)

Module Cases.
Import Reference Examples.

(** A track with one tempo marker, and a track with a comment, a bit rate
    and a playing time that is no number. *)
Definition one_marker : Element :=
  Elem "TRACK" [("TrackID", "8"); ("AverageBpm", "126.00")]
    [Elem "TEMPO" [("Inizio", "0.25"); ("Bpm", "126.00")] []].

Definition commented : Element :=
  Elem "TRACK"
    [("TrackID", "4"); ("Name", "Live set"); ("Album", "Tapes"); ("BitRate", "256");
     ("TotalTime", "n/a"); ("Comments", "recorded live")] [].

(** A folder with a playlist without tracks and a playlist with two
    references. *)
Definition mixed_folder : Element :=
  Elem "NODE" [("Name", "Sets"); ("Type", "0"); ("Count", "2")]
    [no_tracks; half_dangling].

(** A source without playlists section, and one whose section has no
    node. *)
Definition bare_doc : Element :=
  Elem "DJ_PLAYLISTS" [("Version", "1.0.0")]
    [Elem "COLLECTION" [("Entries", "1")] [scenario_track]].

Definition rootless_doc : Element :=
  Elem "DJ_PLAYLISTS" [("Version", "1.0.0")]
    [Elem "COLLECTION" [("Entries", "1")] [scenario_track];
     Elem "PLAYLISTS" [] []].

(** What the reference helpers give on them. *)
Definition one_marker_entry : Rekordbox2Traktor :=
  Eval vm_compute in default init (fst <$> process_track init one_marker).

Definition commented_entry : Rekordbox2Traktor :=
  Eval vm_compute in default init (fst <$> process_track init commented).

Definition three_marks_listed : Rekordbox2Traktor :=
  Eval vm_compute in default init (fst <$> process_track with_table three_marks).

Definition scenario_entry : Rekordbox2Traktor :=
  Eval vm_compute in default init (fst <$> process_track init scenario_track).

Definition bare_final : Rekordbox2Traktor :=
  Eval vm_compute in default init (convert_xml_to_nml init bare_doc).

Definition rootless_final : Rekordbox2Traktor :=
  Eval vm_compute in default init (convert_xml_to_nml init rootless_doc).

Definition scenario_section : Element :=
  Eval vm_compute in default (Elem "" [] []) (find scenario_doc "PLAYLISTS").

Definition scenario_root_node : Element :=
  Eval vm_compute in default (Elem "" [] []) (find scenario_section "NODE").

(** [folder_holds_the_emitting_children] on [mixed_folder]. *)
Lemma emitting_children_witness :
  get_attribute mixed_folder "Name" = Some "Sets"
  ∧ "Sets" ≠ ""
  ∧ get_attribute mixed_folder "Type" = Some "0"
  ∧ ∃ self' made,
      process_playlist_node mixed_folder with_table (Elem "SUBNODES" [] [])
      = (self',
         SubElement (Elem "SUBNODES" [] [])
           (Elem "NODE" [("TYPE", "FOLDER"); ("NAME", "Sets")]
              [Elem "SUBNODES"
                 [("COUNT", str_nat (length (findall mixed_folder "NODE")))] made]))
      ∧ Forall2 (λ node c,
                   tag c = "NODE"
                   ∧ attrib c = [("TYPE", destination_type node);
                                 ("NAME", or_str (get_attribute node "Name") "")])
          (List.filter emits (findall mixed_folder "NODE")) made
      ∧ length (findall mixed_folder "NODE")
        = length made
          + length (List.filter (λ node, negb (emits node))
                      (findall mixed_folder "NODE")).
Proof.
  assert (get_attribute mixed_folder "Name" = Some "Sets") as Hname by reflexivity.
  assert ("Sets" ≠ "") as Hne by discriminate.
  assert (get_attribute mixed_folder "Type" = Some "0") as Htype by reflexivity.
  exact (conj Hname (conj Hne (conj Htype
           (folder_holds_the_emitting_children mixed_folder with_table
              (Elem "SUBNODES" [] []) "Sets" Hname Hne Htype)))).
Defined.

(** [no_section_gives_the_default_playlist] on [bare_doc]. *)
Lemma default_playlist_witness :
  convert_xml_to_nml init bare_doc = Some bare_final
  ∧ find bare_doc "PLAYLISTS" = None
  ∧ ∃ nml uuid,
      root bare_final = Some nml
      ∧ findall nml "PLAYLISTS"
        = [default_section (file_path <$> findall_deep bare_doc "TRACK") uuid].
Proof.
  assert (convert_xml_to_nml init bare_doc = Some bare_final) as Hc by reflexivity.
  assert (find bare_doc "PLAYLISTS" = None) as Hnone by reflexivity.
  exact (conj Hc (conj Hnone
           (no_section_gives_the_default_playlist _ _ _ Hc Hnone))).
Defined.

(** [section_without_root_is_written_twice] on [rootless_doc]. *)
Lemma written_twice_witness :
  convert_xml_to_nml init rootless_doc = Some rootless_final
  ∧ find rootless_doc "PLAYLISTS" = Some (Elem "PLAYLISTS" [] [])
  ∧ find (Elem "PLAYLISTS" [] []) "NODE" = None
  ∧ ∃ nml uuid,
      root rootless_final = Some nml
      ∧ findall nml "PLAYLISTS"
        = [Elem "PLAYLISTS" []
             [Elem "NODE" [("TYPE", "FOLDER"); ("NAME", "$ROOT")]
                [Elem "SUBNODES" [] []]];
           default_section (file_path <$> findall_deep rootless_doc "TRACK") uuid].
Proof.
  assert (convert_xml_to_nml init rootless_doc = Some rootless_final)
    as Hc by reflexivity.
  assert (find rootless_doc "PLAYLISTS" = Some (Elem "PLAYLISTS" [] []))
    as Hsection by reflexivity.
  assert (find (Elem "PLAYLISTS" [] []) "NODE" = None) as Hnone by reflexivity.
  exact (conj Hc (conj Hsection (conj Hnone
           (section_without_root_is_written_twice _ _ _ _ Hc Hsection Hnone)))).
Defined.

(** [root_folder_holds_the_emitting_nodes] on [scenario_doc]. *)
Lemma root_folder_witness :
  convert_xml_to_nml init scenario_doc = Some scenario_final
  ∧ find scenario_doc "PLAYLISTS" = Some scenario_section
  ∧ find scenario_section "NODE" = Some scenario_root_node
  ∧ ∃ nml made,
      root scenario_final = Some nml
      ∧ findall nml "PLAYLISTS"
        = [Elem "PLAYLISTS" []
             [Elem "NODE" [("TYPE", "FOLDER"); ("NAME", "$ROOT")]
                [Elem "SUBNODES"
                   [("COUNT", str_nat (length (findall scenario_root_node "NODE")))]
                   made]]]
      ∧ Forall2 (λ node c,
                   tag c = "NODE"
                   ∧ attrib c = [("TYPE", destination_type node);
                                 ("NAME", or_str (get_attribute node "Name") "")])
          (List.filter emits (findall scenario_root_node "NODE")) made.
Proof.
  assert (convert_xml_to_nml init scenario_doc = Some scenario_final)
    as Hc by reflexivity.
  assert (find scenario_doc "PLAYLISTS" = Some scenario_section)
    as Hsection by reflexivity.
  assert (find scenario_section "NODE" = Some scenario_root_node)
    as Hnode by reflexivity.
  exact (conj Hc (conj Hsection (conj Hnode
           (root_folder_holds_the_emitting_nodes _ _ _ _ _ Hc Hsection Hnode)))).
Defined.

(** [written_tree_has_a_fixed_shape] on [rootless_doc]. *)
Lemma fixed_shape_witness :
  convert_xml_to_nml init rootless_doc = Some rootless_final
  ∧ ∃ nml,
      root rootless_final = Some nml
      ∧ tag nml = "NML"
      ∧ attrib nml = [("VERSION", "20")]
      ∧ tag <$> children nml
        = ["HEAD"; "COLLECTION"; "SETS"]
          ++ replicate
               match find rootless_doc "PLAYLISTS" with
               | Some playlists_section =>
                   match find playlists_section "NODE" with Some _ => 1 | None => 2 end
               | None => 1
               end "PLAYLISTS"
          ++ ["INDEXING"].
Proof.
  assert (convert_xml_to_nml init rootless_doc = Some rootless_final)
    as Hc by reflexivity.
  exact (conj Hc (written_tree_has_a_fixed_shape _ _ _ Hc)).
Defined.

(** [process_track_keeps_paths_and_table] on [three_marks], after the track
    loop over [scenario_track]. *)
Lemma paths_and_table_witness :
  process_track with_table three_marks = Some (three_marks_listed, true)
  ∧ true = true
  ∧ tracks three_marks_listed = tracks with_table
  ∧ track_id_map three_marks_listed = track_id_map with_table
  ∧ track_index three_marks_listed = track_index with_table
  ∧ cue_index three_marks_listed = 1 + length (translated_marks three_marks)
  ∧ uuid_calls three_marks_listed
    = if truthy (get_attribute three_marks "TrackId") then uuid_calls with_table
      else S (uuid_calls with_table).
Proof.
  assert (process_track with_table three_marks = Some (three_marks_listed, true))
    as Hp by reflexivity.
  exact (conj Hp (process_track_keeps_paths_and_table _ _ _ _ Hp)).
Defined.

(** [entry_children_come_in_a_fixed_order] on [commented], which has an
    album. *)
Lemma fixed_order_witness :
  process_track init commented = Some (commented_entry, true)
  ∧ ∃ entry,
      track commented_entry = Some entry
      ∧ tag entry = "ENTRY"
      ∧ tag <$> children entry
        = ["LOCATION"]
            ++ (if truthy (get_attribute commented "Album") then ["ALBUM"] else [])
            ++ ["MODIFICATION_INFO"; "INFO"; "TEMPO"; "LOUDNESS"; "MUSICAL_KEY"]
            ++ replicate (S (Nat.max 1 (length (findall commented "TEMPO")))
                          + length (translated_marks commented)) "CUE_V2"
      ∧ findall entry "ALBUM"
        = if truthy (get_attribute commented "Album")
          then [Elem "ALBUM" [("TITLE", or_str (get_attribute commented "Album") "")] []]
          else [].
Proof.
  assert (process_track init commented = Some (commented_entry, true))
    as Hp by reflexivity.
  exact (conj Hp (entry_children_come_in_a_fixed_order _ _ _ _ Hp)).
Defined.

(** [track_without_tempo_node_gets_a_grid_at_zero] on [three_marks]. *)
Lemma grid_at_zero_witness :
  process_track init three_marks = Some (three_marks_entry, true)
  ∧ findall three_marks "TEMPO" = []
  ∧ ∃ entry bpm cs,
      track three_marks_entry = Some entry
      ∧ findall entry "TEMPO"
        = [Elem "TEMPO" [("BPM", bpm); ("BPM_QUALITY", "100.000000")] []]
      ∧ findall entry "CUE_V2"
        = Elem "CUE_V2"
            [("NAME", "AutoGrid"); ("DISPL_ORDER", "0"); ("TYPE", "4");
             ("START", "0.000000"); ("LEN", "0.000000");
             ("REPEATS", "-1"); ("HOTCUE", "-1")]
            [Elem "GRID" [("BPM", bpm)] []]
          :: Elem "CUE_V2"
               [("NAME", "AutoGrid"); ("DISPL_ORDER", "0"); ("TYPE", "0");
                ("START", "0.000000"); ("LEN", "0.000000");
                ("REPEATS", "-1"); ("HOTCUE", "0"); ("COLOR", "#FFFFFF")] []
          :: cs
      ∧ length cs = length (translated_marks three_marks).
Proof.
  assert (process_track init three_marks = Some (three_marks_entry, true))
    as Hp by reflexivity.
  assert (findall three_marks "TEMPO" = []) as Hnone by reflexivity.
  exact (conj Hp (conj Hnone
           (track_without_tempo_node_gets_a_grid_at_zero _ _ _ _ Hp Hnone))).
Defined.

(** [single_tempo_node_anchors_the_grid] on [one_marker]. *)
Lemma single_tempo_node_witness :
  process_track init one_marker = Some (one_marker_entry, true)
  ∧ findall one_marker "TEMPO" = [Elem "TEMPO" [("Inizio", "0.25"); ("Bpm", "126.00")] []]
  ∧ ∃ entry start_ms bpm cs,
      track one_marker_entry = Some entry
      ∧ tempo_marker (set_track_info init one_marker)
          (Elem "TEMPO" [("Inizio", "0.25"); ("Bpm", "126.00")] [])
        = Some (start_ms, bpm)
      ∧ findall entry "CUE_V2"
        = beatmarker_cue start_ms bpm true :: autogrid_cue start_ms :: cs
      ∧ length cs = length (translated_marks one_marker).
Proof.
  assert (process_track init one_marker = Some (one_marker_entry, true))
    as Hp by reflexivity.
  assert (findall one_marker "TEMPO"
          = [Elem "TEMPO" [("Inizio", "0.25"); ("Bpm", "126.00")] []])
    as Hone by reflexivity.
  exact (conj Hp (conj Hone
           (single_tempo_node_anchors_the_grid _ _ _ _ _ Hp Hone))).
Defined.

(** [location_block_spells_the_playlist_key] on [scenario_track]. *)
Lemma location_block_witness :
  process_track init scenario_track = Some (scenario_entry, true)
  ∧ truthy (get_attribute scenario_track "Location") = true
  ∧ ∃ entry dir file volume,
      track scenario_entry = Some entry
      ∧ findall entry "LOCATION"
        = [Elem "LOCATION"
             [("DIR", dir); ("FILE", file); ("VOLUME", volume); ("VOLUMEID", volume)]
             []]
      ∧ file_path scenario_track = volume +:+ dir +:+ file.
Proof.
  assert (process_track init scenario_track = Some (scenario_entry, true))
    as Hp by reflexivity.
  assert (truthy (get_attribute scenario_track "Location") = true)
    as Hloc by reflexivity.
  exact (conj Hp (conj Hloc
           (location_block_spells_the_playlist_key _ _ _ _ Hp Hloc))).
Defined.

(** [info_block_of_a_track] on [commented]. *)
Lemma info_block_witness :
  process_track init commented = Some (commented_entry, true)
  ∧ ∃ entry node bitrate,
      track commented_entry = Some entry
      ∧ findall entry "INFO" = [node]
      ∧ int_of_float
          (float_mul
             (safe_float (safe_get_attr commented "BitRate" "320") (float_of_int 320%Z))
             (float_of_int 1000%Z)) = Some bitrate
      ∧ attrib_get (attrib node) "BITRATE" = Some (pretty bitrate)
      ∧ attrib_get (attrib node) "KEY"
        = Some (default "10d"
                  (KEY_TO_CODE !! get_tonalikey (safe_get_attr commented "Tonality" "")))
      ∧ attrib_get (attrib node) "PLAYTIME"
        = Some (safe_get_attr commented "TotalTime" "0")
      ∧ (float_of_str (safe_get_attr commented "TotalTime" "0") = None →
         attrib_get (attrib node) "PLAYTIME_FLOAT" = Some "0.000000")
      ∧ attrib_get (attrib node) "COMMENT"
        = if truthy (get_attribute commented "Comments")
          then get_attribute commented "Comments"
          else None.
Proof.
  assert (process_track init commented = Some (commented_entry, true))
    as Hp by reflexivity.
  exact (conj Hp (info_block_of_a_track _ _ _ _ Hp)).
Defined.

(** [cues_are_labelled_as_their_marks] on [three_marks]. *)
Lemma labelled_cues_witness :
  process_track init three_marks = Some (three_marks_entry, true)
  ∧ ∃ entry others cs,
      track three_marks_entry = Some entry
      ∧ children entry = others ++ cs
      ∧ Forall2 labelled_as (translated_marks three_marks) cs.
Proof.
  assert (process_track init three_marks = Some (three_marks_entry, true))
    as Hp by reflexivity.
  exact (conj Hp (cues_are_labelled_as_their_marks _ _ _ _ Hp)).
Defined.

(** [collection_follows_the_source_order] on [scenario_doc]. *)
Lemma source_order_witness :
  convert_xml_to_nml init scenario_doc = Some scenario_final
  ∧ ∃ nml collection,
      root scenario_final = Some nml
      ∧ find nml "COLLECTION" = Some collection
      ∧ Forall2
          (λ e entry,
             entry_for e entry
             ∧ tag entry = "ENTRY"
             ∧ attrib_get (attrib entry) "MODIFIED_DATE"
               = Some (or_str (format_date (safe_get_attr e "DateModified" "")) today)
             ∧ attrib_get (attrib entry) "TITLE" = Some (safe_get_attr e "Name" "")
             ∧ attrib_get (attrib entry) "ARTIST" = Some (safe_get_attr e "Artist" "")
             ∧ attrib_get (attrib entry) "AUDIO_ID" = Some generate_audio_id)
          (findall_deep scenario_doc "TRACK") (children collection).
Proof.
  assert (convert_xml_to_nml init scenario_doc = Some scenario_final)
    as Hc by reflexivity.
  exact (conj Hc (collection_follows_the_source_order _ _ _ Hc)).
Defined.

(** [default_output_name] on a library export and on a backup of it. *)
Lemma output_name_witness :
  dot_free "/music/export" = true
  ∧ dot_free "-old" = true
  ∧ default_nml_file ("/music/export" +:+ ".xml" +:+ "-old")
    = "/music/export" +:+ "-old" +:+ ".nml"
  ∧ default_nml_file ("/music/export" +:+ ".rekordbox.xml" +:+ "-old")
    = "/music/export" +:+ "-old" +:+ ".nml"
  ∧ default_nml_file "/music/export" = "/music/export" +:+ ".nml".
Proof.
  assert (dot_free "/music/export" = true) as Ha by reflexivity.
  assert (dot_free "-old" = true) as Hb by reflexivity.
  exact (conj Ha (conj Hb (default_output_name _ _ Ha Hb))).
Defined.

(** The files of a run: the document of the scenario, as "lib.xml". *)
Definition library : gmap string file := {[ "lib.xml" := Xml scenario_doc ]}.

Definition scenario_nml : Element :=
  Eval vm_compute in default (Elem "" [] []) (root scenario_final).


(** Paths of one directory: "./name" is the file "name"; the file
    "locked.nml" cannot be opened for writing. *)
Definition one_directory : Paths :=
  {| file_at path :=
       match path with
       | String "." (String "/" name) => name
       | _ => path
       end;
     writable path := negb (String.eqb path "locked.nml") |}.

(** [run_changes_the_output_file_only] on a run over [library] that names
    no output file. *)
Lemma output_file_only_witness :
  run one_directory ["rekord_to_nml.py"; "./lib.xml"] library
  = (<["lib.nml" := Xml scenario_nml]> (<["lib.nml" := Blank]> library), Done)
  ∧ ∃ xml_file xml_root converter nml,
      ["rekord_to_nml.py"; "./lib.xml"] !! 1 = Some xml_file
      ∧ library !! file_at one_directory xml_file = Some (Xml xml_root)
      ∧ file_at one_directory
          (output_file xml_file (drop 2 ["rekord_to_nml.py"; "./lib.xml"]))
        ≠ file_at one_directory xml_file
      ∧ writable one_directory
          (output_file xml_file (drop 2 ["rekord_to_nml.py"; "./lib.xml"])) = true
      ∧ convert_xml_to_nml init xml_root = Some converter
      ∧ root converter = Some nml
      ∧ <["lib.nml" := Xml scenario_nml]> (<["lib.nml" := Blank]> library)
        = <[file_at one_directory
              (output_file xml_file (drop 2 ["rekord_to_nml.py"; "./lib.xml"]))
            := Xml nml]> library
      ∧ (<["lib.nml" := Xml scenario_nml]> (<["lib.nml" := Blank]> library))
          !! file_at one_directory xml_file
        = Some (Xml xml_root).
Proof.
  assert (run one_directory ["rekord_to_nml.py"; "./lib.xml"] library
          = (<["lib.nml" := Xml scenario_nml]> (<["lib.nml" := Blank]> library), Done))
    as Hrun by reflexivity.
  exact (conj Hrun (run_changes_the_output_file_only _ _ _ _ _ Hrun)).
Defined.

(** Two runs that end with an exception: the output path is another name
    of the input, which is left empty; the output cannot be opened, and
    nothing changes. *)
Example run_on_another_name_of_the_input :
  run one_directory ["rekord_to_nml.py"; "lib.xml"; "./lib.xml"] library
  = (<["lib.xml" := Blank]> library, Raised).
Proof. reflexivity. Qed.

Example run_on_a_locked_output :
  run one_directory ["rekord_to_nml.py"; "lib.xml"; "locked.nml"] library
  = (library, Raised).
Proof. reflexivity. Qed.

End Cases.
